(** * Battle resolution and progression engine of the baton RPG bot

    A shallow embedding of the combat, stat-aggregation, progression,
    reward and dungeon-entry code of [demon_baton_bot_full_fixed.py] and
    [utils/__init__.py], with the properties the specification states
    about them.

    Conventions of the embedding.
    - Python [int] is [Z].  A Python [float] is the rational number it
      denotes ([Q]); equality of floats is [Qeq] (written [==]).  The
      operations whose result is not a binary64 number round it with
      [fl] where the code takes the integer part of the result: the
      power of the experience curve and the products by the literal 0.1
      of [calculate_damage] and [PlayerPet.get_total_stats].  The other
      float operations are sums, differences, products, floors and
      comparisons of integers and the literals 1.5, 0.5, 0.3, 0.2 and
      are computed exactly.  The exponent range of binary64 is left
      out: Python raises [OverflowError] beyond it.
    - A name used in a function body denotes the definition of that name
      in the source file (the file's indentation nests later definitions
      inside earlier ones; the embedding follows the names).
    - [random.random()], [random.randint] and [random.choice] read an
      injected generator: a sequence of draws and a cursor.
    - An ORM session is the set of objects a handler loads and mutates,
      passed and returned explicitly, with the fact whether the handler
      reached [session.commit()].
    - The text of log lines and chat replies is abstracted to an event
      constructor with the values the f-string interpolates. *)

From Stdlib Require Import ZArith QArith Qround Qminmax Qpower Qabs Lia Lqa.
From stdpp Require Import gmap strings list fin_maps.

Local Open Scope Z_scope.

(** ** Numbers *)

#[global] Instance Q_inhabited : Inhabited Q := populate 0%Q.

(** [x < y] on floats, as a boolean. *)
Definition Qltb (x y : Q) : bool := (Qnum x * QDen y <? Qnum y * QDen x)%Z.

(** [int(x)]: truncation toward zero. *)
Definition py_int (x : Q) : Z :=
  if Qltb x 0 then Qceiling x else Qfloor x.

(** [x // 2] on a float: the floor of the half, still a float. *)
Definition floordiv2 (x : Q) : Q := inject_Z (Qfloor (x / 2)).

(** [max(1, x)]: Python keeps the first argument unless a later one is
    strictly larger. *)
Definition max1 (x : Q) : Q := if Qltb 1 x then x else 1%Q.

(** [min(a, b)] / [max(a, b)] on floats. *)
Definition py_min (a b : Q) : Q := if Qltb b a then b else a.

(** [d.get(k)] on a JSON object kept as the list of its entries. *)
Fixpoint assoc_find (k : string) (l : list (string * Q)) : option Q :=
  match l with
  | [] => None
  | (k', v) :: l' => if String.eqb k' k then Some v else assoc_find k l'
  end.

(** ** Binary64 arithmetic *)

(** [2^e], for an exponent of either sign. *)
Definition pow2 (e : Z) : Q := (2 ^ e)%Q.

(** The binade of a positive number: the [k] with
    [2^k <= x < 2^(k+1)]. *)
Definition binade (x : Q) : Z :=
  let k := Z.log2 (Qnum x) - Z.log2 (QDen x) in
  if Qle_bool (pow2 k) x then k else k - 1.

(** The integer nearest to [q], a tie going to the even one. *)
Definition rne (q : Q) : Z :=
  let f := Qfloor q in
  match (q - inject_Z f ?= 1 # 2)%Q with
  | Lt => f
  | Gt => f + 1
  | Eq => if Z.even f then f else f + 1
  end.

(** The binary64 number nearest to [x]: a significand of 53 bits, a tie
    going to the even significand.  This is the result of a float
    operation whose exact result is [x], of reading the literal [x]
    and of converting the integer [x] to a float. *)
Definition fl (x : Q) : Q :=
  if Qeq_bool x 0 then 0%Q
  else let e := binade (Qabs x) - 52 in
       (inject_Z (rne (x / pow2 e)) * pow2 e)%Q.

(** [a * b] and [a + b] on floats. *)
Definition float_mul (a b : Q) : Q := fl (a * b).
Definition float_add (a b : Q) : Q := fl (a + b).

(** The binary64 number nearest to the square root of [q], 0 for a
    [q] that is not positive. *)
Definition fl_sqrt (q : Q) : Q :=
  if Qle_bool q 0 then 0%Q
  else let e := binade q / 2 - 52 in
       let s := (q / pow2 (2 * e))%Q in
       let m := Z.sqrt (Qfloor s) in
       let mid := (inject_Z (2 * m + 1) / 2)%Q in
       let r := match (s ?= mid * mid)%Q with
                | Lt => m
                | Gt => m + 1
                | Eq => if Z.even m then m else m + 1
                end in
       (inject_Z r * pow2 e)%Q.

(** [x ** e] on floats, for [x >= 0] and an exponent [e] that is a
    multiple of one half: with [n = 2e], the binary64 number nearest to
    the square root of [x^n].  Python hands [**] to the [pow] of the C
    library, which is taken here to round to the nearest; a library
    that is accurate to less than that may return the neighbouring
    binary64 number. *)
Definition float_pow (x e : Q) : Q := fl_sqrt (x ^ Qfloor (2 * e)).

(** [EXPERIENCE_MULTIPLIER = 1.5] *)
Definition EXPERIENCE_MULTIPLIER : Q := 3 # 2.

(** [int(100 * (level ** e))] for a level [>= 0]: the level is
    converted to a float, raised to the power, multiplied by 100 and
    truncated.  (For a negative level Python's [**] yields a complex
    number and [int] raises; levels start at 1 and only grow.) *)
Definition int_100_pow (level : Z) (e : Q) : Z :=
  py_int (float_mul 100 (float_pow (fl (inject_Z level)) e)).

(** [calculate_exp_for_level] of [utils/__init__.py]:
    [return int(100 * (level ** 1.5))] *)
Definition calculate_exp_for_level (level : Z) : Z :=
  int_100_pow level (3 # 2).

(** The specification's wording of the curve: [t] is
    [floor(100 * level^1.5)], that is [t <= 100 * level^1.5 < t + 1],
    stated on the squares so that no root is needed. *)
Definition is_floor_100_pow_1_5 (level t : Z) : Prop :=
  0 <= t /\ t * t <= 10000 * level ^ 3 < (t + 1) * (t + 1).

(** ** Progression ledger: players *)

Module Player.

(** The columns of [class Player] the modelled code reads or writes. *)
Record t := mk {
  id : Z;
  name : string;
  level : Z;
  experience : Z;
  batons : Z;
  strength : Z;
  agility : Z;
  intelligence : Z;
  vitality : Z;
  energy : Z;
  max_energy : Z;
  health : Z;
  max_health : Z;
  pvp_rating : Z;
  wins : Z;
  losses : Z;
  crafting_level : Z;
  crafting_experience : Z
}.

(** [get_next_level_exp]:
    [return int(100 * (self.level ** EXPERIENCE_MULTIPLIER))] *)
Definition get_next_level_exp (self : t) : Z :=
  int_100_pow (level self) EXPERIENCE_MULTIPLIER.

(** [self.experience += amount] *)
Definition gain (self : t) (amount : Z) : t :=
  mk (id self) (name self) (level self) (experience self + amount)
     (batons self) (strength self) (agility self) (intelligence self)
     (vitality self) (energy self) (max_energy self) (health self)
     (max_health self) (pvp_rating self) (wins self) (losses self)
     (crafting_level self) (crafting_experience self).

(** The body of the [while] loop of [add_experience]: one level-up. *)
Definition level_up_once (self : t) : t :=
  mk (id self) (name self) (level self + 1) (experience self)
     (batons self) (strength self + 2) (agility self + 2)
     (intelligence self + 2) (vitality self + 2) (energy self)
     (max_energy self + 10) (health self) (max_health self + 20)
     (pvp_rating self) (wins self) (losses self)
     (crafting_level self) (crafting_experience self).

(** [while self.experience >= self.get_next_level_exp(): ...], with the
    flag [level_up] threaded through.  [fuel] bounds the number of
    iterations; [add_experience] supplies enough of it
    ([level_loop_enough_fuel]). *)
Fixpoint level_loop (fuel : nat) (self : t) (level_up : bool) : t * bool :=
  match fuel with
  | O => (self, level_up)
  | S fuel' =>
      if get_next_level_exp self <=? experience self
      then level_loop fuel' (level_up_once self) true
      else (self, level_up)
  end.

(** Iterations the loop can need: every threshold is at least the
    level, so the loop stops before the level passes the experience. *)
Definition level_fuel (self : t) : nat :=
  Z.to_nat (experience self - level self + 1).

(** [add_experience(self, amount) -> bool], returning the updated
    player and the flag. *)
Definition add_experience (self : t) (amount : Z) : t * bool :=
  let self := gain self amount in
  level_loop (level_fuel self) self false.

(** Other field updates the handlers perform. *)
Definition set_energy (self : t) (e : Z) : t :=
  mk (id self) (name self) (level self) (experience self)
     (batons self) (strength self) (agility self) (intelligence self)
     (vitality self) e (max_energy self) (health self)
     (max_health self) (pvp_rating self) (wins self) (losses self)
     (crafting_level self) (crafting_experience self).

Definition set_batons (self : t) (b : Z) : t :=
  mk (id self) (name self) (level self) (experience self)
     b (strength self) (agility self) (intelligence self)
     (vitality self) (energy self) (max_energy self) (health self)
     (max_health self) (pvp_rating self) (wins self) (losses self)
     (crafting_level self) (crafting_experience self).

Definition set_pvp (self : t) (rating w l : Z) : t :=
  mk (id self) (name self) (level self) (experience self)
     (batons self) (strength self) (agility self) (intelligence self)
     (vitality self) (energy self) (max_energy self) (health self)
     (max_health self) rating w l
     (crafting_level self) (crafting_experience self).

Definition set_crafting (self : t) (lvl xp : Z) : t :=
  mk (id self) (name self) (level self) (experience self)
     (batons self) (strength self) (agility self) (intelligence self)
     (vitality self) (energy self) (max_energy self) (health self)
     (max_health self) (pvp_rating self) (wins self) (losses self)
     lvl xp.

End Player.

(** ** Progression ledger: companions *)

(** [class Pet] and [class PetAbility]. *)
Record PetAbility := {
  ability_id : Z;
  ability_name : string;
  ability_type : string;
  ability_effect : list (string * Q);
  ability_cooldown : Z;
  ability_required_evolution : Z
}.

Record Pet := {
  pet_name : string;
  base_damage : Z;
  base_defense : Z;
  base_health : Z;
  evolution_level : Z;
  abilities : list PetAbility
}.

Module PlayerPet.

Record t := mk {
  player_id : Z;
  nickname : option string;
  level : Z;
  experience : Z;
  happiness : Z;
  hunger : Z;
  is_active : bool;
  bonus_stats : list (string * Q);
  pet : Pet
}.

(** [get_next_level_exp]: [return int(100 * (self.level ** 1.5))] *)
Definition get_next_level_exp (self : t) : Z :=
  int_100_pow (level self) (3 # 2).

(** The dict [get_total_stats] returns. *)
Record stats := { damage : Z; defense : Z; health : Z }.

(** [get_total_stats]: base value scaled by the level multiplier plus
    the trained bonus, truncated by [int]:
    [level_multiplier = 1 + (self.level - 1) * 0.1] and
    [int(base * level_multiplier + self.bonus_stats.get(k, 0))], every
    operation rounding to binary64. *)
Definition get_total_stats (self : t) : stats :=
  let level_multiplier :=
    float_add 1 (float_mul (fl (inject_Z (level self - 1))) (fl (1 # 10))) in
  let total (base : Z) (k : string) : Z :=
    py_int (float_add (float_mul (fl (inject_Z base)) level_multiplier)
                      (fl (default 0%Q (assoc_find k (bonus_stats self))))) in
  {| damage := total (base_damage (pet self)) "damage";
     defense := total (base_defense (pet self)) "defense";
     health := total (base_health (pet self)) "health" |}.

End PlayerPet.

(** ** Stat aggregator *)

(** [class Item]: the bonus columns and the name. *)
Record Item := {
  item_name : string;
  strength_bonus : Z;
  agility_bonus : Z;
  intelligence_bonus : Z;
  vitality_bonus : Z;
  health_bonus : Z;
  energy_bonus : Z;
  damage_bonus : Z;
  defense_bonus : Z
}.

(** [class Equipment]: one nullable item id per slot. *)
Record Equipment := {
  weapon_id : option Z;
  armor_id : option Z;
  helmet_id : option Z;
  boots_id : option Z;
  amulet_id : option Z;
  ring_id : option Z
}.

(** [class PlayerBuff]; [stat_bonuses] is a nullable JSON object, kept
    as the list of its entries in iteration order. *)
Record PlayerBuff := {
  buff_player_id : Z;
  expires_at : Z;
  stat_bonuses : option (list (string * Q))
}.

(** [class Inventory]: one row per (player, item). *)
Record Inventory := {
  inv_player_id : Z;
  inv_item_id : Z;
  quantity : Z
}.

(** What a handler can read through [session.query]: the item table,
    each player's equipment row, the buff rows, the inventory rows, the
    companions and the clock ([datetime.utcnow()], in seconds). *)
Record Session := {
  items : gmap Z Item;
  equipment : gmap Z Equipment;
  buffs : list PlayerBuff;
  inventory : list Inventory;
  player_pets : list PlayerPet.t;
  now : Z
}.

(** [d[k] += v] on a dict of floats.  The modelled code only does this
    on keys it has just tested or created; a missing key (Python's
    [KeyError]) reads as 0 here and is never reached
    ([get_total_stats_keys]). *)
Definition dict_add (k : string) (v : Q) (d : gmap string Q) : gmap string Q :=
  <[k := (d !!! k + v)%Q]> d.

(** [k in d] *)
Definition dict_has (k : string) (d : gmap string Q) : bool :=
  bool_decide (is_Some (d !! k)).

(** The dict literal that opens [get_total_stats]. *)
Definition base_stats (self : Player.t) : gmap string Q :=
  <["dodge_chance" := (inject_Z (Player.agility self) * (3 # 10))%Q]>
  (<["critical_chance" := (inject_Z (Player.agility self) * (1 # 2))%Q]>
  (<["defense" := (inject_Z (Player.vitality self) * (3 # 2))%Q]>
  (<["damage" := inject_Z (Player.strength self * 2)]>
  (<["energy" := inject_Z (Player.max_energy self)]>
  (<["health" := inject_Z (Player.max_health self)]>
  (<["vitality" := inject_Z (Player.vitality self)]>
  (<["intelligence" := inject_Z (Player.intelligence self)]>
  (<["agility" := inject_Z (Player.agility self)]>
  (<["strength" := inject_Z (Player.strength self)]> ∅))))))))).

(** The eight [total_stats[...] += item....] lines. *)
Definition add_item_bonuses (item : Item) (total_stats : gmap string Q)
  : gmap string Q :=
  dict_add "defense" (inject_Z (defense_bonus item))
  (dict_add "damage" (inject_Z (damage_bonus item))
  (dict_add "energy" (inject_Z (energy_bonus item))
  (dict_add "health" (inject_Z (health_bonus item))
  (dict_add "vitality" (inject_Z (vitality_bonus item))
  (dict_add "intelligence" (inject_Z (intelligence_bonus item))
  (dict_add "agility" (inject_Z (agility_bonus item))
  (dict_add "strength" (inject_Z (strength_bonus item)) total_stats))))))).

(** The item a slot resolves to: [if item_id:] (neither [None] nor 0)
    and [if item:] (the id is in the item table). *)
Definition slot_item (s : Session) (slot : option Z) : option Item :=
  match slot with
  | Some item_id => if item_id =? 0 then None else items s !! item_id
  | None => None
  end.

(** One turn of [for slot in ['weapon_id', ..., 'ring_id']]. *)
Definition equip_slot (s : Session) (total_stats : gmap string Q)
    (slot : option Z) : gmap string Q :=
  match slot_item s slot with
  | Some item => add_item_bonuses item total_stats
  | None => total_stats
  end.

Definition slots (e : Equipment) : list (option Z) :=
  [weapon_id e; armor_id e; helmet_id e; boots_id e; amulet_id e; ring_id e].

(** [filter_by(player_id=self.id).filter(expires_at > utcnow())] *)
Definition buff_active (s : Session) (self : Player.t) (b : PlayerBuff) : bool :=
  (buff_player_id b =? Player.id self) && (now s <? expires_at b).

Definition active_buffs (s : Session) (self : Player.t) : list PlayerBuff :=
  List.filter (buff_active s self) (buffs s).

(** One turn of [for stat, bonus in ....items()]:
    [if stat in total_stats: total_stats[stat] += bonus]. *)
Definition add_if_present (total_stats : gmap string Q) (e : string * Q)
  : gmap string Q :=
  if dict_has (fst e) total_stats
  then dict_add (fst e) (snd e) total_stats
  else total_stats.

(** One turn of [for buff in active_buffs]; [if buff.stat_bonuses:]
    skips [None] and the empty object alike. *)
Definition apply_buff (total_stats : gmap string Q) (b : PlayerBuff)
  : gmap string Q :=
  match stat_bonuses b with
  | Some entries => fold_left add_if_present entries total_stats
  | None => total_stats
  end.

(** [Player.get_total_stats(self, session)] *)
Definition get_total_stats (self : Player.t) (s : Session) : gmap string Q :=
  let total_stats := base_stats self in
  let total_stats :=
    match equipment s !! Player.id self with
    | Some e => fold_left (equip_slot s) (slots e) total_stats
    | None => total_stats
    end in
  fold_left apply_buff (active_buffs s self) total_stats.










(** What [k] level-ups turn a player into, field by field. *)
Definition leveled (k : Z) (p q : Player.t) : Prop :=
  Player.level q = Player.level p + k /\
  Player.strength q = Player.strength p + 2 * k /\
  Player.agility q = Player.agility p + 2 * k /\
  Player.intelligence q = Player.intelligence p + 2 * k /\
  Player.vitality q = Player.vitality p + 2 * k /\
  Player.max_health q = Player.max_health p + 20 * k /\
  Player.max_energy q = Player.max_energy p + 10 * k /\
  Player.experience q = Player.experience p /\
  Player.id q = Player.id p /\ Player.name q = Player.name p /\
  Player.batons q = Player.batons p /\ Player.energy q = Player.energy p /\
  Player.health q = Player.health p /\
  Player.pvp_rating q = Player.pvp_rating p /\
  Player.wins q = Player.wins p /\ Player.losses q = Player.losses p /\
  Player.crafting_level q = Player.crafting_level p /\
  Player.crafting_experience q = Player.crafting_experience p.

(** ** The random generator *)

(** The injected generator: [draws i] is the float in [0, 1) that the
    [i]-th call of the [random] module is based on. *)
Record rng := { draws : nat -> Q; cursor : nat }.

(** Every draw lies in [0, 1), as [random.random()] promises. *)
Definition unit_draws (g : rng) : Prop :=
  forall i, (0 <= draws g i)%Q /\ (draws g i < 1)%Q.

(** The [i]-th draw still to come. *)
Definition draw (g : rng) (i : nat) : Q := draws g (cursor g + i)%nat.

(** [random.random()] *)
Definition random (g : rng) : Q * rng :=
  (draws g (cursor g), {| draws := draws g; cursor := S (cursor g) |}).

(** The value [random.randint(a, b)] returns for [a <= b]: the draw
    scaled onto the [b - a + 1] integers from [a]. *)
Definition randint_draw (a b : Z) (g : rng) : Z * rng :=
  let '(r, g) := random g in
  (a + Qfloor (r * inject_Z (b - a + 1)), g).

(** [random.randint(a, b)]: [None] stands for the [ValueError] of an
    empty range. *)
Definition randint (a b : Z) (g : rng) : option (Z * rng) :=
  if b <? a then None else Some (randint_draw a b g).

(** [random.choice(xs)]: the draw scaled onto the indices of [xs] (and
    kept inside them); [None] stands for the [IndexError] on an empty
    list. *)
Definition choice {A} (xs : list A) (g : rng) : option (A * rng) :=
  let '(r, g') := random g in
  let n := Z.of_nat (length xs) in
  match xs !! Z.to_nat (Z.min (Qfloor (r * inject_Z n)) (n - 1)) with
  | Some x => Some (x, g')
  | None => None
  end.

(** ** Combat simulator *)

(** [class Monster]; [drop_table] is a nullable JSON object
    [{item_id: drop_chance}], kept as its entries in iteration order. *)
Record Monster := {
  monster_name : string;
  monster_level : Z;
  monster_health : Z;
  monster_damage : Z;
  monster_defense : Z;
  experience_reward : Z;
  baton_reward_min : Z;
  baton_reward_max : Z;
  drop_table : option (list (Z * Q))
}.

(** The lines appended to [battle_log], by kind, actor and amount. *)
Inductive event :=
| Critical (actor : string) (amount : Q)
| Strike (actor : string) (amount : Q)
| Dodges (actor : string)
| MonsterStrike (actor : string) (amount : Q)
| PetUses (actor ability : string) (damage heal : option Q).

(** The local variables of a combat loop.  [hp_a] is the health of the
    player who attacks first, [hp_b] the health of the monster or the
    opponent. *)
Record fight := {
  hp_a : Q;
  hp_b : Q;
  rounds : Z;
  battle_log : list event;
  gen : rng
}.

(** The dict every combat function returns, and the generator after it. *)
Record battle_result := {
  victory : bool;
  remaining_hp : Q;
  result_log : list event;
  result_rounds : Z;
  result_gen : rng
}.

(** [while hp_a > 0 and hp_b > 0 and rounds < 20] *)
Definition fighting (f : fight) : bool :=
  Qltb 0 (hp_a f) && Qltb 0 (hp_b f) && (rounds f <? 20).

(** [victory = player_hp > 0] and the returned dict. *)
Definition result_of (f : fight) : battle_result :=
  {| victory := Qltb 0 (hp_a f);
     remaining_hp := hp_a f;
     result_log := battle_log f;
     result_rounds := rounds f;
     result_gen := gen f |}.

(** [while guard: round], on any type of loop variables.  The combat
    loops run it with 20 units of fuel, which always suffice because of
    [rounds < 20] ([pve_loop_exits] and its siblings). *)
Fixpoint loop {S : Type} (guard : S -> bool) (round : S -> S)
    (fuel : nat) (s : S) : S :=
  match fuel with
  | O => s
  | S fuel' => if guard s then loop guard round fuel' (round s) else s
  end.

(** Rounds a fight can still take: the measure that ends the loops. *)
Definition rounds_left (f : fight) : nat := Z.to_nat (20 - rounds f).

(** *** Player against monster: [battle_calculation] *)

(** The body of the loop of [battle_calculation]. *)
Definition pve_round (player_stats : gmap string Q) (player_name : string)
    (monster : Monster) (f : fight) : fight :=
  (* the player's move *)
  let player_damage :=
    max1 (player_stats !!! "damage" - inject_Z (monster_defense monster / 2))%Q in
  let '(r, g) := random (gen f) in
  let crit_chance := Qltb r (player_stats !!! "critical_chance" / 100)%Q in
  let player_damage := if crit_chance then (player_damage * 2)%Q else player_damage in
  let log := battle_log f ++
    [if crit_chance then Critical player_name player_damage
     else Strike player_name player_damage] in
  let monster_hp := (hp_b f - player_damage)%Q in
  (* the monster's move *)
  if Qltb 0 monster_hp then
    let monster_damage :=
      max1 (inject_Z (monster_damage monster)
            - floordiv2 (player_stats !!! "defense"))%Q in
    let '(r, g) := random g in
    let dodge_chance := Qltb r (player_stats !!! "dodge_chance" / 100)%Q in
    if dodge_chance then
      {| hp_a := hp_a f; hp_b := monster_hp; rounds := rounds f + 1;
         battle_log := log ++ [Dodges player_name]; gen := g |}
    else
      {| hp_a := (hp_a f - monster_damage)%Q; hp_b := monster_hp;
         rounds := rounds f + 1;
         battle_log := log ++ [MonsterStrike (monster_name monster) monster_damage];
         gen := g |}
  else
    {| hp_a := hp_a f; hp_b := monster_hp; rounds := rounds f + 1;
       battle_log := log; gen := g |}.

(** The state before the first round. *)
Definition pve_start (player_stats : gmap string Q) (monster : Monster)
    (g : rng) : fight :=
  {| hp_a := player_stats !!! "health";
     hp_b := inject_Z (monster_health monster);
     rounds := 0; battle_log := []; gen := g |}.

(** The state in which the loop of [battle_calculation] exits. *)
Definition pve_exit (player : Player.t) (monster : Monster) (s : Session)
    (g : rng) : fight :=
  let player_stats := get_total_stats player s in
  loop fighting (pve_round player_stats (Player.name player) monster) 20
       (pve_start player_stats monster g).

(** [battle_calculation(player, monster, session)] *)
Definition battle_calculation (player : Player.t) (monster : Monster)
    (s : Session) (g : rng) : battle_result :=
  result_of (pve_exit player monster s g).

(** *** Player against player: the loop of [process_pvp_attack] *)

(** The body of the loop of [process_pvp_attack]. *)
Definition pvp_round (player_stats opponent_stats : gmap string Q)
    (player_name opponent_name : string) (f : fight) : fight :=
  (* the player's move *)
  let player_damage :=
    max1 (player_stats !!! "damage"
          - floordiv2 (opponent_stats !!! "defense"))%Q in
  let '(r, g) := random (gen f) in
  let crit_chance := Qltb r (player_stats !!! "critical_chance" / 100)%Q in
  let player_damage := if crit_chance then (player_damage * 2)%Q else player_damage in
  let log := battle_log f ++
    [if crit_chance then Critical player_name player_damage
     else Strike player_name player_damage] in
  let '(r, g) := random g in
  let dodge_chance := Qltb r (opponent_stats !!! "dodge_chance" / 100)%Q in
  let log := if dodge_chance then log ++ [Dodges opponent_name] else log in
  let opponent_hp := if dodge_chance then hp_b f else (hp_b f - player_damage)%Q in
  (* the opponent's move *)
  if Qltb 0 opponent_hp then
    let opponent_damage :=
      max1 (opponent_stats !!! "damage"
            - floordiv2 (player_stats !!! "defense"))%Q in
    let '(r, g) := random g in
    let crit_chance := Qltb r (opponent_stats !!! "critical_chance" / 100)%Q in
    let opponent_damage :=
      if crit_chance then (opponent_damage * 2)%Q else opponent_damage in
    let log := log ++
      [if crit_chance then Critical opponent_name opponent_damage
       else Strike opponent_name opponent_damage] in
    let '(r, g) := random g in
    let dodge_chance := Qltb r (player_stats !!! "dodge_chance" / 100)%Q in
    let log := if dodge_chance then log ++ [Dodges player_name] else log in
    let player_hp := if dodge_chance then hp_a f else (hp_a f - opponent_damage)%Q in
    {| hp_a := player_hp; hp_b := opponent_hp; rounds := rounds f + 1;
       battle_log := log; gen := g |}
  else
    {| hp_a := hp_a f; hp_b := opponent_hp; rounds := rounds f + 1;
       battle_log := log; gen := g |}.

Definition pvp_start (player_stats opponent_stats : gmap string Q)
    (g : rng) : fight :=
  {| hp_a := player_stats !!! "health";
     hp_b := opponent_stats !!! "health";
     rounds := 0; battle_log := []; gen := g |}.

(** The state in which the loop of [process_pvp_attack] exits. *)
Definition pvp_exit (player opponent : Player.t) (s : Session) (g : rng)
  : fight :=
  let player_stats := get_total_stats player s in
  let opponent_stats := get_total_stats opponent s in
  loop fighting (pvp_round player_stats opponent_stats
                  (Player.name player) (Player.name opponent)) 20
       (pvp_start player_stats opponent_stats g).

(** *** Companion-assisted fights: [DungeonPetEffect] and [dungeon_battle] *)

(** The dict [battle_state] of [dungeon_battle]. *)
Record battle_state := {
  player_hp : Q;
  player_max_hp : Q;
  monster_hp : Q;
  monster_max_hp : Q
}.

Module DungeonPetEffect.

Record t := mk {
  player_pet : PlayerPet.t;
  ability_cooldowns : gmap Z Z
}.

(** [__init__] *)
Definition init (player_pet : PlayerPet.t) : t := mk player_pet ∅.

(** [ability.required_evolution <= self.player_pet.pet.evolution_level] *)
Definition unlocked (self : t) (a : PetAbility) : bool :=
  ability_required_evolution a
    <=? evolution_level (PlayerPet.pet (player_pet self)).

(** [apply_passive_effects] *)
Definition apply_passive_effects (self : t) (player_stats : gmap string Q)
  : gmap string Q :=
  let pet_stats := PlayerPet.get_total_stats (player_pet self) in
  let fifth (x : Z) : Q := inject_Z (py_int (inject_Z x * (1 # 5))) in
  let player_stats :=
    dict_add "damage" (fifth (PlayerPet.damage pet_stats)) player_stats in
  let player_stats :=
    dict_add "defense" (fifth (PlayerPet.defense pet_stats)) player_stats in
  let player_stats :=
    dict_add "health" (fifth (PlayerPet.health pet_stats)) player_stats in
  fold_left
    (fun player_stats ability =>
       if String.eqb (ability_type ability) "passive" && unlocked self ability
       then fold_left add_if_present (ability_effect ability) player_stats
       else player_stats)
    (abilities (PlayerPet.pet (player_pet self))) player_stats.

(** The list comprehension [available_abilities]. *)
Definition available_abilities (self : t) : list PetAbility :=
  List.filter
    (fun ability =>
       String.eqb (ability_type ability) "combat"
       && unlocked self ability
       && (default 0 (ability_cooldowns self !! ability_id ability) <=? 0))
    (abilities (PlayerPet.pet (player_pet self))).

(** [self.player_pet.nickname or self.player_pet.pet.name] *)
Definition display_name (self : t) : string :=
  match PlayerPet.nickname (player_pet self) with
  | Some n => if String.eqb n "" then pet_name (PlayerPet.pet (player_pet self)) else n
  | None => pet_name (PlayerPet.pet (player_pet self))
  end.

(** [use_combat_ability]: the text (if any), the battle state, the
    effect object with its new cooldown, and the generator. *)
Definition use_combat_ability (self : t) (bs : battle_state) (g : rng)
  : option event * battle_state * t * rng :=
  match available_abilities self with
  | [] => (None, bs, self, g)
  | _ :: _ =>
      match choice (available_abilities self) g with
      | None => (None, bs, self, g)
      | Some (ability, g) =>
          let self :=
            mk (player_pet self)
               (<[ability_id ability := ability_cooldown ability]>
                  (ability_cooldowns self)) in
          let damage := assoc_find "damage" (ability_effect ability) in
          let bs :=
            match damage with
            | Some d =>
                {| player_hp := player_hp bs;
                   player_max_hp := player_max_hp bs;
                   monster_hp := (monster_hp bs - d)%Q;
                   monster_max_hp := monster_max_hp bs |}
            | None => bs
            end in
          let heal := assoc_find "heal" (ability_effect ability) in
          let bs :=
            match heal with
            | Some h =>
                {| player_hp := py_min (player_hp bs + h)%Q (player_max_hp bs);
                   player_max_hp := player_max_hp bs;
                   monster_hp := monster_hp bs;
                   monster_max_hp := monster_max_hp bs |}
            | None => bs
            end in
          (Some (PetUses (display_name self) (ability_name ability) damage heal),
           bs, self, g)
      end
  end.

(** [update_cooldowns] *)
Definition update_cooldowns (self : t) : t :=
  mk (player_pet self) ((fun c => Z.max 0 (c - 1)) <$> ability_cooldowns self).

End DungeonPetEffect.

(** The loop variables of [dungeon_battle]: those of every fight, the
    maxima recorded in [battle_state], and the companion's effect object. *)
Record dungeon_fight := {
  df_fight : fight;
  df_player_max_hp : Q;
  df_monster_max_hp : Q;
  df_pet : option DungeonPetEffect.t
}.

(** "The player's move" of the loop of [dungeon_battle]. *)
Definition dungeon_player_move (player_stats : gmap string Q)
    (player_name : string) (monster : Monster) (f : fight) : fight :=
  let player_damage :=
    max1 (player_stats !!! "damage" - inject_Z (monster_defense monster / 2))%Q in
  let '(r, g) := random (gen f) in
  let crit_chance := Qltb r (player_stats !!! "critical_chance" / 100)%Q in
  let player_damage := if crit_chance then (player_damage * 2)%Q else player_damage in
  {| hp_a := hp_a f; hp_b := (hp_b f - player_damage)%Q; rounds := rounds f;
     battle_log := battle_log f ++
       [if crit_chance then Critical player_name player_damage
        else Strike player_name player_damage];
     gen := g |}.

(** "The pet's move": [if pet_effect and battle_state['monster_hp'] > 0]. *)
Definition dungeon_pet_move (d : dungeon_fight) : dungeon_fight :=
  let f := df_fight d in
  match df_pet d with
  | Some pet_effect =>
      if Qltb 0 (hp_b f) then
        let bs := {| player_hp := hp_a f; player_max_hp := df_player_max_hp d;
                     monster_hp := hp_b f; monster_max_hp := df_monster_max_hp d |} in
        let '(pet_action, bs, pet_effect, g) :=
          DungeonPetEffect.use_combat_ability pet_effect bs (gen f) in
        {| df_fight :=
             {| hp_a := player_hp bs; hp_b := monster_hp bs; rounds := rounds f;
                battle_log :=
                  match pet_action with
                  | Some e => battle_log f ++ [e]
                  | None => battle_log f
                  end;
                gen := g |};
           df_player_max_hp := player_max_hp bs;
           df_monster_max_hp := monster_max_hp bs;
           df_pet := Some pet_effect |}
      else d
  | None => d
  end.

(** "The monster's move": [if battle_state['monster_hp'] > 0]. *)
Definition dungeon_monster_move (player_stats : gmap string Q)
    (player_name : string) (monster : Monster) (f : fight) : fight :=
  if Qltb 0 (hp_b f) then
    let monster_damage :=
      max1 (inject_Z (monster_damage monster)
            - floordiv2 (player_stats !!! "defense"))%Q in
    let '(r, g) := random (gen f) in
    let dodge_chance := Qltb r (player_stats !!! "dodge_chance" / 100)%Q in
    if dodge_chance then
      {| hp_a := hp_a f; hp_b := hp_b f; rounds := rounds f;
         battle_log := battle_log f ++ [Dodges player_name]; gen := g |}
    else
      {| hp_a := (hp_a f - monster_damage)%Q; hp_b := hp_b f; rounds := rounds f;
         battle_log := battle_log f ++
           [MonsterStrike (monster_name monster) monster_damage];
         gen := g |}
  else f.

(** The body of the loop of [dungeon_battle]: the three moves, the
    cooldown update, [rounds += 1]. *)
Definition dungeon_round (player_stats : gmap string Q) (player_name : string)
    (monster : Monster) (d : dungeon_fight) : dungeon_fight :=
  let d := {| df_fight := dungeon_player_move player_stats player_name monster
                            (df_fight d);
              df_player_max_hp := df_player_max_hp d;
              df_monster_max_hp := df_monster_max_hp d;
              df_pet := df_pet d |} in
  let d := dungeon_pet_move d in
  let f := dungeon_monster_move player_stats player_name monster (df_fight d) in
  {| df_fight := {| hp_a := hp_a f; hp_b := hp_b f; rounds := rounds f + 1;
                    battle_log := battle_log f; gen := gen f |};
     df_player_max_hp := df_player_max_hp d;
     df_monster_max_hp := df_monster_max_hp d;
     df_pet := DungeonPetEffect.update_cooldowns <$> df_pet d |}.

(** [filter_by(player_id=player.id, is_active=True).first()] *)
Definition active_pet (s : Session) (player : Player.t) : option PlayerPet.t :=
  List.find (fun pp => (PlayerPet.player_id pp =? Player.id player)
                       && PlayerPet.is_active pp)
            (player_pets s).

(** The stat block [dungeon_battle] fights with. *)
Definition dungeon_stats (player : Player.t) (s : Session) : gmap string Q :=
  let player_stats := get_total_stats player s in
  match DungeonPetEffect.init <$> active_pet s player with
  | Some pet_effect => DungeonPetEffect.apply_passive_effects pet_effect player_stats
  | None => player_stats
  end.

Definition dungeon_start (player : Player.t) (monster : Monster) (s : Session)
    (g : rng) : dungeon_fight :=
  let player_stats := dungeon_stats player s in
  {| df_fight := {| hp_a := player_stats !!! "health";
                    hp_b := inject_Z (monster_health monster);
                    rounds := 0; battle_log := []; gen := g |};
     df_player_max_hp := player_stats !!! "health";
     df_monster_max_hp := inject_Z (monster_health monster);
     df_pet := DungeonPetEffect.init <$> active_pet s player |}.

(** The state in which the loop of [dungeon_battle] exits. *)
Definition dungeon_exit (player : Player.t) (monster : Monster) (s : Session)
    (g : rng) : dungeon_fight :=
  loop (fun d => fighting (df_fight d))
       (dungeon_round (dungeon_stats player s) (Player.name player) monster) 20
       (dungeon_start player monster s g).

(** [dungeon_battle(player, monster, session)] *)
Definition dungeon_battle (player : Player.t) (monster : Monster)
    (s : Session) (g : rng) : battle_result :=
  result_of (df_fight (dungeon_exit player monster s g)).

(** ** What a handler leaves behind *)

(** The objects of the session after the handler returned, whether it
    reached [session.commit()], and what it answered. *)
Record handled (W R : Type) := Handled {
  after : W;
  committed : bool;
  reply : R
}.
Arguments Handled {W R} _ _ _.
Arguments after {W R} _.
Arguments committed {W R} _.
Arguments reply {W R} _.

(** The rows of the data base once the handler has returned.  Every
    handler opens a session of its own ([session = Session()]) and
    mutates the objects loaded into it; [session.commit()] writes them,
    and a handler that returns before it leaves the rows as they were,
    its session being dropped with the changes in it. *)
Definition stored {W R : Type} (before : W) (h : handled W R) : W :=
  if committed h then after h else before.

(** ** Reward settlement: [process_battle_rewards] *)

(** The dict [process_battle_rewards] returns. *)
Record rewards := {
  rw_experience : Z;
  rw_batons : Z;
  rw_level_up : bool;
  dropped_items : list string
}.

(** One turn of [for item_id, chance in monster.drop_table.items()]:
    the rows added to the session, the names dropped, the generator. *)
Definition drop_step (s : Session) (player : Player.t)
    (acc : list Inventory * list string * rng) (entry : Z * Q)
  : list Inventory * list string * rng :=
  let '(added, dropped, g) := acc in
  let '(item_id, chance) := entry in
  let '(r, g) := random g in
  if Qltb r chance then
    match items s !! item_id with
    | Some item =>
        (added ++ [{| inv_player_id := Player.id player;
                      inv_item_id := item_id; quantity := 1 |}],
         dropped ++ [item_name item], g)
    | None => (added, dropped, g)
    end
  else (added, dropped, g).

(** The session with other inventory rows. *)
Definition set_inventory (s : Session) (inv : list Inventory) : Session :=
  {| items := items s; equipment := equipment s; buffs := buffs s;
     inventory := inv; player_pets := player_pets s; now := now s |}.

(** [process_battle_rewards(player, monster, session)]: the player and
    the session after the commit, the returned dict and the generator;
    [None] when [random.randint] raises. *)
Definition process_battle_rewards (player : Player.t) (monster : Monster)
    (s : Session) (g : rng)
  : option (Player.t * Session * rewards * rng) :=
  let exp_reward := experience_reward monster in
  match randint (baton_reward_min monster) (baton_reward_max monster) g with
  | None => None
  | Some (baton_reward, g) =>
      let '(player, level_up) := Player.add_experience player exp_reward in
      let player := Player.set_batons player (Player.batons player + baton_reward) in
      let '(added, dropped, g) :=
        match drop_table monster with
        | Some entries => fold_left (drop_step s player) entries ([], [], g)
        | None => ([], [], g)
        end in
      Some (player, set_inventory s (inventory s ++ added),
            {| rw_experience := exp_reward; rw_batons := baton_reward;
               rw_level_up := level_up; dropped_items := dropped |},
            g)
  end.

(** ** Player against player: [process_pvp_attack] *)

Record pvp_world := {
  pw_player : Player.t;
  pw_opponent : Player.t
}.

Inductive pvp_reply :=
| PvpNoEnergy
| PvpVictory (log : list event) (reward_batons reward_exp rating_diff : Z)
             (level_up : bool)
| PvpDefeat (log : list event) (rating_diff : Z).

Section PvP.

(** [calculate_rating_change(winner_rating, loser_rating, is_winner)]:
    the Elo formula raises 10 to a real power, which exact rational
    arithmetic does not cover; the function is a parameter here. *)
Variable calculate_rating_change : Z -> Z -> bool -> Z.

(** [process_pvp_attack], on the player and the opponent the session
    loaded (the opponent row exists). *)
Definition process_pvp_attack (w : pvp_world) (s : Session) (g : rng)
  : handled pvp_world pvp_reply * rng :=
  let player := pw_player w in
  let opponent := pw_opponent w in
  if Player.energy player <? 20 then (Handled w false PvpNoEnergy, g)
  else
    let player := Player.set_energy player (Player.energy player - 20) in
    let f := pvp_exit player opponent s g in
    let g := gen f in
    let victory := Qltb 0 (hp_a f) in
    if victory then
      let rating_diff :=
        calculate_rating_change (Player.pvp_rating player)
                                (Player.pvp_rating opponent) true in
      let player :=
        Player.set_pvp player (Player.pvp_rating player + rating_diff)
                       (Player.wins player + 1) (Player.losses player) in
      let opponent :=
        Player.set_pvp opponent (Player.pvp_rating opponent - rating_diff)
                       (Player.wins opponent) (Player.losses opponent + 1) in
      (* 50 <= 100 and 100 <= 200: [randint] does not raise *)
      let '(reward_batons, g) := randint_draw 50 100 g in
      let '(reward_exp, g) := randint_draw 100 200 g in
      let player :=
        Player.set_batons player (Player.batons player + reward_batons) in
      let '(player, level_up) := Player.add_experience player reward_exp in
      (Handled {| pw_player := player; pw_opponent := opponent |} true
               (PvpVictory (battle_log f) reward_batons reward_exp
                           rating_diff level_up), g)
    else
      let rating_diff :=
        calculate_rating_change (Player.pvp_rating player)
                                (Player.pvp_rating opponent) false in
      let player :=
        Player.set_pvp player (Player.pvp_rating player - rating_diff)
                       (Player.wins player) (Player.losses player + 1) in
      let opponent :=
        Player.set_pvp opponent (Player.pvp_rating opponent + rating_diff)
                       (Player.wins opponent + 1) (Player.losses opponent) in
      (Handled {| pw_player := player; pw_opponent := opponent |} true
               (PvpDefeat (battle_log f) rating_diff), g).

End PvP.

(** ** Dungeon run: [process_dungeon_selection] *)

(** [class Dungeon]: [cooldown] in hours, [completion_time] in minutes. *)
Record Dungeon := {
  dungeon_name : string;
  min_level : Z;
  monster_groups : list (list (Z * Z));
  boss_id : option Z;
  completion_time : Z;
  energy_cost : Z;
  cooldown : Z
}.

(** The JSON object in [DungeonProgress.current_progress]. *)
Record run_progress := {
  current_room : Z;
  monsters_defeated : Z;
  hp_remaining : Z;
  start_time : Z
}.

(** [class DungeonProgress]; times are seconds on the clock. *)
Record DungeonProgress := {
  dp_player_id : Z;
  dp_dungeon_id : Z;
  completed_times : Z;
  best_time : option Z;
  last_attempt : option Z;
  current_progress : option run_progress
}.

(** What [process_dungeon_selection] loads: the player, the dungeon with
    the selected id (if any) and the player's progress row for it (if
    any). *)
Record entry_world := {
  ew_player : Player.t;
  ew_dungeon : option Dungeon;
  ew_progress : option DungeonProgress
}.

Inductive entry_reply :=
| DungeonNotFound
| StillOnCooldown (hours minutes : Z)
| NeedsEnergy (cost have : Z)
| Entered.

(** [progress.last_attempt + timedelta(hours=dungeon.cooldown)] of a
    progress row that exists and records an attempt. *)
Definition cooldown_end (dungeon : Dungeon) (progress : option DungeonProgress)
  : option Z :=
  match progress with
  | Some p =>
      match last_attempt p with
      | Some t => Some (t + cooldown dungeon * 3600)
      | None => None
      end
  | None => None
  end.

(** [process_dungeon_selection], with [dungeon_id] the id parsed from the
    callback data and [utcnow] the clock. *)
Definition process_dungeon_selection (dungeon_id : Z) (w : entry_world)
    (utcnow : Z) : handled entry_world entry_reply :=
  let player := ew_player w in
  match ew_dungeon w with
  | None => Handled w false DungeonNotFound
  | Some dungeon =>
      let progress := ew_progress w in
      let on_cooldown :=
        match cooldown_end dungeon progress with
        | Some cooldown_end => utcnow <? cooldown_end
        | None => false
        end in
      if on_cooldown then
        let time_left := default 0 (cooldown_end dungeon progress) - utcnow in
        Handled w false
                (StillOnCooldown (time_left / 3600) (time_left mod 3600 / 60))
      else if Player.energy player <? energy_cost dungeon then
        Handled w false (NeedsEnergy (energy_cost dungeon) (Player.energy player))
      else
        let player :=
          Player.set_energy player (Player.energy player - energy_cost dungeon) in
        let progress :=
          match progress with
          | Some p => p
          | None => {| dp_player_id := Player.id player;
                       dp_dungeon_id := dungeon_id;
                       completed_times := 0; best_time := None;
                       last_attempt := None; current_progress := None |}
          end in
        let progress :=
          {| dp_player_id := dp_player_id progress;
             dp_dungeon_id := dp_dungeon_id progress;
             completed_times := completed_times progress;
             best_time := best_time progress;
             last_attempt := Some utcnow;
             current_progress :=
               Some {| current_room := 0; monsters_defeated := 0;
                       hp_remaining := Player.health player;
                       start_time := utcnow |} |} in
        Handled {| ew_player := player; ew_dungeon := Some dungeon;
                   ew_progress := Some progress |} true Entered
  end.

(** ** Crafting: [create_item] *)

(** [class Recipe]; [materials] is the JSON object [{item_id: quantity}]
    as its entries in iteration order. *)
Record Recipe := {
  result_item_id : Z;
  result_quantity : Z;
  recipe_energy_cost : Z;
  materials : list (Z * Z);
  recipe_experience : Z
}.

(** What [create_item] loads and mutates: the player and the inventory
    rows. *)
Record craft_world := {
  cw_player : Player.t;
  cw_inventory : list Inventory
}.

Inductive craft_reply :=
| CraftNoEnergy
| CraftNoMaterials
| Crafted.

(** [filter_by(player_id=..., item_id=...)] *)
Definition row_of (player_id item_id : Z) (row : Inventory) : bool :=
  (inv_player_id row =? player_id) && (inv_item_id row =? item_id).

(** [session.query(Inventory).filter_by(...).first()] *)
Definition find_row (player_id item_id : Z) (inv : list Inventory)
  : option Inventory :=
  List.find (row_of player_id item_id) inv.

(** The inventory after [row.quantity += delta] on the first row of the
    item, the row being deleted when [delete_empty] is set and its
    quantity reaches 0. *)
Fixpoint change_row (player_id item_id delta : Z) (delete_empty : bool)
    (inv : list Inventory) : list Inventory :=
  match inv with
  | [] => []
  | row :: rest =>
      if row_of player_id item_id row then
        if delete_empty && (quantity row + delta =? 0) then rest
        else {| inv_player_id := inv_player_id row;
                inv_item_id := inv_item_id row;
                quantity := quantity row + delta |} :: rest
      else row :: change_row player_id item_id delta delete_empty rest
  end.

(** [for material_id, required_qty in recipe.materials.items()]: each
    material is tested and, if present in sufficient quantity, consumed
    before the next one is looked at.  Returns the inventory as the loop
    left it and whether the loop ran to its end. *)
Fixpoint consume_materials (player_id : Z) (mats : list (Z * Z))
    (inv : list Inventory) : list Inventory * bool :=
  match mats with
  | [] => (inv, true)
  | (material_id, required_qty) :: rest =>
      match find_row player_id material_id inv with
      | Some inventory_item =>
          if quantity inventory_item <? required_qty then (inv, false)
          else consume_materials player_id rest
                 (change_row player_id material_id (- required_qty) true inv)
      | None => (inv, false)
      end
  end.

Section Crafting.

(** [get_next_crafting_level_exp] is called by [create_item] and
    defined nowhere in the repository: a parameter, with the number of
    iterations its loop is followed for. *)
Variable get_next_crafting_level_exp : Z -> Z.
Variable crafting_fuel : nat.

(** [while player.crafting_experience >=
           get_next_crafting_level_exp(player.crafting_level):
        player.crafting_level += 1]:
    the level at which the loop ends, [None] when it has not ended
    within [fuel] tests of its condition. *)
Fixpoint crafting_level_loop (fuel : nat) (lvl xp : Z) : option Z :=
  match fuel with
  | O => None
  | S fuel' =>
      if get_next_crafting_level_exp lvl <=? xp
      then crafting_level_loop fuel' (lvl + 1) xp
      else Some lvl
  end.

(** [create_item], for the recipe the callback names (the recipe row
    exists): [None] when the level loop has not ended within the fuel,
    the handler being then still in its loop. *)
Definition create_item (recipe : Recipe) (w : craft_world)
  : option (handled craft_world craft_reply) :=
  let player := cw_player w in
  if Player.energy player <? recipe_energy_cost recipe then
    Some (Handled w false CraftNoEnergy)
  else
    match consume_materials (Player.id player) (materials recipe)
                            (cw_inventory w) with
    | (inv, false) =>
        Some (Handled {| cw_player := player; cw_inventory := inv |} false
                      CraftNoMaterials)
    | (inv, true) =>
        let inv :=
          match find_row (Player.id player) (result_item_id recipe) inv with
          | Some _ =>
              change_row (Player.id player) (result_item_id recipe)
                         (result_quantity recipe) false inv
          | None =>
              inv ++ [{| inv_player_id := Player.id player;
                         inv_item_id := result_item_id recipe;
                         quantity := result_quantity recipe |}]
          end in
        let player :=
          Player.set_energy player
            (Player.energy player - recipe_energy_cost recipe) in
        let xp := Player.crafting_experience player + recipe_experience recipe in
        match crafting_level_loop crafting_fuel (Player.crafting_level player) xp with
        | None => None
        | Some lvl =>
            let player := Player.set_crafting player lvl xp in
            Some (Handled {| cw_player := player; cw_inventory := inv |} true
                          Crafted)
        end
    end.

End Crafting.

(** ** The combat rules in the specification's words *)

(** Specification 4.2, step 1, with the half of the defense floored as
    the code floors it ([// 2]): the attacker deals
    [max(1, attacker.damage - floor(defender.defense / 2))], doubled on
    a critical hit. *)
Definition spec_damage (attacker_damage defender_defense : Q) (critical : bool)
  : Q :=
  let d := Qmax 1 (attacker_damage - inject_Z (Qfloor (defender_defense / 2))) in
  if critical then (2 * d)%Q else d.


(** Specification 4.2, steps 1 and 2, for one attack: the critical hit
    triggers when the attacker's draw falls below [critical_chance/100],
    the dodge when the defender's draw falls below [dodge_chance/100]; a
    dodged attack leaves the defender's health as it was. *)
Definition spec_attack (attacker defender : gmap string Q)
    (crit_draw dodge_draw : Q) (defender_hp : Q) : Q :=
  let critical := Qltb crit_draw (attacker !!! "critical_chance" / 100) in
  let dodged := Qltb dodge_draw (defender !!! "dodge_chance" / 100) in
  if dodged then defender_hp
  else (defender_hp
        - spec_damage (attacker !!! "damage") (defender !!! "defense") critical)%Q.


(** The verdict [process_pvp_attack] announces. *)
Definition announces_victory (r : pvp_reply) : bool :=
  match r with
  | PvpVictory _ _ _ _ _ => true
  | _ => false
  end.

(** A companion none of whose abilities carries a negative ["heal"]. *)
Definition heals_nonneg (pp : PlayerPet.t) : Prop :=
  forall a h, In a (abilities (PlayerPet.pet pp)) ->
              assoc_find "heal" (ability_effect a) = Some h -> (0 <= h)%Q.

(** What the loop of [dungeon_battle] maintains: one side is alive, the
    player's health is within the recorded maximum, and the companion is
    one whose heals are not negative. *)
Definition dungeon_invariant (d : dungeon_fight) : Prop :=
  ((0 < hp_a (df_fight d))%Q \/ (0 < hp_b (df_fight d))%Q) /\
  (hp_a (df_fight d) <= df_player_max_hp d)%Q /\
  (forall pe, df_pet d = Some pe ->
              heals_nonneg (DungeonPetEffect.player_pet pe)).

(** The specification's reading of one drop-table entry: a trial of its
    own, which succeeds when the entry's draw falls below the listed
    probability, and then yields the item if the item table has it. *)
Definition trial (s : Session) (r : Q) (entry : Z * Q) : option (Z * Item) :=
  if Qltb r (snd entry)
  then (fun item => (fst entry, item)) <$> items s !! fst entry
  else None.

(** The trials of a drop table, the [k]-th entry reading the draw
    [i + k] of the generator. *)
Fixpoint trials (s : Session) (g : rng) (i : nat) (entries : list (Z * Q))
  : list (Z * Item) :=
  match entries with
  | [] => []
  | entry :: rest =>
      match trial s (draw g i) entry with
      | Some won => won :: trials s g (S i) rest
      | None => trials s g (S i) rest
      end
  end.

(** The inventory row [drop_step] adds for a won item. *)
Definition dropped_row (player : Player.t) (won : Z * Item) : Inventory :=
  {| inv_player_id := Player.id player; inv_item_id := fst won; quantity := 1 |}.

(** ** Sample data *)

(** A freshly created player: the column defaults of [class Player]. *)
Definition novice : Player.t :=
  Player.mk 1 "novice" 1 0 100 10 10 10 10 100 100 100 100 1000 0 0 1 0.

(** A second player with the same defaults. *)
Definition rival : Player.t :=
  Player.mk 2 "rival" 1 0 100 10 10 10 10 100 100 100 100 1000 0 0 1 0.

(** A monster with much health and a weak attack. *)
Definition training_dummy : Monster :=
  {| monster_name := "dummy"; monster_level := 1; monster_health := 1000;
     monster_damage := 1; monster_defense := 0; experience_reward := 10;
     baton_reward_min := 1; baton_reward_max := 5; drop_table := None |}.

(** A monster with an attack of 10 and an odd defense. *)
Definition ogre : Monster :=
  {| monster_name := "ogre"; monster_level := 2; monster_health := 100;
     monster_damage := 10; monster_defense := 5; experience_reward := 40;
     baton_reward_min := 5; baton_reward_max := 9; drop_table := None |}.

(** A session with no items, equipment, buffs, inventory or companions. *)
Definition empty_session : Session :=
  {| items := ∅; equipment := ∅; buffs := []; inventory := [];
     player_pets := []; now := 0 |}.

(** A generator whose every draw is one half. *)
Definition steady : rng := {| draws := fun _ => 1 # 2; cursor := 0 |}.

(** Two items, and a monster that always drops both, lists an item the
    item table does not have (3) and one it never drops (4). *)
Definition fang : Item :=
  {| item_name := "fang"; strength_bonus := 0; agility_bonus := 0;
     intelligence_bonus := 0; vitality_bonus := 0; health_bonus := 0;
     energy_bonus := 0; damage_bonus := 3; defense_bonus := 0 |}.

Definition pelt : Item :=
  {| item_name := "pelt"; strength_bonus := 0; agility_bonus := 0;
     intelligence_bonus := 0; vitality_bonus := 1; health_bonus := 0;
     energy_bonus := 0; damage_bonus := 0; defense_bonus := 2 |}.

Definition loot_session : Session :=
  {| items := <[1 := fang]> (<[2 := pelt]> (<[4 := pelt]> ∅));
     equipment := ∅; buffs := [];
     inventory := []; player_pets := []; now := 0 |}.

Definition wolf : Monster :=
  {| monster_name := "wolf"; monster_level := 1; monster_health := 30;
     monster_damage := 8; monster_defense := 2; experience_reward := 25;
     baton_reward_min := 3; baton_reward_max := 7;
     drop_table := Some [(1, 1%Q); (2, 1%Q); (3, 1%Q); (4, 0%Q)] |}.

(** Two players who hit each other for 1 a round. *)
Definition tortoise : Player.t :=
  Player.mk 3 "tortoise" 1 0 100 1 10 10 10 100 100 100 100 1000 0 0 1 0.

Definition snail : Player.t :=
  Player.mk 4 "snail" 1 0 100 1 10 10 10 100 100 100 100 1000 0 0 1 0.

(** The novice's active companion, with one combat ability that hurts
    the monster and heals the player. *)
Definition sprite : PlayerPet.t :=
  PlayerPet.mk 1 None 1 0 100 0 true []
    {| pet_name := "sprite"; base_damage := 10; base_defense := 5;
       base_health := 20; evolution_level := 1;
       abilities :=
         [{| ability_id := 1; ability_name := "mend"; ability_type := "combat";
             ability_effect := [("damage", 5%Q); ("heal", 3%Q)];
             ability_cooldown := 2; ability_required_evolution := 1 |}] |}.

Definition pet_session : Session :=
  {| items := ∅; equipment := ∅; buffs := []; inventory := [];
     player_pets := [sprite]; now := 0 |}.

(** A dungeon with a cooldown of 2 hours and an entry cost of 30. *)
Definition crypt : Dungeon :=
  {| dungeon_name := "crypt"; min_level := 1; monster_groups := [[(1, 2)]];
     boss_id := None; completion_time := 30; energy_cost := 30; cooldown := 2 |}.

(** The novice before the crypt: never been there, and after an attempt
    at second 1000. *)
Definition first_visit : entry_world :=
  {| ew_player := novice; ew_dungeon := Some crypt; ew_progress := None |}.

Definition recent_visit : entry_world :=
  {| ew_player := novice; ew_dungeon := Some crypt;
     ew_progress :=
       Some {| dp_player_id := 1; dp_dungeon_id := 7; completed_times := 0;
               best_time := None; last_attempt := Some 1000;
               current_progress := None |} |}.

(** A recipe of two materials, and a player who owns the first only. *)
Definition blade_recipe : Recipe :=
  {| result_item_id := 9; result_quantity := 1; recipe_energy_cost := 5;
     materials := [(1, 1); (2, 1)]; recipe_experience := 10 |}.

Definition half_stocked : craft_world :=
  {| cw_player := novice;
     cw_inventory := [{| inv_player_id := 1; inv_item_id := 1; quantity := 1 |}] |}.

(** * Further parts of the bot *)

(** ** Utility functions *)

(** [format_time(seconds)] of [utils/__init__.py]: the hours, minutes
    and seconds its f-string shows. *)
Definition format_time (seconds : Z) : Z * Z * Z :=
  let minutes := seconds / 60 in
  let hours := minutes / 60 in
  (hours, minutes mod 60, seconds mod 60).

(** The unit letter that follows a number in [format_duration]. *)
Inductive time_unit := Hours | Minutes | Seconds.

(** The seconds one unit stands for. *)
Definition unit_seconds (u : time_unit) : Z :=
  match u with Hours => 3600 | Minutes => 60 | Seconds => 1 end.

(** [format_duration(seconds)]: the list [parts] before it is joined. *)
Definition format_duration (seconds : Z) : list (Z * time_unit) :=
  let '(minutes, seconds) := (seconds / 60, seconds mod 60) in
  let '(hours, minutes) := (minutes / 60, minutes mod 60) in
  let parts := [] in
  let parts := if 0 <? hours then parts ++ [(hours, Hours)] else parts in
  let parts := if 0 <? minutes then parts ++ [(minutes, Minutes)] else parts in
  let parts :=
    if (0 <? seconds) || bool_decide (parts = [])
    then parts ++ [(seconds, Seconds)] else parts in
  parts.

(** The seconds a list of parts adds up to. *)
Definition parts_seconds (parts : list (Z * time_unit)) : Z :=
  foldr (fun p acc => fst p * unit_seconds (snd p) + acc) 0 parts.

(** [calculate_damage(base_damage, level, buffs)], the same in both
    files: [damage = base_damage * (1 + level * 0.1)], then
    [damage *= (1 + buffs.get('damage_multiplier', 0))] under
    [if buffs:], which skips [None] and the empty dict alike, and
    [int(damage)]; every operation rounds to binary64. *)
Definition calculate_damage (base_damage level : Z)
    (buffs : option (list (string * Q))) : Z :=
  let damage :=
    float_mul (fl (inject_Z base_damage))
              (float_add 1 (float_mul (fl (inject_Z level)) (fl (1 # 10)))) in
  let damage :=
    match buffs with
    | Some (e :: b) =>
        float_mul damage
          (float_add 1 (fl (default 0%Q (assoc_find "damage_multiplier" (e :: b)))))
    | _ => damage
    end in
  py_int damage.

(** [get_time_diff(last_time)], with [now] the constant [CURRENT_DATE]
    of the configuration, which the repository does not contain. *)
Definition get_time_diff (now last_time : Z) : Z :=
  py_int (inject_Z (now - last_time)).

(** [calculate_energy_restore]: [ENERGY_REGEN_RATE = 1] a minute. *)
Definition calculate_energy_restore (now last_restore : Z) : Z :=
  let seconds_passed := get_time_diff now last_restore in
  py_int (inject_Z seconds_passed * (1 / 60))%Q.

(** [calculate_health_restore]: [HEALTH_REGEN_RATE = 5] a minute. *)
Definition calculate_health_restore (now last_restore : Z) : Z :=
  let seconds_passed := get_time_diff now last_restore in
  py_int (inject_Z seconds_passed * (5 / 60))%Q.

(** ** Regeneration *)

(** [self.health = h] *)
Definition set_health (self : Player.t) (h : Z) : Player.t :=
  Player.mk (Player.id self) (Player.name self) (Player.level self)
    (Player.experience self) (Player.batons self) (Player.strength self)
    (Player.agility self) (Player.intelligence self) (Player.vitality self)
    (Player.energy self) (Player.max_energy self) h (Player.max_health self)
    (Player.pvp_rating self) (Player.wins self) (Player.losses self)
    (Player.crafting_level self) (Player.crafting_experience self).

(** [Player.regenerate_energy], with the column [last_energy_regen]
    passed and returned beside the player and [utcnow] the clock. *)
Definition regenerate_energy (self : Player.t) (last_energy_regen : option Z)
    (utcnow : Z) : Player.t * option Z :=
  match last_energy_regen with
  | Some last =>
      let minutes_passed := (inject_Z (utcnow - last) / 60)%Q in
      let energy_gain := py_int (minutes_passed * 1)%Q in
      if 0 <? energy_gain then
        (Player.set_energy self
           (Z.min (Player.max_energy self) (Player.energy self + energy_gain)),
         Some utcnow)
      else (self, last_energy_regen)
  | None => (self, last_energy_regen)
  end.

(** [Player.regenerate_health], likewise. *)
Definition regenerate_health (self : Player.t) (last_health_regen : option Z)
    (utcnow : Z) : Player.t * option Z :=
  match last_health_regen with
  | Some last =>
      let minutes_passed := (inject_Z (utcnow - last) / 60)%Q in
      let health_gain := py_int (minutes_passed * 5)%Q in
      if 0 <? health_gain then
        (set_health self
           (Z.min (Player.max_health self) (Player.health self + health_gain)),
         Some utcnow)
      else (self, last_health_regen)
  | None => (self, last_health_regen)
  end.

(** ** PvP ranks *)

(** An entry of [PVP_RANKS]. *)
Record rank := { rank_name : string; min_rating : Z; max_rating : Z }.

Definition PVP_RANKS : list rank :=
  [ {| rank_name := "Новичок"; min_rating := 0; max_rating := 1199 |};
    {| rank_name := "Боец"; min_rating := 1200; max_rating := 1499 |};
    {| rank_name := "Ветеран"; min_rating := 1500; max_rating := 1799 |};
    {| rank_name := "Мастер"; min_rating := 1800; max_rating := 2099 |};
    {| rank_name := "Гроссмейстер"; min_rating := 2100; max_rating := 2399 |};
    {| rank_name := "Чемпион"; min_rating := 2400; max_rating := 2699 |};
    {| rank_name := "Легенда"; min_rating := 2700; max_rating := 999999 |} ].

(** [get_player_rank(rating)]: the first rank whose range holds the
    rating, the first rank of the table if none does. *)
Definition get_player_rank (rating : Z) : option rank :=
  match List.find (fun r => (min_rating r <=? rating) && (rating <=? max_rating r))
                  PVP_RANKS with
  | Some r => Some r
  | None => PVP_RANKS !! 0%nat
  end.

(** ** Companions *)

(** [self.level, self.experience = lvl, xp] on a companion. *)
Definition pet_set_progress (self : PlayerPet.t) (lvl xp : Z) : PlayerPet.t :=
  PlayerPet.mk (PlayerPet.player_id self) (PlayerPet.nickname self) lvl xp
    (PlayerPet.happiness self) (PlayerPet.hunger self)
    (PlayerPet.is_active self) (PlayerPet.bonus_stats self) (PlayerPet.pet self).

(** [self.hunger, self.happiness = hunger, happiness] *)
Definition pet_set_mood (self : PlayerPet.t) (hunger happiness : Z) : PlayerPet.t :=
  PlayerPet.mk (PlayerPet.player_id self) (PlayerPet.nickname self)
    (PlayerPet.level self) (PlayerPet.experience self) happiness hunger
    (PlayerPet.is_active self) (PlayerPet.bonus_stats self) (PlayerPet.pet self).

(** [self.is_active = b] *)
Definition pet_set_active (self : PlayerPet.t) (b : bool) : PlayerPet.t :=
  PlayerPet.mk (PlayerPet.player_id self) (PlayerPet.nickname self)
    (PlayerPet.level self) (PlayerPet.experience self)
    (PlayerPet.happiness self) (PlayerPet.hunger self) b
    (PlayerPet.bonus_stats self) (PlayerPet.pet self).

(** [self.bonus_stats = d] *)
Definition pet_set_bonus_stats (self : PlayerPet.t) (d : list (string * Q))
  : PlayerPet.t :=
  PlayerPet.mk (PlayerPet.player_id self) (PlayerPet.nickname self)
    (PlayerPet.level self) (PlayerPet.experience self)
    (PlayerPet.happiness self) (PlayerPet.hunger self)
    (PlayerPet.is_active self) d (PlayerPet.pet self).


(** The loop of [PlayerPet.add_experience]:
    [while self.experience >= self.get_next_level_exp(): self.level += 1]. *)
Fixpoint pet_level_loop (fuel : nat) (self : PlayerPet.t) (level_up : bool)
  : PlayerPet.t * bool :=
  match fuel with
  | O => (self, level_up)
  | S fuel' =>
      if PlayerPet.get_next_level_exp self <=? PlayerPet.experience self
      then pet_level_loop fuel'
             (pet_set_progress self (PlayerPet.level self + 1)
                               (PlayerPet.experience self)) true
      else (self, level_up)
  end.

(** [PlayerPet.add_experience(self, amount) -> bool]; the fuel is enough
    for the same reason as the player's. *)
Definition PlayerPet_add_experience (self : PlayerPet.t) (amount : Z)
  : PlayerPet.t * bool :=
  let self := pet_set_progress self (PlayerPet.level self)
                               (PlayerPet.experience self + amount) in
  pet_level_loop
    (Z.to_nat (PlayerPet.experience self - PlayerPet.level self + 1)) self false.

(** [PlayerPet.update_status(self)], with the column [last_fed] and the
    clock passed in. *)
Definition PlayerPet_update_status (self : PlayerPet.t) (last_fed utcnow : Z)
  : PlayerPet.t :=
  let hours_since_fed := (inject_Z (utcnow - last_fed) / 3600)%Q in
  let hunger := Z.min 100 (PlayerPet.hunger self + py_int (hours_since_fed * 5)%Q) in
  if 50 <? hunger then
    let happiness_loss := py_int (inject_Z (hunger - 50) * (1 # 2))%Q in
    pet_set_mood self hunger (Z.max 0 (PlayerPet.happiness self - happiness_loss))
  else pet_set_mood self hunger (PlayerPet.happiness self).

(** What the companion handlers load: the player, the companion with the
    given id (the row exists) and its column [last_fed]. *)
Record pet_world := {
  pt_player : Player.t;
  pt_pet : PlayerPet.t;
  pt_last_fed : Z
}.

Inductive feed_reply := FeedNoBatons | Fed.

(** [feed_pet] *)
Definition feed_pet (w : pet_world) (utcnow : Z) : handled pet_world feed_reply :=
  let player := pt_player w in
  let player_pet := pt_pet w in
  if Player.batons player <? 10 then Handled w false FeedNoBatons
  else
    let player := Player.set_batons player (Player.batons player - 10) in
    let player_pet :=
      pet_set_mood player_pet
        (Z.max 0 (PlayerPet.hunger player_pet - 50))
        (Z.min 100 (PlayerPet.happiness player_pet + 20)) in
    Handled {| pt_player := player; pt_pet := player_pet; pt_last_fed := utcnow |}
            true Fed.

(** [d[k] = v] on a JSON object kept as the list of its entries: the
    entry keeps its place, a new key goes to the end. *)
Fixpoint assoc_set (k : string) (v : Q) (l : list (string * Q))
  : list (string * Q) :=
  match l with
  | [] => [(k, v)]
  | (k', v') :: l' =>
      if String.eqb k' k then (k', v) :: l' else (k', v') :: assoc_set k v l'
  end.

Inductive train_reply :=
| TrainNoBatons
| Trained (gain : Z) (level_up : bool).

(** [train_pet_stat], with [stat] and [cost] as parsed from the callback
    data. *)
Definition train_pet_stat (stat : string) (cost : Z) (w : pet_world) (g : rng)
  : handled pet_world train_reply * rng :=
  let player := pt_player w in
  let player_pet := pt_pet w in
  if Player.batons player <? cost then (Handled w false TrainNoBatons, g)
  else
    let player := Player.set_batons player (Player.batons player - cost) in
    let current_bonus :=
      default 0%Q (assoc_find stat (PlayerPet.bonus_stats player_pet)) in
    (* 1 <= 3 and 10 <= 20: [randint] does not raise *)
    let '(gain, g) := randint_draw 1 3 g in
    let gain :=
      if PlayerPet.happiness player_pet <? 50 then Z.max 1 (gain / 2) else gain in
    let player_pet :=
      pet_set_bonus_stats player_pet
        (assoc_set stat (current_bonus + inject_Z gain)%Q
                   (PlayerPet.bonus_stats player_pet)) in
    let '(exp, g) := randint_draw 10 20 g in
    let '(player_pet, level_up) := PlayerPet_add_experience player_pet exp in
    (Handled {| pt_player := player; pt_pet := player_pet;
                pt_last_fed := pt_last_fed w |} true (Trained gain level_up), g).



Inductive toggle_reply := PetNotFound | PetToggled (now_active : bool).

(** [toggle_pet] on the table of companions, the primary key of a row
    being its position. *)
Definition toggle_pet (pet_id : nat) (pets : list PlayerPet.t)
  : handled (list PlayerPet.t) toggle_reply :=
  match pets !! pet_id with
  | None => Handled pets false PetNotFound
  | Some player_pet =>
      let pets :=
        if negb (PlayerPet.is_active player_pet) then
          (fun other_pet =>
             if (PlayerPet.player_id other_pet =? PlayerPet.player_id player_pet)
                && PlayerPet.is_active other_pet
             then pet_set_active other_pet false else other_pet) <$> pets
        else pets in
      let pets :=
        <[pet_id := pet_set_active player_pet
                      (negb (PlayerPet.is_active player_pet))]> pets in
      Handled pets true (PetToggled (negb (PlayerPet.is_active player_pet)))
  end.

(** No player has two active companions. *)
Definition one_active_each (pets : list PlayerPet.t) : Prop :=
  forall i j p q,
    pets !! i = Some p -> pets !! j = Some q ->
    PlayerPet.player_id p = PlayerPet.player_id q ->
    PlayerPet.is_active p = true -> PlayerPet.is_active q = true -> i = j.

(** Hunger and happiness within their range of 0 to 100. *)
Definition mood_in_range (self : PlayerPet.t) : Prop :=
  0 <= PlayerPet.hunger self <= 100 /\ 0 <= PlayerPet.happiness self <= 100.

(** [self.bonus_stats.get(k, 0)]: what training has added to a stat. *)
Definition trained (self : PlayerPet.t) (k : string) : Q :=
  default 0%Q (assoc_find k (PlayerPet.bonus_stats self)).

(** ** Loop invariants *)

(** What the loop of [battle_calculation] keeps true: the generator is
    only advanced, by one draw per log line; a round writes two lines,
    except the one in which the monster falls; the monster loses at least
    1 health a round and the player gains none. *)
Definition pve_books (start_hp : Q) (monster : Monster) (g : rng) (f : fight)
  : Prop :=
  draws (gen f) = draws g /\
  cursor (gen f) = (cursor g + length (battle_log f))%nat /\
  0 <= rounds f /\
  Z.of_nat (length (battle_log f))
    = 2 * rounds f
      - (if Qltb 0 (hp_b f) then 0 else if rounds f =? 0 then 0 else 1) /\
  (hp_b f <= inject_Z (monster_health monster) - inject_Z (rounds f))%Q /\
  (hp_a f <= start_hp)%Q.

(** ** The recipe card: [show_recipe_details] *)

(** [has_qty = player_material.quantity if player_material else 0] *)
Definition has_qty (player_id material_id : Z) (inv : list Inventory) : Z :=
  match find_row player_id material_id inv with
  | Some player_material => quantity player_material
  | None => 0
  end.

(** The flag [can_craft] after the loop over [recipe.materials]. *)
Definition can_craft (player_id : Z) (mats : list (Z * Z))
    (inv : list Inventory) : bool :=
  fold_left
    (fun can_craft '(material_id, required_qty) =>
       if has_qty player_id material_id inv <? required_qty then false
       else can_craft)
    mats true.

(** [if can_craft and player.energy >= recipe.energy_cost]: whether the
    card carries the button that calls [create_item].  (The card also
    prints the names of the materials and of the result; the items are
    taken to be in the item table, as the card cannot be drawn
    otherwise.) *)
Definition offers_create (recipe : Recipe) (w : craft_world) : bool :=
  can_craft (Player.id (cw_player w)) (materials recipe) (cw_inventory w)
  && (recipe_energy_cost recipe <=? Player.energy (cw_player w)).

(** What a player owns of an item, over all the rows of the item. *)
Definition total_qty (player_id item_id : Z) (inv : list Inventory) : Z :=
  foldr (fun row acc =>
           if row_of player_id item_id row then quantity row + acc else acc)
        0 inv.

(** What a recipe asks of an item. *)
Definition required_of (item_id : Z) (mats : list (Z * Z)) : Z :=
  match List.find (fun m => fst m =? item_id) mats with
  | Some m => snd m
  | None => 0
  end.

(** A recipe that lists each material once and asks for at least one of
    each. *)
Definition sound_recipe (recipe : Recipe) : Prop :=
  NoDup (fst <$> materials recipe) /\
  forall m, In m (materials recipe) -> 0 < snd m.

(** ** Daily quests: [process_daily_quest] *)










(** ** Long messages: the end of [show_achievements] *)

(** [range(0, stop, step)] *)
Definition py_range_from_0 (stop step : nat) : list nat :=
  (fun k => k * step)%nat <$> seq 0 ((stop + step - 1) / step)%nat.

(** The texts [show_achievements] sends for a [response_text], a string
    being the list of its characters:
    [[response_text[i:i + 4096] for i in range(0, len(response_text), 4096)]]
    when the text is longer than 4096 characters, the text itself
    otherwise. *)
Definition answers {char : Type} (response_text : list char) : list (list char) :=
  if (4096 <? length response_text)%nat then
    (fun i => take 4096 (drop i response_text))
      <$> py_range_from_0 (length response_text) 4096
  else [response_text].

(** ** More sample data *)

(** The novice with the sprite, last fed at time 0. *)
Definition kennel : pet_world :=
  {| pt_player := novice; pt_pet := sprite; pt_last_fed := 0 |}.


(** The table of companions: the sprite, active, and a second, resting
    companion of the same player. *)
Definition stable : list PlayerPet.t := [sprite; pet_set_active sprite false].

(** The novice challenging the rival. *)
Definition duel : pvp_world := {| pw_player := novice; pw_opponent := rival |}.

(** A battle state in the middle of a dungeon fight. *)
Definition arena : battle_state :=
  {| player_hp := 90; player_max_hp := 100;
     monster_hp := 50; monster_max_hp := 50 |}.

(** The novice with both materials of the blade and one spare of the
    first. *)
Definition stocked : craft_world :=
  {| cw_player := novice;
     cw_inventory := [{| inv_player_id := 1; inv_item_id := 1; quantity := 2 |};
                      {| inv_player_id := 1; inv_item_id := 2; quantity := 1 |}] |}.

(** A recipe that lists a material with a quantity of 0. *)
Definition idle_recipe : Recipe :=
  {| result_item_id := 9; result_quantity := 1; recipe_energy_cost := 5;
     materials := [(2, 0)]; recipe_experience := 10 |}.




(** ** Proof automation *)


(** Case analysis on every conditional of the goal. *)
Ltac split_ifs :=
  repeat match goal with
  | |- context [if ?c then _ else _] => destruct c eqn:?
  end.

(** Case analysis on every range test of [get_player_rank]. *)
Ltac rank_cases :=
  repeat match goal with
  | |- context [(?a <=? ?b) && (?c <=? ?d)] =>
      let E := fresh "E" in
      destruct ((a <=? b) && (c <=? d)) eqn:E;
      [apply andb_true_iff in E; rewrite !Z.leb_le in E
      |apply andb_false_iff in E; rewrite !Z.leb_gt in E]
  end.

(** * Properties *)

(** ** Numbers and the experience curve *)

Lemma Qltb_lt (x y : Q) : Qltb x y = true <-> (x < y)%Q.
Proof. unfold Qltb, Qlt. apply Z.ltb_lt. Qed.

Lemma Qltb_ge (x y : Q) : Qltb x y = false <-> (y <= x)%Q.
Proof. unfold Qltb, Qle. rewrite Z.ltb_ge. reflexivity. Qed.

Lemma max1_Qmax (x : Q) : (max1 x == Qmax 1 x)%Q.
Proof.
  unfold max1. destruct (Qltb 1 x) eqn:E.
  - apply Qltb_lt in E. symmetry. apply Q.max_r. lra.
  - apply Qltb_ge in E. symmetry. apply Q.max_l. exact E.
Qed.

Lemma max1_ge_1 (x : Q) : (1 <= max1 x)%Q.
Proof.
  unfold max1. destruct (Qltb 1 x) eqn:E.
  - apply Qltb_lt in E. lra.
  - lra.
Qed.

(** *** Binary64 rounding *)

Lemma pow2_pos (e : Z) : (0 < pow2 e)%Q.
Proof. apply Qpower_0_lt. reflexivity. Qed.

Lemma pow2_add (a b : Z) : (pow2 (a + b) == pow2 a * pow2 b)%Q.
Proof. apply Qpower_plus. discriminate. Qed.

Lemma pow2_le (a b : Z) : a <= b -> (pow2 a <= pow2 b)%Q.
Proof. intros H. apply Qpower_le_compat_l; [exact H | discriminate]. Qed.

Lemma pow2_lt (a b : Z) : a < b -> (pow2 a < pow2 b)%Q.
Proof. intros H. apply Qpower_lt_compat_l; [exact H | reflexivity]. Qed.

Lemma pow2_lt_inv (a b : Z) : (pow2 a < pow2 b)%Q -> a < b.
Proof. intros H. apply (Qpower_lt_compat_l_inv 2); [exact H | reflexivity]. Qed.

Lemma pow2_inject (e : Z) : 0 <= e -> (pow2 e == inject_Z (2 ^ e))%Q.
Proof. intros H. unfold pow2. now rewrite Zpower_Qpower. Qed.

Lemma pow2_split (a b : Z) : (pow2 a == pow2 (a - b) * pow2 b)%Q.
Proof. rewrite <- pow2_add. now replace (a - b + b) with a by lia. Qed.

Lemma Qdiv_pow2_le (x y : Q) (e : Z) :
  (x <= y)%Q -> (x / pow2 e <= y / pow2 e)%Q.
Proof.
  intros H. apply Qmult_le_compat_r; [exact H|].
  apply Qlt_le_weak, Qinv_lt_0_compat, pow2_pos.
Qed.

Lemma Qdiv_pow2_mul (x : Q) (e : Z) : (x / pow2 e * pow2 e == x)%Q.
Proof. field. pose proof (pow2_pos e). lra. Qed.

Lemma pow2_div (a b : Z) : (pow2 a / pow2 b == pow2 (a - b))%Q.
Proof.
  rewrite (pow2_split a b). field. pose proof (pow2_pos b). lra.
Qed.

(** The logarithm brackets a positive integer. *)
Lemma log2_bracket (n : Z) :
  0 < n -> (pow2 (Z.log2 n) <= inject_Z n < pow2 (Z.log2 n + 1))%Q.
Proof.
  intros H. pose proof (Z.log2_nonneg n).
  rewrite !pow2_inject by lia. rewrite <- Zle_Qle, <- Zlt_Qlt.
  pose proof (Z.log2_spec n H). replace (Z.log2 n + 1) with (Z.succ (Z.log2 n)) by lia.
  lia.
Qed.

Lemma binade_spec (x : Q) :
  (0 < x)%Q -> (pow2 (binade x) <= x < pow2 (binade x + 1))%Q.
Proof.
  intros Hx. unfold binade.
  set (a := Z.log2 (Qnum x)). set (b := Z.log2 (QDen x)).
  assert (Hn : 0 < Qnum x) by (destruct x as [n d]; unfold Qlt in Hx; cbn in *; lia).
  assert (Hd : 0 < QDen x) by lia.
  pose proof (log2_bracket _ Hn) as [Hn1 Hn2].
  pose proof (log2_bracket _ Hd) as [Hd1 Hd2].
  fold a in Hn1, Hn2. fold b in Hd1, Hd2.
  assert (Hxe : (x == inject_Z (Qnum x) / inject_Z (QDen x))%Q).
  { destruct x as [n d]. cbn [Qnum Qden]. rewrite (Qmake_Qdiv n d). reflexivity. }
  assert (HD : (0 < inject_Z (QDen x))%Q)
    by (change 0%Q with (inject_Z 0); now rewrite <- Zlt_Qlt).
  assert (Hmul : (x * inject_Z (QDen x) == inject_Z (Qnum x))%Q).
  { rewrite Hxe at 1. field. lra. }
  pose proof (pow2_pos b) as Pb. pose proof (pow2_pos (a - b)) as Pab.
  pose proof (pow2_pos (a - b - 1)) as Pab1.
  assert (Hlo : (pow2 (a - b - 1) < x)%Q).
  { (* 2^(a-b-1) * d < 2^(a-b-1) * 2^(b+1) = 2^a <= n = x * d *)
    assert (E : (pow2 (a - b - 1) * pow2 (b + 1) == pow2 a)%Q).
    { rewrite <- pow2_add. now replace (a - b - 1 + (b + 1)) with a by lia. }
    assert (L1 : (pow2 (a - b - 1) * inject_Z (QDen x) < pow2 (a - b - 1) * pow2 (b + 1))%Q).
    { apply Qmult_lt_l; assumption. }
    assert (L2 : (pow2 (a - b - 1) * inject_Z (QDen x) < x * inject_Z (QDen x))%Q) by lra.
    apply Qmult_lt_r in L2; assumption. }
  assert (Hhi : (x < pow2 (a - b + 1))%Q).
  { assert (E : (pow2 (a - b + 1) * pow2 b == pow2 (a + 1))%Q).
    { rewrite <- pow2_add. now replace (a - b + 1 + b) with (a + 1) by lia. }
    pose proof (pow2_pos (a - b + 1)) as P1.
    assert (L1 : (pow2 (a - b + 1) * pow2 b <= pow2 (a - b + 1) * inject_Z (QDen x))%Q).
    { apply Qmult_le_l; assumption. }
    assert (L2 : (x * inject_Z (QDen x) < pow2 (a - b + 1) * inject_Z (QDen x))%Q) by lra.
    apply Qmult_lt_r in L2; assumption. }
  destruct (Qle_bool (pow2 (a - b)) x) eqn:E.
  - apply Qle_bool_iff in E. split; assumption.
  - assert (Hlt : (x < pow2 (a - b))%Q).
    { apply Qnot_le_lt. intros C. apply Qle_bool_iff in C. congruence. }
    replace (a - b - 1 + 1) with (a - b) by lia. split; [lra | exact Hlt].
Qed.

(** The binade is the only exponent that brackets [x]. *)
Lemma binade_unique (x : Q) (k : Z) :
  (pow2 k <= x < pow2 (k + 1))%Q -> binade x = k.
Proof.
  intros [H1 H2].
  assert (Hx : (0 < x)%Q) by (pose proof (pow2_pos k); lra).
  destruct (binade_spec x Hx) as [B1 B2].
  assert (binade x < k + 1) by (apply pow2_lt_inv; lra).
  assert (k < binade x + 1) by (apply pow2_lt_inv; lra).
  lia.
Qed.

Lemma binade_comp (x y : Q) : (0 < x)%Q -> (x == y)%Q -> binade x = binade y.
Proof.
  intros Hx E. symmetry. apply binade_unique.
  rewrite <- E. now apply binade_spec.
Qed.

Lemma binade_mono (x y : Q) : (0 < x)%Q -> (x <= y)%Q -> binade x <= binade y.
Proof.
  intros Hx Hxy.
  destruct (binade_spec x Hx) as [B1 _].
  destruct (binade_spec y ltac:(lra)) as [_ B2].
  assert (binade x < binade y + 1) by (apply pow2_lt_inv; lra).
  lia.
Qed.

(** Rounding to the nearest integer. *)

Ltac compare_facts :=
  repeat match goal with
  | H : (_ ?= _)%Q = Eq |- _ => apply Qeq_alt in H
  | H : (_ ?= _)%Q = Lt |- _ => apply Qlt_alt in H
  | H : (_ ?= _)%Q = Gt |- _ => apply Qgt_alt in H
  end.

Lemma rne_floor_or_next (q : Q) : rne q = Qfloor q \/ rne q = Qfloor q + 1.
Proof.
  unfold rne. destruct (q - inject_Z (Qfloor q) ?= 1 # 2)%Q; auto.
  destruct (Z.even (Qfloor q)); auto.
Qed.

Lemma rne_bounds (q : Q) :
  (q - (1 # 2) <= inject_Z (rne q) <= q + (1 # 2))%Q.
Proof.
  pose proof (Qfloor_le q) as F1. pose proof (Qlt_floor q) as F2.
  rewrite inject_Z_plus in F2. change (inject_Z 1) with 1%Q in F2.
  unfold rne. destruct (q - inject_Z (Qfloor q) ?= 1 # 2)%Q eqn:E.
  - apply Qeq_alt in E. destruct (Z.even (Qfloor q)).
    + lra.
    + rewrite inject_Z_plus. change (inject_Z 1) with 1%Q. lra.
  - apply Qlt_alt in E. lra.
  - apply Qgt_alt in E. rewrite inject_Z_plus. change (inject_Z 1) with 1%Q. lra.
Qed.

Lemma rne_comp (q q' : Q) : (q == q')%Q -> rne q = rne q'.
Proof.
  intros E. unfold rne. rewrite (Qfloor_comp _ _ E).
  assert (E' : (q - inject_Z (Qfloor q') == q' - inject_Z (Qfloor q'))%Q)
    by (rewrite E; reflexivity).
  now rewrite (Qcompare_comp _ _ E' (1 # 2) (1 # 2) (Qeq_refl _)).
Qed.

Lemma rne_inject (n : Z) : rne (inject_Z n) = n.
Proof.
  unfold rne. rewrite Qfloor_Z.
  assert (E : (inject_Z n - inject_Z n ?= 1 # 2)%Q = Lt).
  { apply Qlt_alt. assert (Z0 : (inject_Z n - inject_Z n == 0)%Q) by ring.
    rewrite Z0. reflexivity. }
  now rewrite E.
Qed.

Lemma rne_mono (q q' : Q) : (q <= q')%Q -> rne q <= rne q'.
Proof.
  intros H. pose proof (Qfloor_resp_le _ _ H) as HF.
  destruct (Z.eq_dec (Qfloor q) (Qfloor q')) as [E | NE].
  - unfold rne. rewrite <- E.
    destruct (q - inject_Z (Qfloor q) ?= 1 # 2)%Q eqn:C;
      destruct (q' - inject_Z (Qfloor q) ?= 1 # 2)%Q eqn:C';
      compare_facts; try (exfalso; lra); destruct (Z.even (Qfloor q)); lia.
  - destruct (rne_floor_or_next q), (rne_floor_or_next q'); lia.
Qed.

(** Rounding to binary64. *)

Lemma fl_0 : fl 0 = 0%Q.
Proof. reflexivity. Qed.

Lemma fl_pos_eq (x : Q) :
  (0 < x)%Q ->
  fl x = (inject_Z (rne (x / pow2 (binade x - 52))) * pow2 (binade x - 52))%Q.
Proof.
  intros Hx. unfold fl.
  destruct (Qeq_bool x 0) eqn:E.
  - apply Qeq_bool_iff in E. lra.
  - destruct x as [n d]. unfold Qlt in Hx. cbn in Hx.
    unfold Qabs. now rewrite Z.abs_eq by lia.
Qed.

(** The significand of a positive number lies between [2^52] and
    [2^53]. *)
Lemma significand_range (x : Q) :
  (0 < x)%Q ->
  (pow2 52 <= x / pow2 (binade x - 52) < pow2 53)%Q.
Proof.
  intros Hx. destruct (binade_spec x Hx) as [B1 B2].
  pose proof (pow2_pos (binade x - 52)) as P.
  assert (E1 : (pow2 52 * pow2 (binade x - 52) == pow2 (binade x))%Q).
  { rewrite <- pow2_add. now replace (52 + (binade x - 52)) with (binade x) by lia. }
  assert (E2 : (pow2 53 * pow2 (binade x - 52) == pow2 (binade x + 1))%Q).
  { rewrite <- pow2_add. now replace (53 + (binade x - 52)) with (binade x + 1) by lia. }
  split.
  - apply Qle_shift_div_l; [exact P | lra].
  - apply Qlt_shift_div_r; [exact P | lra].
Qed.

Lemma rounded_significand_range (x : Q) :
  (0 < x)%Q ->
  2 ^ 52 <= rne (x / pow2 (binade x - 52)) <= 2 ^ 53.
Proof.
  intros Hx. destruct (significand_range x Hx) as [S1 S2].
  rewrite (pow2_inject 52) in S1 by lia. rewrite (pow2_inject 53) in S2 by lia.
  split.
  - rewrite <- (rne_inject (2 ^ 52)). now apply rne_mono.
  - rewrite <- (rne_inject (2 ^ 53)). apply rne_mono. lra.
Qed.

Lemma fl_comp (x y : Q) : (x == y)%Q -> (fl x == fl y)%Q.
Proof.
  intros E. unfold fl.
  assert (Eb : Qeq_bool x 0 = Qeq_bool y 0).
  { destruct (Qeq_bool x 0) eqn:A, (Qeq_bool y 0) eqn:B; try reflexivity.
    - apply Qeq_bool_iff in A. apply Qeq_bool_neq in B. rewrite E in A. contradiction.
    - apply Qeq_bool_iff in B. apply Qeq_bool_neq in A. rewrite E in A. contradiction. }
  rewrite <- Eb. destruct (Qeq_bool x 0) eqn:A; [reflexivity|].
  apply Qeq_bool_neq in A.
  assert (Ha : (0 < Qabs x)%Q).
  { pose proof (Qabs_nonneg x). destruct (Qeq_dec (Qabs x) 0) as [Z0|NZ].
    - apply Qabs_case in Z0 || idtac. exfalso. apply A.
      revert Z0. apply Qabs_case; intros; lra.
    - lra. }
  assert (Eabs : (Qabs x == Qabs y)%Q) by now rewrite E.
  rewrite <- (binade_comp _ _ Ha Eabs).
  set (e := binade (Qabs x) - 52).
  assert (Eq' : (x / pow2 e == y / pow2 e)%Q) by now rewrite E.
  now rewrite (rne_comp _ _ Eq').
Qed.

#[global] Instance fl_proper : Proper (Qeq ==> Qeq) fl.
Proof. intros x y E. now apply fl_comp. Qed.

(** Rounding moves a positive number by at most half a unit in its last
    place, hence by at most the fraction [2^-53] of it. *)
Lemma fl_error (x : Q) :
  (0 <= x)%Q ->
  (x - x * (1 # 2 ^ 53) <= fl x <= x + x * (1 # 2 ^ 53))%Q.
Proof.
  intros Hx0. destruct (Qle_lt_or_eq _ _ Hx0) as [Hx | Hz].
  2:{ rewrite <- Hz. rewrite fl_0. lra. }
  rewrite (fl_pos_eq x Hx).
  set (e := binade x - 52).
  pose proof (rne_bounds (x / pow2 e)) as [R1 R2].
  pose proof (pow2_pos e) as P.
  destruct (binade_spec x Hx) as [B1 _].
  assert (E1 : (pow2 52 * pow2 e == pow2 (binade x))%Q).
  { rewrite <- pow2_add. unfold e. now replace (52 + (binade x - 52)) with (binade x) by lia. }
  assert (He : (pow2 e * (1 # 2) <= x * (1 # 2 ^ 53))%Q).
  { rewrite (pow2_inject 52) in E1 by lia.
    change (inject_Z (2 ^ 52)) with (4503599627370496 # 1)%Q in E1.
    change (2 ^ 53)%positive with 9007199254740992%positive. lra. }
  assert (M1 : ((x / pow2 e - (1 # 2)) * pow2 e
                <= inject_Z (rne (x / pow2 e)) * pow2 e)%Q).
  { apply Qmult_le_compat_r; lra. }
  assert (M2 : (inject_Z (rne (x / pow2 e)) * pow2 e
                <= (x / pow2 e + (1 # 2)) * pow2 e)%Q).
  { apply Qmult_le_compat_r; lra. }
  pose proof (Qdiv_pow2_mul x e) as D.
  assert (D1 : ((x / pow2 e - (1 # 2)) * pow2 e == x - pow2 e * (1 # 2))%Q).
  { rewrite <- D at 2. ring. }
  assert (D2 : ((x / pow2 e + (1 # 2)) * pow2 e == x + pow2 e * (1 # 2))%Q).
  { rewrite <- D at 2. ring. }
  lra.
Qed.

Lemma fl_nonneg (x : Q) : (0 <= x)%Q -> (0 <= fl x)%Q.
Proof.
  intros H. pose proof (fl_error x H) as [E _].
  assert ((0 <= x * (1 # 2 ^ 53))%Q /\ (x * (1 # 2 ^ 53) <= x)%Q).
  { change (2 ^ 53)%positive with 9007199254740992%positive. lra. }
  lra.
Qed.

Lemma fl_ge_half (x : Q) : (0 <= x)%Q -> (x * (1 # 2) <= fl x)%Q.
Proof.
  intros H. pose proof (fl_error x H) as [E _].
  assert ((x * (1 # 2 ^ 53) <= x * (1 # 2))%Q).
  { change (2 ^ 53)%positive with 9007199254740992%positive. lra. }
  lra.
Qed.

Lemma fl_mono (x y : Q) : (0 <= x)%Q -> (x <= y)%Q -> (fl x <= fl y)%Q.
Proof.
  intros Hx0 Hxy. destruct (Qle_lt_or_eq _ _ Hx0) as [Hx | Hz].
  2:{ rewrite <- Hz. rewrite fl_0. apply fl_nonneg. lra. }
  assert (Hy : (0 < y)%Q) by lra.
  rewrite (fl_pos_eq x Hx), (fl_pos_eq y Hy).
  pose proof (binade_mono x y Hx Hxy) as Hb.
  destruct (Z.eq_dec (binade x) (binade y)) as [E | NE].
  - rewrite E. apply Qmult_le_compat_r; [|apply Qlt_le_weak, pow2_pos].
    rewrite <- Zle_Qle. apply rne_mono. now apply Qdiv_pow2_le.
  - destruct (rounded_significand_range x Hx) as [_ U].
    destruct (rounded_significand_range y Hy) as [L _].
    set (ex := binade x - 52) in *. set (ey := binade y - 52) in *.
    pose proof (pow2_pos ex) as Px. pose proof (pow2_pos ey) as Py.
    apply Qle_trans with (inject_Z (2 ^ 53) * pow2 ex)%Q.
    { apply Qmult_le_compat_r; [now rewrite <- Zle_Qle | lra]. }
    apply Qle_trans with (inject_Z (2 ^ 52) * pow2 ey)%Q.
    2:{ apply Qmult_le_compat_r; [now rewrite <- Zle_Qle | lra]. }
    rewrite <- !pow2_inject by lia. rewrite <- !pow2_add.
    apply pow2_le. unfold ex, ey. lia.
Qed.

(** A number with a significand of at most 53 bits is a binary64 number
    and rounds to itself. *)
Lemma fl_representable (m k : Z) :
  0 <= m <= 2 ^ 53 -> (fl (inject_Z m * pow2 k) == inject_Z m * pow2 k)%Q.
Proof.
  intros [Hm0 Hm].
  destruct (Z.eq_dec m 0) as [-> | NZ].
  { assert (E : (inject_Z 0 * pow2 k == 0)%Q) by (change (inject_Z 0) with 0%Q; ring).
    rewrite (fl_comp _ _ E). rewrite fl_0. lra. }
  set (x := (inject_Z m * pow2 k)%Q).
  pose proof (pow2_pos k) as Pk.
  assert (Hm1 : (1 <= inject_Z m)%Q)
    by (change 1%Q with (inject_Z 1); rewrite <- Zle_Qle; lia).
  assert (Hx : (0 < x)%Q).
  { unfold x. apply Qlt_le_trans with (1 * pow2 k)%Q; [lra|].
    apply Qmult_le_compat_r; lra. }
  rewrite (fl_pos_eq x Hx).
  destruct (binade_spec x Hx) as [B1 B2].
  set (e := binade x - 52) in *.
  assert (Hek : e <= k + 1).
  { assert (Hle : (x <= pow2 (53 + k))%Q).
    { unfold x. rewrite pow2_add, (pow2_inject 53) by lia.
      apply Qmult_le_compat_r; [now rewrite <- Zle_Qle | lra]. }
    pose proof (pow2_lt (53 + k) (53 + k + 1) ltac:(lia)).
    assert (binade x < 53 + k + 1) by (apply pow2_lt_inv; lra).
    unfold e. lia. }
  destruct (Z.eq_dec e (k + 1)) as [Ee | Ne].
  - (* only the significand 2^53 reaches this binade *)
    assert (Hb : binade x = 53 + k) by (unfold e in Ee; lia).
    assert (Hge : (inject_Z (2 ^ 53) * pow2 k <= x)%Q).
    { rewrite <- pow2_inject, <- pow2_add, <- Hb by lia. exact B1. }
    assert (Hm' : (inject_Z (2 ^ 53) <= inject_Z m)%Q).
    { unfold x in Hge. apply Qmult_le_r in Hge; assumption. }
    rewrite <- Zle_Qle in Hm'. assert (Em : m = 2 ^ 53) by lia.
    assert (Eq1 : (x / pow2 e == inject_Z (2 ^ 52))%Q).
    { unfold x. rewrite Em, Ee. rewrite (pow2_add k 1).
      change (pow2 1) with 2%Q. change (inject_Z (2 ^ 53)) with (2 * inject_Z (2 ^ 52))%Q.
      field. lra. }
    rewrite (rne_comp _ _ Eq1), rne_inject. unfold x. rewrite Em, Ee, (pow2_add k 1).
    change (pow2 1) with 2%Q. change (inject_Z (2 ^ 53)) with (2 * inject_Z (2 ^ 52))%Q.
    ring.
  - assert (Hke : 0 <= k - e) by lia.
    assert (Eq1 : (x / pow2 e == inject_Z (m * 2 ^ (k - e)))%Q).
    { unfold x. rewrite (pow2_split k e), inject_Z_mult, <- pow2_inject by lia.
      field. pose proof (pow2_pos e). lra. }
    rewrite (rne_comp _ _ Eq1), rne_inject.
    unfold x. rewrite (pow2_split k e), inject_Z_mult, <- pow2_inject by lia.
    ring.
Qed.

(** An integer of at most 53 bits is a binary64 number. *)
Lemma fl_integer (n : Z) : 0 <= n <= 2 ^ 53 -> (fl (inject_Z n) == inject_Z n)%Q.
Proof.
  intros H. pose proof (fl_representable n 0 H) as E.
  change (pow2 0) with 1%Q in E.
  assert (E1 : (inject_Z n * 1 == inject_Z n)%Q) by ring.
  now rewrite (fl_comp _ _ E1), E1 in E.
Qed.

(** Rounding is idempotent. *)
Lemma fl_idem (x : Q) : (0 <= x)%Q -> (fl (fl x) == fl x)%Q.
Proof.
  intros Hx0. destruct (Qle_lt_or_eq _ _ Hx0) as [Hx | Hz].
  2:{ rewrite <- (fl_comp _ _ Hz). rewrite fl_0. reflexivity. }
  rewrite (fl_pos_eq x Hx). apply fl_representable.
  pose proof (rounded_significand_range x Hx). lia.
Qed.

(** *** The experience curve *)

Lemma Qsquare_lt (a b : Q) : (0 <= b)%Q -> (a * a < b * b)%Q -> (a < b)%Q.
Proof. intros Hb H. apply Qnot_le_lt. intros C. nra. Qed.

(** The rounded square root is at least half of any number whose square
    does not exceed the argument. *)
Lemma fl_sqrt_lower (q s : Q) :
  (0 < q)%Q -> (0 <= s)%Q -> (s * s <= q)%Q -> (s * (1 # 2) <= fl_sqrt q)%Q.
Proof.
  intros Hq Hs Hsq. unfold fl_sqrt.
  assert (Eb : Qle_bool q 0 = false).
  { destruct (Qle_bool q 0) eqn:E; [|reflexivity]. apply Qle_bool_iff in E. lra. }
  rewrite Eb. cbv zeta.
  set (e := binade q / 2 - 52).
  set (s' := (q / pow2 (2 * e))%Q).
  set (m := Z.sqrt (Qfloor s')).
  set (r := match (s' ?= _)%Q with Lt => m | Eq => _ | Gt => _ end).
  assert (Hr : m <= r).
  { unfold r. destruct (s' ?= _)%Q; [destruct (Z.even m)| |]; lia. }
  clearbody r.
  pose proof (pow2_pos e) as Pe. pose proof (pow2_pos (2 * e)) as P2e.
  assert (E2 : (pow2 (2 * e) == pow2 e * pow2 e)%Q).
  { rewrite <- pow2_add. now replace (2 * e) with (e + e) by lia. }
  destruct (binade_spec q Hq) as [B1 _].
  assert (H1 : (1 <= s')%Q).
  { unfold s'. apply Qle_shift_div_l; [exact P2e|].
    assert (L : (pow2 (2 * e) <= pow2 (binade q))%Q).
    { apply pow2_le. unfold e.
      pose proof (Z.div_mod (binade q) 2 ltac:(lia)).
      pose proof (Z.mod_pos_bound (binade q) 2 ltac:(lia)). lia. }
    lra. }
  assert (Hm1 : 1 <= m).
  { unfold m. change 1 with (Z.sqrt 1). apply Z.sqrt_le_mono.
    rewrite <- (Qfloor_Z 1). apply Qfloor_resp_le. exact H1. }
  assert (H3 : (s' < inject_Z (m + 1) * inject_Z (m + 1))%Q).
  { assert (F0 : 0 <= Qfloor s').
    { rewrite <- (Qfloor_Z 0). apply Qfloor_resp_le. change (inject_Z 0) with 0%Q. lra. }
    pose proof (Z.sqrt_spec _ F0) as [_ S2]. fold m in S2.
    pose proof (Qlt_floor s') as F2.
    apply Qlt_le_trans with (inject_Z (Qfloor s' + 1)); [exact F2|].
    rewrite <- inject_Z_mult, <- Zle_Qle. lia. }
  set (t := (s / pow2 e)%Q).
  assert (Ht0 : (0 <= t)%Q).
  { unfold t. apply Qle_shift_div_l; [exact Pe | lra]. }
  assert (Ht : (t * t <= s')%Q).
  { unfold t, s'. rewrite E2.
    assert (E : (s / pow2 e * (s / pow2 e) == s * s / (pow2 e * pow2 e))%Q)
      by (field; lra).
    rewrite E. apply Qmult_le_compat_r; [exact Hsq|].
    apply Qlt_le_weak, Qinv_lt_0_compat. nra. }
  assert (Htm : (t < inject_Z (m + 1))%Q).
  { apply Qsquare_lt; [|lra].
    change 0%Q with (inject_Z 0). rewrite <- Zle_Qle. lia. }
  assert (Hmr : (inject_Z (m + 1) <= 2 * inject_Z r)%Q).
  { change 2%Q with (inject_Z 2). rewrite <- inject_Z_mult, <- Zle_Qle. lia. }
  assert (Es : (s == t * pow2 e)%Q) by (unfold t; field; lra).
  rewrite Es. clearbody t.
  assert (Hlt : (t * pow2 e <= 2 * inject_Z r * pow2 e)%Q).
  { apply Qmult_le_compat_r; lra. }
  lra.
Qed.

Lemma py_int_nonneg_floor (x : Q) : (0 <= x)%Q -> py_int x = Qfloor x.
Proof.
  intros H. unfold py_int.
  now replace (Qltb x 0) with false by (symmetry; apply Qltb_ge; exact H).
Qed.

Lemma threshold_ge_level (level : Z) :
  0 <= level -> level <= int_100_pow level (3 # 2).
Proof.
  intros H. destruct (Z.eq_dec level 0) as [-> | NZ]; [vm_compute; discriminate|].
  unfold int_100_pow, float_mul, float_pow.
  change (Qfloor (2 * (3 # 2))) with 3.
  set (x := fl (inject_Z level)).
  assert (HL : (1 <= inject_Z level)%Q)
    by (change 1%Q with (inject_Z 1); rewrite <- Zle_Qle; lia).
  assert (Hx : (inject_Z level * (1 # 2) <= x)%Q) by (apply fl_ge_half; lra).
  assert (E3 : (x ^ 3 == x * x * x)%Q) by (simpl; ring).
  assert (Hq : (0 < x ^ 3)%Q) by (rewrite E3; nra).
  assert (Hs : (x * (1 # 2) * (x * (1 # 2)) <= x ^ 3)%Q) by (rewrite E3; nra).
  pose proof (fl_sqrt_lower (x ^ 3) (x * (1 # 2)) Hq ltac:(lra) Hs) as Hr.
  set (r := fl_sqrt (x ^ 3)) in *.
  assert (Hy : (0 <= 100 * r)%Q) by lra.
  pose proof (fl_ge_half (100 * r) Hy) as Hf.
  rewrite py_int_nonneg_floor by lra.
  rewrite <- (Qfloor_Z level). apply Qfloor_resp_le. lra.
Qed.

(** The curve at the levels from 0 to 2000, each compared with the
    integer square root of [10^4 * level^3]. *)
Lemma curve_checked :
  forallb (fun level => int_100_pow level (3 # 2) =? Z.sqrt (10000 * level ^ 3))
          (map Z.of_nat (seq 0 (Z.to_nat 2001))) = true.
Proof. vm_compute. reflexivity. Qed.

Lemma int_100_pow_1_5 (level : Z) :
  0 <= level <= 2000 ->
  int_100_pow level (3 # 2) = Z.sqrt (10000 * level ^ 3).
Proof.
  intros H. pose proof curve_checked as C.
  rewrite forallb_forall in C. apply Z.eqb_eq, C.
  apply in_map_iff. exists (Z.to_nat level). split; [lia|].
  apply in_seq. lia.
Qed.

Lemma threshold_is_floor (level : Z) :
  0 <= level <= 2000 ->
  is_floor_100_pow_1_5 level (int_100_pow level (3 # 2)).
Proof.
  intros H. rewrite int_100_pow_1_5 by exact H. unfold is_floor_100_pow_1_5.
  assert (H0 : 0 <= 10000 * level ^ 3) by nia.
  pose proof (Z.sqrt_spec _ H0) as Hs. cbv zeta in Hs.
  pose proof (Z.sqrt_nonneg (10000 * level ^ 3)).
  replace (Z.succ (Z.sqrt (10000 * level ^ 3))) with (Z.sqrt (10000 * level ^ 3) + 1) in Hs by lia.
  lia.
Qed.

(** ** Progression ledger *)

Lemma level_loop_spec (fuel : nat) :
  forall (p : Player.t) (flag : bool),
    0 <= Player.level p ->
    Player.experience p - Player.level p + 1 <= Z.of_nat fuel ->
    exists k,
      0 <= k /\
      leveled k p (fst (Player.level_loop fuel p flag)) /\
      Player.experience p
        < Player.get_next_level_exp (fst (Player.level_loop fuel p flag)) /\
      (forall l, Player.level p <= l < Player.level p + k ->
                 int_100_pow l EXPERIENCE_MULTIPLIER <= Player.experience p) /\
      snd (Player.level_loop fuel p flag) = flag || (0 <? k).
Proof.
  induction fuel as [|fuel IH]; intros p flag Hl Hf.
  - exists 0. cbn [Player.level_loop fst snd].
    pose proof (threshold_ge_level _ Hl) as Ht.
    unfold leveled, Player.get_next_level_exp, EXPERIENCE_MULTIPLIER.
    repeat split; try lia. now rewrite orb_false_r.
  - cbn [Player.level_loop].
    pose proof (threshold_ge_level _ Hl) as Ht.
    destruct (Player.get_next_level_exp p <=? Player.experience p) eqn:E.
    + apply Z.leb_le in E.
      unfold Player.get_next_level_exp, EXPERIENCE_MULTIPLIER in E.
      destruct (IH (Player.level_up_once p) true) as (k & Hk & Hlv & Hex & Hdue & Hfl).
      * cbn. lia.
      * cbn. lia.
      * exists (k + 1). cbn in Hex, Hdue.
        split; [lia|]. split.
        { unfold leveled in *. cbn in Hlv. intuition lia. }
        split; [exact Hex|]. split.
        { intros l Hr. destruct (Z.eq_dec l (Player.level p)) as [->|Hne].
          - exact E.
          - apply Hdue. lia. }
        rewrite Hfl. cbn. replace (0 <? k + 1) with true by (symmetry; apply Z.ltb_lt; lia).
        now rewrite orb_true_r.
    + apply Z.leb_gt in E. exists 0. cbn [fst snd].
      unfold leveled. repeat split; try lia. now rewrite orb_false_r.
Qed.

(** Claim C4.  For every player of level at least 0 and every granted
    amount, [add_experience] adds the amount to the experience and then
    levels up as long as the experience reaches the threshold of the
    current level: the level does not decrease; with [n] the number of
    levels gained, strength, agility, intelligence and vitality grow by
    exactly [2 n], the maximum health by [20 n] and the maximum energy by
    [10 n]; every level passed had its threshold reached; and after the
    call the experience is below the threshold of the new level.  The
    returned flag tells whether a level was gained. *)
Theorem add_experience_applies_due_level_ups (p : Player.t) (amount : Z) :
  0 <= Player.level p ->
  let q := fst (Player.add_experience p amount) in
  let n := Player.level q - Player.level p in
  0 <= n /\
  Player.experience q = Player.experience p + amount /\
  Player.strength q = Player.strength p + 2 * n /\
  Player.agility q = Player.agility p + 2 * n /\
  Player.intelligence q = Player.intelligence p + 2 * n /\
  Player.vitality q = Player.vitality p + 2 * n /\
  Player.max_health q = Player.max_health p + 20 * n /\
  Player.max_energy q = Player.max_energy p + 10 * n /\
  (forall l, Player.level p <= l < Player.level q ->
             int_100_pow l EXPERIENCE_MULTIPLIER <= Player.experience q) /\
  Player.experience q < Player.get_next_level_exp q /\
  snd (Player.add_experience p amount) = (0 <? n).
Proof.
  intros Hl q n. subst q n. unfold Player.add_experience.
  destruct (level_loop_spec (Player.level_fuel (Player.gain p amount))
              (Player.gain p amount) false) as (k & Hk & Hlv & Hex & Hdue & Hfl).
  - cbn. lia.
  - unfold Player.level_fuel. lia.
  - cbn [Player.gain Player.level Player.experience] in Hex, Hdue.
    cbv zeta.
    set (q := fst (Player.level_loop _ _ _)) in *.
    unfold leveled in Hlv. cbn in Hlv.
    destruct Hlv as (H1 & H2 & H3 & H4 & H5 & H6 & H7 & H8 & _).
    replace (Player.level q - Player.level p) with k by lia.
    rewrite H8. repeat split; try lia.
    + intros l Hr. apply Hdue. lia.
    + exact Hfl.
Qed.

(** The theorem of C4 at the novice with a grant of 300: two level-ups. *)
Lemma add_experience_applies_due_level_ups_witness :
  let q := fst (Player.add_experience novice 300) in
  let n := Player.level q - Player.level novice in
  0 <= n /\
  Player.experience q = Player.experience novice + 300 /\
  Player.strength q = Player.strength novice + 2 * n /\
  Player.agility q = Player.agility novice + 2 * n /\
  Player.intelligence q = Player.intelligence novice + 2 * n /\
  Player.vitality q = Player.vitality novice + 2 * n /\
  Player.max_health q = Player.max_health novice + 20 * n /\
  Player.max_energy q = Player.max_energy novice + 10 * n /\
  (forall l, Player.level novice <= l < Player.level q ->
             int_100_pow l EXPERIENCE_MULTIPLIER <= Player.experience q) /\
  Player.experience q < Player.get_next_level_exp q /\
  snd (Player.add_experience novice 300) = (0 <? n).
Proof. apply (add_experience_applies_due_level_ups novice 300). cbn. lia. Defined.

Example add_experience_two_levels :
  Player.level (fst (Player.add_experience novice 300)) = 3.
Proof. vm_compute. reflexivity. Qed.

(** Claim C8, as amended.  For every level [L >= 1], the threshold of a
    player of level [L], the threshold of a companion of level [L] and
    the utility helper [calculate_exp_for_level] compute the same value,
    [int(100 * L ** 1.5)] in binary64 arithmetic, which is at least [L];
    for every level up to 2000 this value is the floor of
    [100 * L^1.5]. *)
Theorem thresholds_agree (L : Z) (p : Player.t) (c : PlayerPet.t) :
  1 <= L -> Player.level p = L -> PlayerPet.level c = L ->
  Player.get_next_level_exp p = calculate_exp_for_level L /\
  PlayerPet.get_next_level_exp c = calculate_exp_for_level L /\
  L <= calculate_exp_for_level L /\
  (L <= 2000 -> is_floor_100_pow_1_5 L (calculate_exp_for_level L)).
Proof.
  intros HL Hp Hc.
  unfold Player.get_next_level_exp, PlayerPet.get_next_level_exp,
    calculate_exp_for_level, EXPERIENCE_MULTIPLIER.
  rewrite Hp, Hc. split; [reflexivity|]. split; [reflexivity|].
  split; [apply threshold_ge_level; lia|].
  intros HK. apply threshold_is_floor. lia.
Qed.

(** Claim C8 as stated fails: at level 360004 the binary64 product
    [100 * L ** 1.5] is rounded up to a whole number, and the three
    functions give 21600360001 where the floor of [100 * L^1.5] is
    21600360000. *)
Lemma threshold_floor_counterexample :
  1 <= 360004 /\
  calculate_exp_for_level 360004 = 21600360001 /\
  Z.sqrt (10000 * 360004 ^ 3) = 21600360000 /\
  ~ is_floor_100_pow_1_5 360004 (calculate_exp_for_level 360004).
Proof.
  assert (E : calculate_exp_for_level 360004 = 21600360001)
    by (vm_compute; reflexivity).
  split; [lia|]. split; [exact E|]. split; [vm_compute; reflexivity|].
  rewrite E. unfold is_floor_100_pow_1_5. lia.
Qed.

(** ** Stat aggregator *)























(** ** Combat rounds *)

(** *** Loops *)

Lemma loop_invariant {S : Type} (guard : S -> bool) (round : S -> S)
    (Inv : S -> Prop) :
  (forall s, guard s = true -> Inv s -> Inv (round s)) ->
  forall fuel s, Inv s -> Inv (loop guard round fuel s).
Proof.
  intros Hstep. induction fuel as [|fuel IH]; intros s Hs; cbn [loop].
  - exact Hs.
  - destruct (guard s) eqn:E; [apply IH, Hstep; assumption | exact Hs].
Qed.

(** A loop whose rounds shrink a measure exits through its guard once
    the fuel covers the measure. *)
Lemma loop_exits {S : Type} (guard : S -> bool) (round : S -> S)
    (measure : S -> nat) :
  (forall s, guard s = true -> (measure (round s) < measure s)%nat) ->
  forall fuel s, (measure s <= fuel)%nat ->
    guard (loop guard round fuel s) = false.
Proof.
  intros Hstep. induction fuel as [|fuel IH]; intros s Hm; cbn [loop].
  - destruct (guard s) eqn:E; [|reflexivity].
    specialize (Hstep s E). lia.
  - destruct (guard s) eqn:E; [|exact E].
    apply IH. specialize (Hstep s E). lia.
Qed.


Lemma fighting_true (f : fight) :
  fighting f = true <-> (0 < hp_a f)%Q /\ (0 < hp_b f)%Q /\ rounds f < 20.
Proof.
  unfold fighting. rewrite !andb_true_iff, !Qltb_lt, Z.ltb_lt. tauto.
Qed.

Lemma fighting_false (f : fight) :
  fighting f = false <-> (hp_a f <= 0)%Q \/ (hp_b f <= 0)%Q \/ 20 <= rounds f.
Proof.
  unfold fighting. rewrite !andb_false_iff, !Qltb_ge, Z.ltb_ge. tauto.
Qed.

Lemma Qfloor_half (n : Z) : Qfloor (inject_Z n / 2) = n / 2.
Proof.
  unfold Qfloor, Qdiv, Qmult, Qinv, inject_Z. cbn. now rewrite Z.mul_1_r.
Qed.

Lemma spec_damage_ge_1 (a d : Q) (c : bool) : (1 <= spec_damage a d c)%Q.
Proof.
  unfold spec_damage. cbv zeta.
  pose proof (Q.le_max_l 1 (a - inject_Z (Qfloor (d / 2)))) as H.
  destruct c; lra.
Qed.

Lemma max1_spec_damage (a d : Q) :
  (max1 (a - floordiv2 d) == spec_damage a d false)%Q.
Proof. unfold spec_damage, floordiv2. apply max1_Qmax. Qed.

Lemma max1_spec_damage_crit (a d : Q) :
  (max1 (a - floordiv2 d) * 2 == spec_damage a d true)%Q.
Proof. unfold spec_damage, floordiv2. rewrite max1_Qmax. ring. Qed.

Lemma pve_round_rounds ps n m f : rounds (pve_round ps n m f) = rounds f + 1.
Proof.
  unfold pve_round. cbn [random].
  repeat match goal with |- context [if ?c then _ else _] => destruct c end;
    reflexivity.
Qed.

Lemma draw_0 (g : rng) : draw g 0 = draws g (cursor g).
Proof. unfold draw. now rewrite Nat.add_0_r. Qed.

Lemma draw_1 (g : rng) : draw g 1 = draws g (S (cursor g)).
Proof. unfold draw. now rewrite Nat.add_1_r. Qed.

Lemma draw_2 (g : rng) : draw g 2 = draws g (S (S (cursor g))).
Proof. unfold draw. f_equal. lia. Qed.

Lemma draw_3 (g : rng) : draw g 3 = draws g (S (S (S (cursor g)))).
Proof. unfold draw. f_equal. lia. Qed.

(** The player's hit in a round of [battle_calculation]. *)
Lemma pve_round_hp_b ps n m f :
  (hp_b (pve_round ps n m f)
   == hp_b f
      - spec_damage (ps !!! "damage") (inject_Z (monster_defense m))
          (Qltb (draw (gen f) 0) (ps !!! "critical_chance" / 100)))%Q.
Proof.
  rewrite draw_0. unfold pve_round. cbn [random draws cursor].
  set (crit := Qltb _ (ps !!! "critical_chance" / 100)).
  assert (H : ((if crit
                then max1 (ps !!! "damage" - inject_Z (monster_defense m / 2)) * 2
                else max1 (ps !!! "damage" - inject_Z (monster_defense m / 2)))
               == spec_damage (ps !!! "damage") (inject_Z (monster_defense m)) crit)%Q).
  { rewrite <- Qfloor_half. fold (floordiv2 (inject_Z (monster_defense m))).
    destruct crit; [apply max1_spec_damage_crit | apply max1_spec_damage]. }
  split_ifs; cbn [hp_b]; rewrite <- H; reflexivity.
Qed.

(** The monster's answer in a round of [battle_calculation]. *)
Lemma pve_round_hp_a ps n m f :
  (hp_a (pve_round ps n m f)
   == if Qltb 0 (hp_b (pve_round ps n m f)) then
        if Qltb (draw (gen f) 1) (ps !!! "dodge_chance" / 100) then hp_a f
        else hp_a f - spec_damage (inject_Z (monster_damage m))
                                  (ps !!! "defense") false
      else hp_a f)%Q.
Proof.
  rewrite draw_1. unfold pve_round. cbn [random draws cursor].
  pose proof (max1_spec_damage (inject_Z (monster_damage m)) (ps !!! "defense")) as H.
  destruct (Qltb 0 (hp_b f - _)) eqn:Ealive.
  - destruct (Qltb _ (ps !!! "dodge_chance" / 100)) eqn:Edodge;
      cbn [hp_a hp_b]; rewrite Ealive; [reflexivity|].
    rewrite H. reflexivity.
  - cbn [hp_a hp_b]. rewrite Ealive. reflexivity.
Qed.

Lemma pvp_round_rounds ps os pn on f :
  rounds (pvp_round ps os pn on f) = rounds f + 1.
Proof. unfold pvp_round. cbn [random]. split_ifs; reflexivity. Qed.


(** The opponent's answer in a round of [process_pvp_attack]. *)
Lemma pvp_round_hp_a ps os pn on f :
  (hp_a (pvp_round ps os pn on f)
   == if Qltb 0 (hp_b (pvp_round ps os pn on f)) then
        spec_attack os ps (draw (gen f) 2) (draw (gen f) 3) (hp_a f)
      else hp_a f)%Q.
Proof.
  rewrite draw_2, draw_3. unfold pvp_round, spec_attack.
  cbn [random draws cursor].
  set (hp := if Qltb _ (os !!! "dodge_chance" / 100) then hp_b f else _).
  set (crit := Qltb _ (os !!! "critical_chance" / 100)).
  set (dodge := Qltb _ (ps !!! "dodge_chance" / 100)).
  assert (H : ((if crit
                then max1 (os !!! "damage" - floordiv2 (ps !!! "defense")) * 2
                else max1 (os !!! "damage" - floordiv2 (ps !!! "defense")))
               == spec_damage (os !!! "damage") (ps !!! "defense") crit)%Q)
    by (destruct crit; [apply max1_spec_damage_crit | apply max1_spec_damage]).
  destruct (Qltb 0 hp) eqn:Ealive; cbn [hp_a hp_b]; rewrite Ealive;
    [|reflexivity].
  destruct dodge; [reflexivity|]. rewrite <- H. reflexivity.
Qed.

(** The three moves of a round of [dungeon_battle]. *)
Lemma dungeon_player_move_spec ps n m f :
  hp_a (dungeon_player_move ps n m f) = hp_a f /\
  rounds (dungeon_player_move ps n m f) = rounds f /\
  (hp_b (dungeon_player_move ps n m f)
   == hp_b f
      - spec_damage (ps !!! "damage") (inject_Z (monster_defense m))
          (Qltb (draw (gen f) 0) (ps !!! "critical_chance" / 100)))%Q.
Proof.
  rewrite draw_0. unfold dungeon_player_move. cbn [random draws cursor hp_a hp_b rounds].
  repeat split.
  set (crit := Qltb _ (ps !!! "critical_chance" / 100)).
  rewrite <- Qfloor_half. fold (floordiv2 (inject_Z (monster_defense m))).
  destruct crit; [rewrite <- max1_spec_damage_crit | rewrite <- max1_spec_damage];
    reflexivity.
Qed.

Lemma dungeon_monster_move_spec ps n m f :
  hp_b (dungeon_monster_move ps n m f) = hp_b f /\
  rounds (dungeon_monster_move ps n m f) = rounds f /\
  (hp_a (dungeon_monster_move ps n m f)
   == if Qltb 0 (hp_b f) then
        if Qltb (draw (gen f) 0) (ps !!! "dodge_chance" / 100) then hp_a f
        else hp_a f - spec_damage (inject_Z (monster_damage m))
                                  (ps !!! "defense") false
      else hp_a f)%Q.
Proof.
  rewrite draw_0. unfold dungeon_monster_move. cbn [random draws cursor].
  pose proof (max1_spec_damage (inject_Z (monster_damage m)) (ps !!! "defense")) as H.
  destruct (Qltb 0 (hp_b f)); [|repeat split; reflexivity].
  destruct (Qltb _ (ps !!! "dodge_chance" / 100)); cbn [hp_a hp_b rounds];
    repeat split; try reflexivity.
  rewrite H. reflexivity.
Qed.

Lemma dungeon_pet_move_rounds d :
  rounds (df_fight (dungeon_pet_move d)) = rounds (df_fight d).
Proof.
  unfold dungeon_pet_move. destruct (df_pet d) as [pe|]; [|reflexivity].
  destruct (Qltb 0 (hp_b (df_fight d))); [|reflexivity].
  destruct (DungeonPetEffect.use_combat_ability _ _ _) as [[[a bs] pe'] g].
  reflexivity.
Qed.

Lemma dungeon_round_rounds ps n m d :
  rounds (df_fight (dungeon_round ps n m d)) = rounds (df_fight d) + 1.
Proof.
  unfold dungeon_round. cbn [df_fight rounds].
  destruct (dungeon_monster_move_spec ps n m
    (df_fight (dungeon_pet_move
       {| df_fight := dungeon_player_move ps n m (df_fight d);
          df_player_max_hp := df_player_max_hp d;
          df_monster_max_hp := df_monster_max_hp d;
          df_pet := df_pet d |}))) as (_ & -> & _).
  rewrite dungeon_pet_move_rounds. cbn [df_fight].
  now destruct (dungeon_player_move_spec ps n m (df_fight d)) as (_ & -> & _).
Qed.

(** ** Combat loops and verdicts *)

(** A combat loop started at round 0 leaves through its guard, within
    the 20 units of fuel, and with a round count between 0 and 20. *)
Lemma fight_loop_exit {S : Type} (view : S -> fight) (round : S -> S) :
  (forall s, rounds (view (round s)) = rounds (view s) + 1) ->
  forall s0, rounds (view s0) = 0 ->
    fighting (view (loop (fun s => fighting (view s)) round 20 s0)) = false /\
    0 <= rounds (view (loop (fun s => fighting (view s)) round 20 s0)) <= 20.
Proof.
  intros Hr s0 H0. split.
  - apply (loop_exits (fun s => fighting (view s)) round
             (fun s => rounds_left (view s))).
    + intros s Hg. apply fighting_true in Hg. unfold rounds_left.
      rewrite Hr. lia.
    + unfold rounds_left. rewrite H0. cbn. lia.
  - apply (loop_invariant (fun s => fighting (view s)) round
             (fun s => 0 <= rounds (view s) <= 20)).
    + intros s Hg Hs. apply fighting_true in Hg. rewrite Hr. lia.
    + lia.
Qed.

Lemma both_alive_at_exit (f : fight) :
  fighting f = false -> 0 <= rounds f <= 20 ->
  (0 < hp_a f)%Q -> (0 < hp_b f)%Q ->
  rounds f = 20 /\ victory (result_of f) = true.
Proof.
  intros Hg Hr Ha Hb. apply fighting_false in Hg.
  split.
  - destruct Hg as [Hg|[Hg|Hg]]; [lra | lra | lia].
  - cbn. now apply Qltb_lt.
Qed.

Lemma pve_exit_spec player monster s g :
  fighting (pve_exit player monster s g) = false /\
  0 <= rounds (pve_exit player monster s g) <= 20.
Proof.
  unfold pve_exit.
  apply (fight_loop_exit (fun f => f)); [|reflexivity].
  intros f. apply pve_round_rounds.
Qed.

Lemma pvp_exit_spec player opponent s g :
  fighting (pvp_exit player opponent s g) = false /\
  0 <= rounds (pvp_exit player opponent s g) <= 20.
Proof.
  unfold pvp_exit.
  apply (fight_loop_exit (fun f => f)); [|reflexivity].
  intros f. apply pvp_round_rounds.
Qed.

Lemma dungeon_exit_spec player monster s g :
  fighting (df_fight (dungeon_exit player monster s g)) = false /\
  0 <= rounds (df_fight (dungeon_exit player monster s g)) <= 20.
Proof.
  unfold dungeon_exit.
  apply (fight_loop_exit df_fight); [|reflexivity].
  intros d. apply dungeon_round_rounds.
Qed.

(** The columns a level-up does not touch. *)
Lemma level_loop_frame (fuel : nat) :
  forall (p : Player.t) (flag : bool),
    let q := fst (Player.level_loop fuel p flag) in
    Player.id q = Player.id p /\ Player.name q = Player.name p /\
    Player.batons q = Player.batons p /\ Player.energy q = Player.energy p /\
    Player.health q = Player.health p /\
    Player.pvp_rating q = Player.pvp_rating p /\
    Player.wins q = Player.wins p /\ Player.losses q = Player.losses p /\
    Player.experience q = Player.experience p.
Proof.
  induction fuel as [|fuel IH]; intros p flag; cbn [Player.level_loop].
  - cbn. tauto.
  - destruct (Player.get_next_level_exp p <=? Player.experience p).
    + specialize (IH (Player.level_up_once p) true). cbn in IH |- *. exact IH.
    + cbn. tauto.
Qed.

Lemma add_experience_frame (p : Player.t) (amount : Z) :
  let q := fst (Player.add_experience p amount) in
  Player.id q = Player.id p /\ Player.name q = Player.name p /\
  Player.batons q = Player.batons p /\ Player.energy q = Player.energy p /\
  Player.health q = Player.health p /\
  Player.pvp_rating q = Player.pvp_rating p /\
  Player.wins q = Player.wins p /\ Player.losses q = Player.losses p.
Proof.
  unfold Player.add_experience.
  pose proof (level_loop_frame (Player.level_fuel (Player.gain p amount))
                (Player.gain p amount) false) as H.
  cbv zeta in H |- *. cbn [Player.gain Player.id Player.name Player.batons
    Player.energy Player.health Player.pvp_rating Player.wins Player.losses] in H.
  tauto.
Qed.

Section PvPFacts.
Variable calculate_rating_change : Z -> Z -> bool -> Z.

(** What [process_pvp_attack] does once the energy is paid: it
    commits, announces a victory exactly when the player's health at
    the exit of the loop is positive, and books the win and the loss. *)
Lemma pvp_verdict (w : pvp_world) (s : Session) (g : rng) :
  20 <= Player.energy (pw_player w) ->
  let paid := Player.set_energy (pw_player w) (Player.energy (pw_player w) - 20) in
  let f := pvp_exit paid (pw_opponent w) s g in
  let h := fst (process_pvp_attack calculate_rating_change w s g) in
  committed h = true /\
  announces_victory (reply h) = Qltb 0 (hp_a f) /\
  (Qltb 0 (hp_a f) = true ->
     Player.wins (pw_player (after h)) = Player.wins (pw_player w) + 1 /\
     Player.losses (pw_opponent (after h)) = Player.losses (pw_opponent w) + 1) /\
  (Qltb 0 (hp_a f) = false ->
     Player.losses (pw_player (after h)) = Player.losses (pw_player w) + 1 /\
     Player.wins (pw_opponent (after h)) = Player.wins (pw_opponent w) + 1).
Proof.
  intros He paid f h. subst h. unfold process_pvp_attack.
  replace (Player.energy (pw_player w) <? 20) with false
    by (symmetry; apply Z.ltb_ge; exact He).
  fold paid. fold f.
  destruct (Qltb 0 (hp_a f)) eqn:Ev.
  - destruct (randint_draw 50 100 (gen f)) as [b g1].
    destruct (randint_draw 100 200 g1) as [e g2].
    match goal with |- context [Player.add_experience ?p e] =>
      pose proof (add_experience_frame p e) as Hfr;
      destruct (Player.add_experience p e) as [q lu] end.
    cbn [fst committed reply after announces_victory pw_player pw_opponent].
    cbv zeta in Hfr. cbn in Hfr.
    split; [reflexivity|]. split; [reflexivity|]. split; [|discriminate].
    intros _. split; [tauto | reflexivity].
  - cbn [fst committed reply after announces_victory pw_player pw_opponent].
    split; [reflexivity|]. split; [reflexivity|]. split; [discriminate|].
    intros _. split; reflexivity.
Qed.
End PvPFacts.

(** Claim C1, as amended.  In [battle_calculation], [dungeon_battle] and
    [process_pvp_attack], when the loop exits with the health of both
    combatants above 0, the round count is 20 and the player who attacks
    first is declared the winner: [victory] is [True], and the PvP
    handler announces a victory and books a win for the player and a
    loss for the opponent.  There is no draw outcome. *)
Theorem round_limit_with_both_alive_is_a_victory
    (calculate_rating_change : Z -> Z -> bool -> Z)
    (player opponent : Player.t) (monster : Monster) (s : Session) (g : rng) :
  let pve := pve_exit player monster s g in
  let dun := df_fight (dungeon_exit player monster s g) in
  let paid := Player.set_energy player (Player.energy player - 20) in
  let pvp := pvp_exit paid opponent s g in
  let handled :=
    fst (process_pvp_attack calculate_rating_change
           {| pw_player := player; pw_opponent := opponent |} s g) in
  ((0 < hp_a pve)%Q -> (0 < hp_b pve)%Q ->
   rounds pve = 20 /\
   victory (battle_calculation player monster s g) = true) /\
  ((0 < hp_a dun)%Q -> (0 < hp_b dun)%Q ->
   rounds dun = 20 /\
   victory (dungeon_battle player monster s g) = true) /\
  (20 <= Player.energy player -> (0 < hp_a pvp)%Q -> (0 < hp_b pvp)%Q ->
   rounds pvp = 20 /\
   announces_victory (reply handled) = true /\
   Player.wins (pw_player (after handled)) = Player.wins player + 1 /\
   Player.losses (pw_opponent (after handled)) = Player.losses opponent + 1).
Proof.
  intros pve dun paid pvp handled. split; [|split].
  - intros Ha Hb.
    destruct (pve_exit_spec player monster s g) as [Hg Hr].
    exact (both_alive_at_exit pve Hg Hr Ha Hb).
  - intros Ha Hb.
    destruct (dungeon_exit_spec player monster s g) as [Hg Hr].
    exact (both_alive_at_exit dun Hg Hr Ha Hb).
  - intros He Ha Hb.
    destruct (pvp_exit_spec paid opponent s g) as [Hg Hr].
    destruct (both_alive_at_exit pvp Hg Hr Ha Hb) as [H20 _].
    destruct (pvp_verdict calculate_rating_change
                {| pw_player := player; pw_opponent := opponent |} s g He)
      as (_ & Hv & Hw & _).
    cbn [pw_player pw_opponent] in Hv, Hw. fold paid pvp handled in Hv, Hw.
    apply Qltb_lt in Ha. rewrite Ha in Hv.
    split; [exact H20|]. split; [exact Hv|]. exact (Hw Ha).
Qed.

(** Claim C1 as stated fails: the novice against the training dummy, with
    no critical hit and no dodge, reaches round 20 with 80 and 600
    health left, and [battle_calculation] declares the player the
    winner. *)
Lemma round_limit_draw_counterexample :
  let f := pve_exit novice training_dummy empty_session steady in
  let r := battle_calculation novice training_dummy empty_session steady in
  rounds f = 20 /\ (0 < hp_a f)%Q /\ (0 < hp_b f)%Q /\
  victory r = true /\ victory r <> false.
Proof. vm_compute. repeat split; try reflexivity. discriminate. Qed.

Example training_fight_result :
  let r := battle_calculation novice training_dummy empty_session steady in
  (remaining_hp r == 80)%Q /\ result_rounds r = 20 /\
  (hp_b (pve_exit novice training_dummy empty_session steady) == 600)%Q.
Proof. vm_compute. repeat split; reflexivity. Qed.

(** ** One side stays alive *)

(** A round whose defender falls leaves the attacker's health alone. *)
Lemma pve_round_keeps_one_alive ps n m f :
  fighting f = true ->
  (0 < hp_a (pve_round ps n m f))%Q \/ (0 < hp_b (pve_round ps n m f))%Q.
Proof.
  intros Hg. apply fighting_true in Hg. destruct Hg as (Ha & _ & _).
  pose proof (pve_round_hp_a ps n m f) as H.
  destruct (Qltb 0 (hp_b (pve_round ps n m f))) eqn:E.
  - right. now apply Qltb_lt.
  - left. rewrite H. exact Ha.
Qed.

Lemma pvp_round_keeps_one_alive ps os pn on f :
  fighting f = true ->
  (0 < hp_a (pvp_round ps os pn on f))%Q \/ (0 < hp_b (pvp_round ps os pn on f))%Q.
Proof.
  intros Hg. apply fighting_true in Hg. destruct Hg as (Ha & _ & _).
  pose proof (pvp_round_hp_a ps os pn on f) as H.
  destruct (Qltb 0 (hp_b (pvp_round ps os pn on f))) eqn:E.
  - right. now apply Qltb_lt.
  - left. rewrite H. exact Ha.
Qed.

(** *** The companion's move *)

Lemma choice_In {A} (xs : list A) (g g' : rng) (x : A) :
  choice xs g = Some (x, g') -> In x xs.
Proof.
  unfold choice. cbn [random].
  destruct (xs !! _) as [y|] eqn:E; [|discriminate].
  intros [= <- _]. apply list_elem_of_In. eapply list_elem_of_lookup_2. exact E.
Qed.

Lemma available_abilities_In (pe : DungeonPetEffect.t) (a : PetAbility) :
  In a (DungeonPetEffect.available_abilities pe) ->
  In a (abilities (PlayerPet.pet (DungeonPetEffect.player_pet pe))).
Proof.
  unfold DungeonPetEffect.available_abilities. intros H.
  apply filter_In in H. tauto.
Qed.

Lemma py_min_bounds (x cap : Q) :
  (0 < x)%Q -> (0 < cap)%Q ->
  (0 < py_min x cap)%Q /\ (py_min x cap <= cap)%Q.
Proof.
  intros Hx Hc. unfold py_min. destruct (Qltb cap x) eqn:E.
  - split; lra.
  - apply Qltb_ge in E. split; lra.
Qed.

(** The companion's ability, when its heal is not negative, leaves a
    living player alive and within the recorded maximum, and keeps the
    companion and the maxima. *)
Lemma use_combat_ability_spec (pe : DungeonPetEffect.t) (bs : battle_state)
    (g : rng) :
  heals_nonneg (DungeonPetEffect.player_pet pe) ->
  (0 < player_hp bs)%Q -> (player_hp bs <= player_max_hp bs)%Q ->
  let '(_, bs', pe', _) := DungeonPetEffect.use_combat_ability pe bs g in
  (0 < player_hp bs')%Q /\ (player_hp bs' <= player_max_hp bs')%Q /\
  player_max_hp bs' = player_max_hp bs /\
  DungeonPetEffect.player_pet pe' = DungeonPetEffect.player_pet pe.
Proof.
  intros Hh Hp Hm. unfold DungeonPetEffect.use_combat_ability.
  destruct (DungeonPetEffect.available_abilities pe) as [|a0 l] eqn:Eav.
  - repeat split; assumption.
  - destruct (choice (a0 :: l) g) as [[a g']|] eqn:Ech.
    + apply choice_In in Ech. rewrite <- Eav in Ech.
      apply available_abilities_In in Ech.
      cbn [DungeonPetEffect.player_pet].
      destruct (assoc_find "heal" (ability_effect a)) as [h|] eqn:Eheal.
      * specialize (Hh a h Ech Eheal).
        destruct (assoc_find "damage" (ability_effect a));
          cbn [player_hp player_max_hp];
          (destruct (py_min_bounds (player_hp bs + h) (player_max_hp bs));
           [lra | lra | repeat split; assumption]).
      * destruct (assoc_find "damage" (ability_effect a));
          cbn [player_hp player_max_hp]; repeat split; assumption.
    + repeat split; assumption.
Qed.

Lemma dungeon_pet_move_spec (d : dungeon_fight) :
  (0 < hp_a (df_fight d))%Q ->
  (hp_a (df_fight d) <= df_player_max_hp d)%Q ->
  (forall pe, df_pet d = Some pe ->
              heals_nonneg (DungeonPetEffect.player_pet pe)) ->
  (0 < hp_a (df_fight (dungeon_pet_move d)))%Q /\
  (hp_a (df_fight (dungeon_pet_move d)) <= df_player_max_hp (dungeon_pet_move d))%Q /\
  (forall pe, df_pet (dungeon_pet_move d) = Some pe ->
              heals_nonneg (DungeonPetEffect.player_pet pe)).
Proof.
  intros Ha Hm Hh. unfold dungeon_pet_move.
  destruct (df_pet d) as [pe|] eqn:Epet; [|rewrite Epet; tauto].
  destruct (Qltb 0 (hp_b (df_fight d))); [|rewrite Epet; tauto].
  pose proof (use_combat_ability_spec pe
    {| player_hp := hp_a (df_fight d); player_max_hp := df_player_max_hp d;
       monster_hp := hp_b (df_fight d); monster_max_hp := df_monster_max_hp d |}
    (gen (df_fight d)) (Hh pe eq_refl) Ha Hm) as H.
  destruct (DungeonPetEffect.use_combat_ability _ _ _) as [[[act bs] pe'] g'].
  destruct H as (H1 & H2 & H3 & H4).
  cbn [df_fight df_player_max_hp df_pet hp_a].
  split; [exact H1|]. split; [exact H2|].
  intros pe0 [= <-]. rewrite H4. exact (Hh pe eq_refl).
Qed.

Lemma dungeon_round_invariant ps n m d :
  fighting (df_fight d) = true ->
  dungeon_invariant d -> dungeon_invariant (dungeon_round ps n m d).
Proof.
  intros Hg (_ & Hm & Hh). apply fighting_true in Hg. destruct Hg as (Ha & _ & _).
  unfold dungeon_round.
  destruct (dungeon_player_move_spec ps n m (df_fight d)) as (Ea & _ & _).
  set (d1 := {| df_fight := dungeon_player_move ps n m (df_fight d);
                df_player_max_hp := df_player_max_hp d;
                df_monster_max_hp := df_monster_max_hp d;
                df_pet := df_pet d |}).
  destruct (dungeon_pet_move_spec d1) as (Ha2 & Hm2 & Hh2).
  { cbn [d1 df_fight]. rewrite Ea. exact Ha. }
  { cbn [d1 df_fight df_player_max_hp]. rewrite Ea. exact Hm. }
  { exact Hh. }
  set (d2 := dungeon_pet_move d1) in *.
  destruct (dungeon_monster_move_spec ps n m (df_fight d2)) as (Eb & _ & Ea3).
  pose proof (spec_damage_ge_1 (inject_Z (monster_damage m)) (ps !!! "defense") false) as Hd.
  unfold dungeon_invariant. cbn [df_fight df_player_max_hp df_pet hp_a hp_b].
  rewrite Eb, Ea3. split; [|split].
  - destruct (Qltb 0 (hp_b (df_fight d2))) eqn:E.
    + right. now apply Qltb_lt.
    + left. exact Ha2.
  - destruct (Qltb 0 (hp_b (df_fight d2)));
      [destruct (Qltb _ (ps !!! "dodge_chance" / 100))|]; lra.
  - intros pe. destruct (df_pet d2) as [pe2|] eqn:E2; [|discriminate].
    cbn [fmap option_fmap option_map]. intros [= <-].
    cbn [DungeonPetEffect.update_cooldowns DungeonPetEffect.player_pet].
    exact (Hh2 pe2 eq_refl).
Qed.

(** Claim C10.  When a fight starts with at least one combatant alive,
    the loop of [battle_calculation] and of [process_pvp_attack] exits
    with at most one health at or below 0: a defender that fell does
    not strike back.  The same holds for [dungeon_battle] when no
    ability of the active companion carries a negative heal. *)
Theorem no_double_knockout (player opponent : Player.t) (monster : Monster)
    (s : Session) (g : rng) :
  let pve := pve_exit player monster s g in
  let pvp := pvp_exit player opponent s g in
  let dun := df_fight (dungeon_exit player monster s g) in
  ((0 < get_total_stats player s !!! "health")%Q \/ 0 < monster_health monster ->
   (0 < hp_a pve)%Q \/ (0 < hp_b pve)%Q) /\
  ((0 < get_total_stats player s !!! "health")%Q
   \/ (0 < get_total_stats opponent s !!! "health")%Q ->
   (0 < hp_a pvp)%Q \/ (0 < hp_b pvp)%Q) /\
  ((0 < dungeon_stats player s !!! "health")%Q \/ 0 < monster_health monster ->
   (forall pp, active_pet s player = Some pp -> heals_nonneg pp) ->
   (0 < hp_a dun)%Q \/ (0 < hp_b dun)%Q).
Proof.
  intros pve pvp dun. split; [|split].
  - intros H0. subst pve. unfold pve_exit.
    apply (loop_invariant fighting _
             (fun f => (0 < hp_a f)%Q \/ (0 < hp_b f)%Q)).
    + intros f Hg _. now apply pve_round_keeps_one_alive.
    + cbn [pve_start hp_a hp_b]. destruct H0 as [H0|H0]; [now left|right].
      rewrite Zlt_Qlt in H0. exact H0.
  - intros H0. subst pvp. unfold pvp_exit.
    apply (loop_invariant fighting _
             (fun f => (0 < hp_a f)%Q \/ (0 < hp_b f)%Q)).
    + intros f Hg _. now apply pvp_round_keeps_one_alive.
    + exact H0.
  - intros H0 Hh. subst dun. unfold dungeon_exit.
    apply (loop_invariant (fun d => fighting (df_fight d)) _ dungeon_invariant).
    + intros d Hg Hd. now apply dungeon_round_invariant.
    + unfold dungeon_invariant, dungeon_start.
      cbn [df_fight df_player_max_hp df_pet hp_a hp_b].
      split; [|split].
      * destruct H0 as [H0|H0]; [now left|right].
        rewrite Zlt_Qlt in H0. exact H0.
      * lra.
      * intros pe. destruct (active_pet s player) as [pp|] eqn:E; [|discriminate].
        cbn [fmap option_fmap option_map]. intros [= <-].
        cbn [DungeonPetEffect.init DungeonPetEffect.player_pet].
        now apply Hh.
Qed.

(** ** The rules of an attack *)







(** ** Dungeon entry *)

(** The end of the cooldown, when a progress row records an attempt. *)
Lemma cooldown_end_Some (dungeon : Dungeon) (progress : option DungeonProgress)
    (e : Z) :
  cooldown_end dungeon progress = Some e <->
  exists p t, progress = Some p /\ last_attempt p = Some t /\
              e = t + cooldown dungeon * 3600.
Proof.
  unfold cooldown_end. split.
  - destruct progress as [p|]; [|discriminate].
    destruct (last_attempt p) as [t|] eqn:Et; [|discriminate].
    intros [= <-]. now exists p, t.
  - intros (p & t & -> & -> & ->). reflexivity.
Qed.

(** Claim C6.  [process_dungeon_selection] grants entry only when the
    cooldown recorded for the player (if any) has ended,
    [last_attempt + cooldown <= now] with the cooldown counted in hours,
    and the energy covers [energy_cost]; it then commits, the energy
    after it is the energy before less [energy_cost] with health, level,
    experience and batons as they were, the progress row records the
    attempt at [now] and restarts the run at room 0 with no monster
    defeated, keeping its count of completed runs and its best time.
    Before the end of the cooldown the attempt is rejected with the time
    left, and nothing is changed or committed, [last_attempt] and the
    energy included; so it is with too little energy and with an
    unknown dungeon.  With the cooldown over and enough energy the
    entry is granted. *)
Theorem dungeon_entry_is_guarded (dungeon_id : Z) (w : entry_world) (utcnow : Z) :
  let h := process_dungeon_selection dungeon_id w utcnow in
  let player := ew_player w in
  let player' := ew_player (after h) in
  let cooled (dungeon : Dungeon) :=
    forall p t, ew_progress w = Some p -> last_attempt p = Some t ->
                t + cooldown dungeon * 3600 <= utcnow in
  (reply h = Entered ->
   exists dungeon progress,
     ew_dungeon w = Some dungeon /\
     cooled dungeon /\
     energy_cost dungeon <= Player.energy player /\
     committed h = true /\
     Player.energy player' = Player.energy player - energy_cost dungeon /\
     player' = Player.set_energy player
                 (Player.energy player - energy_cost dungeon) /\
     Player.health player' = Player.health player /\
     Player.level player' = Player.level player /\
     Player.experience player' = Player.experience player /\
     Player.batons player' = Player.batons player /\
     ew_dungeon (after h) = ew_dungeon w /\
     ew_progress (after h) = Some progress /\
     last_attempt progress = Some utcnow /\
     current_progress progress
     = Some {| current_room := 0; monsters_defeated := 0;
               hp_remaining := Player.health player;
               start_time := utcnow |} /\
     (forall p, ew_progress w = Some p ->
        dp_player_id progress = dp_player_id p /\
        dp_dungeon_id progress = dp_dungeon_id p /\
        completed_times progress = completed_times p /\
        best_time progress = best_time p) /\
     (ew_progress w = None ->
        dp_player_id progress = Player.id player /\
        dp_dungeon_id progress = dungeon_id /\
        completed_times progress = 0 /\
        best_time progress = None)) /\
  (forall dungeon p t,
     ew_dungeon w = Some dungeon ->
     ew_progress w = Some p -> last_attempt p = Some t ->
     utcnow < t + cooldown dungeon * 3600 ->
     reply h = StillOnCooldown
                 ((t + cooldown dungeon * 3600 - utcnow) / 3600)
                 ((t + cooldown dungeon * 3600 - utcnow) mod 3600 / 60) /\
     committed h = false /\ after h = w /\
     ew_progress (after h) = Some p /\
     Player.energy player' = Player.energy player) /\
  (forall dungeon,
     ew_dungeon w = Some dungeon -> cooled dungeon ->
     Player.energy player < energy_cost dungeon ->
     reply h = NeedsEnergy (energy_cost dungeon) (Player.energy player) /\
     committed h = false /\ after h = w) /\
  (forall dungeon,
     ew_dungeon w = Some dungeon -> cooled dungeon ->
     energy_cost dungeon <= Player.energy player ->
     reply h = Entered) /\
  (ew_dungeon w = None ->
     reply h = DungeonNotFound /\ committed h = false /\ after h = w).
Proof.
  cbv zeta. unfold process_dungeon_selection.
  destruct (ew_dungeon w) as [dungeon|] eqn:Ed.
  2:{ cbn [reply committed after]. repeat split; try discriminate. }
  assert (Hcool : forall e, cooldown_end dungeon (ew_progress w) = Some e ->
            (utcnow <? e) = false ->
            forall p t, ew_progress w = Some p -> last_attempt p = Some t ->
                        t + cooldown dungeon * 3600 <= utcnow).
  { intros e He Hnow p t Hp Ht. apply Z.ltb_ge in Hnow.
    apply cooldown_end_Some in He as (p' & t' & Hp' & Ht' & ->).
    rewrite Hp in Hp'. injection Hp' as <-. rewrite Ht in Ht'.
    injection Ht' as <-. exact Hnow. }
  assert (Hnone : cooldown_end dungeon (ew_progress w) = None ->
            forall p t, ew_progress w = Some p -> last_attempt p = Some t ->
                        t + cooldown dungeon * 3600 <= utcnow).
  { intros He p t Hp Ht.
    assert (E : cooldown_end dungeon (ew_progress w)
                = Some (t + cooldown dungeon * 3600))
      by (apply cooldown_end_Some; now exists p, t).
    congruence. }
  assert (Hend : forall p t, ew_progress w = Some p -> last_attempt p = Some t ->
            cooldown_end dungeon (ew_progress w)
            = Some (t + cooldown dungeon * 3600)).
  { intros p t Hp Ht. apply cooldown_end_Some. now exists p, t. }
  destruct (cooldown_end dungeon (ew_progress w)) as [e|] eqn:Ec.
  - destruct (utcnow <? e) eqn:Enow.
    + pose proof Enow as Elt. apply Z.ltb_lt in Elt.
      cbn [reply committed after default from_option].
      split; [discriminate|]. split; [|split; [|split; [|discriminate]]].
      * intros d p t [= <-] Hp Ht Hlt. specialize (Hend p t Hp Ht).
        injection Hend as ->. unfold id. repeat split; try reflexivity. exact Hp.
      * intros d [= <-] Hc. exfalso.
        apply cooldown_end_Some in Ec as (p & t & Hp & Ht & ->).
        specialize (Hc p t Hp Ht). lia.
      * intros d [= <-] Hc. exfalso.
        apply cooldown_end_Some in Ec as (p & t & Hp & Ht & ->).
        specialize (Hc p t Hp Ht). lia.
    + specialize (Hcool e eq_refl Enow).
      destruct (Player.energy (ew_player w) <? energy_cost dungeon) eqn:Een.
      * apply Z.ltb_lt in Een. cbn [reply committed after].
        split; [discriminate|]. split; [|split; [|split; [|discriminate]]].
        -- intros d p t [= <-] Hp Ht Hlt. specialize (Hcool p t Hp Ht). lia.
        -- intros d [= <-] _ _. repeat split; reflexivity.
        -- intros d [= <-] _ Hle. lia.
      * apply Z.ltb_ge in Een. cbn [reply committed after ew_player ew_progress ew_dungeon].
        split; [|split; [|split; [|split; [|discriminate]]]].
        -- intros _. eexists dungeon, _.
           split; [reflexivity|]. split; [exact Hcool|]. split; [exact Een|].
           do 11 (split; [first [reflexivity | exact Ed]|]). split.
           ++ intros p ->. repeat split; reflexivity.
           ++ intros ->. repeat split; reflexivity.
        -- intros d p t [= <-] Hp Ht Hlt. specialize (Hcool p t Hp Ht). lia.
        -- intros d [= <-] _ Hlt. lia.
        -- reflexivity.
  - specialize (Hnone eq_refl).
    destruct (Player.energy (ew_player w) <? energy_cost dungeon) eqn:Een.
    + apply Z.ltb_lt in Een. cbn [reply committed after].
      split; [discriminate|]. split; [|split; [|split; [|discriminate]]].
      * intros d p t [= <-] Hp Ht Hlt. specialize (Hnone p t Hp Ht). lia.
      * intros d [= <-] _ _. repeat split; reflexivity.
      * intros d [= <-] _ Hle. lia.
    + apply Z.ltb_ge in Een. cbn [reply committed after ew_player ew_progress ew_dungeon].
      split; [|split; [|split; [|split; [|discriminate]]]].
      * intros _. eexists dungeon, _.
        split; [reflexivity|]. split; [exact Hnone|]. split; [exact Een|].
        do 11 (split; [first [reflexivity | exact Ed]|]). split.
        -- intros p ->. repeat split; reflexivity.
        -- intros ->. repeat split; reflexivity.
      * intros d p t [= <-] Hp Ht Hlt. specialize (Hnone p t Hp Ht). lia.
      * intros d [= <-] _ Hlt. lia.
      * reflexivity.
Qed.

(** ** Reward settlement *)

(** The loop over the drop table is the sequence of the entries' trials. *)
Lemma drop_fold_trials (s : Session) (player : Player.t)
    (entries : list (Z * Q)) :
  forall (added : list Inventory) (dropped : list string) (g0 : rng) (k : nat),
    fold_left (drop_step s player) entries
      (added, dropped, {| draws := draws g0; cursor := (cursor g0 + k)%nat |})
    = (added ++ (dropped_row player <$> trials s g0 k entries),
       dropped ++ ((fun won => item_name (snd won)) <$> trials s g0 k entries),
       {| draws := draws g0; cursor := (cursor g0 + (k + length entries))%nat |}).
Proof.
  induction entries as [|[item_id chance] rest IH]; intros added dropped g0 k.
  - cbn [fold_left trials fmap list_fmap length]. rewrite !app_nil_r.
    do 2 f_equal. lia.
  - cbn [fold_left trials length]. unfold drop_step at 2.
    cbn [random draws cursor]. unfold trial. cbn [fst snd].
    change (draws g0 (cursor g0 + k)%nat) with (draw g0 k).
    replace (S (cursor g0 + k)) with (cursor g0 + S k)%nat by lia.
    destruct (Qltb (draw g0 k) chance).
    + destruct (items s !! item_id) as [item|];
        cbn [fmap option_fmap option_map]; rewrite IH.
      * rewrite !fmap_cons, <- !app_assoc. cbn [app fst snd dropped_row].
        do 2 f_equal. lia.
      * do 2 f_equal. lia.
    + rewrite IH. do 2 f_equal. lia.
Qed.

Lemma trial_certain (s : Session) (r : Q) (item_id : Z) (chance : Q) (item : Item) :
  (r < 1)%Q -> (1 <= chance)%Q -> items s !! item_id = Some item ->
  trial s r (item_id, chance) = Some (item_id, item).
Proof.
  intros Hr Hc Hi. unfold trial. cbn [fst snd].
  replace (Qltb r chance) with true by (symmetry; apply Qltb_lt; lra).
  now rewrite Hi.
Qed.

Lemma trial_impossible (s : Session) (r : Q) (item_id : Z) (chance : Q) :
  (0 <= r)%Q -> (chance <= 0)%Q -> trial s r (item_id, chance) = None.
Proof.
  intros Hr Hc. unfold trial. cbn [fst snd].
  now replace (Qltb r chance) with false by (symmetry; apply Qltb_ge; lra).
Qed.

Lemma trial_id (s : Session) (r : Q) (entry : Z * Q) (won : Z * Item) :
  trial s r entry = Some won -> fst won = fst entry.
Proof.
  unfold trial. destruct (Qltb r (snd entry)); [|discriminate].
  destruct (items s !! fst entry); [|discriminate]. now intros [= <-].
Qed.

Lemma trials_certain (s : Session) (g : rng) (entries : list (Z * Q))
    (item_id : Z) (chance : Q) (item : Item) :
  unit_draws g -> In (item_id, chance) entries -> (1 <= chance)%Q ->
  items s !! item_id = Some item ->
  forall i, In (item_id, item) (trials s g i entries).
Proof.
  intros Hu Hin Hc Hi. induction entries as [|e rest IH]; [contradiction|].
  intros i. cbn [trials]. destruct Hin as [->|Hin].
  - rewrite (trial_certain s _ item_id chance item); [now left | | exact Hc | exact Hi].
    apply Hu.
  - destruct (trial s (draw g i) e); [right|]; now apply IH.
Qed.

Lemma trials_ids (s : Session) (g : rng) (entries : list (Z * Q)) (won : Z * Item) :
  forall i, In won (trials s g i entries) ->
    exists chance k, In (fst won, chance) entries /\
                     trial s (draw g k) (fst won, chance) = Some won.
Proof.
  induction entries as [|e rest IH]; intros i Hin; [contradiction|].
  cbn [trials] in Hin.
  destruct (trial s (draw g i) e) as [w|] eqn:E.
  - destruct Hin as [->|Hin].
    + exists (snd e), i. pose proof (trial_id _ _ _ _ E) as Hid.
      rewrite Hid. rewrite <- surjective_pairing. split; [now left | exact E].
    + destruct (IH _ Hin) as (c & k & H1 & H2). exists c, k. split; [now right|exact H2].
  - destruct (IH _ Hin) as (c & k & H1 & H2). exists c, k. split; [now right|exact H2].
Qed.

Lemma Qfloor_iff (x : Q) (k : Z) :
  Qfloor x = k <-> (inject_Z k <= x)%Q /\ (x < inject_Z (k + 1))%Q.
Proof.
  split.
  - intros <-. split; [apply Qfloor_le | apply Qlt_floor].
  - intros [Hl Hu].
    pose proof (Qfloor_le x) as H1. pose proof (Qlt_floor x) as H2.
    assert (Ha : (inject_Z k < inject_Z (Qfloor x + 1))%Q) by lra.
    assert (Hb : (inject_Z (Qfloor x) < inject_Z (k + 1))%Q) by lra.
    rewrite <- Zlt_Qlt in Ha, Hb. lia.
Qed.

Lemma randint_draw_spec (a b : Z) (g : rng) :
  a <= b -> (0 <= draw g 0)%Q -> (draw g 0 < 1)%Q ->
  a <= fst (randint_draw a b g) <= b /\
  (forall v, fst (randint_draw a b g) = v <->
     (inject_Z (v - a) <= draw g 0 * inject_Z (b - a + 1))%Q /\
     (draw g 0 * inject_Z (b - a + 1) < inject_Z (v - a + 1))%Q) /\
  snd (randint_draw a b g) = {| draws := draws g; cursor := (cursor g + 1)%nat |}.
Proof.
  intros Hab H0 H1. unfold randint_draw. cbn [random fst snd].
  rewrite draw_0 in H0, H1.
  set (r := draws g (cursor g)) in *.
  assert (Hn : (1 <= inject_Z (b - a + 1))%Q)
    by (change 1%Q with (inject_Z 1); rewrite <- Zle_Qle; lia).
  split; [|split].
  - pose proof (Qfloor_le (r * inject_Z (b - a + 1))) as Hf1.
    pose proof (Qlt_floor (r * inject_Z (b - a + 1))) as Hf2.
    assert (Hlo : (0 <= r * inject_Z (b - a + 1))%Q) by nra.
    assert (Hhi : (r * inject_Z (b - a + 1) < inject_Z (b - a + 1))%Q) by nra.
    assert (Ha : (inject_Z 0 < inject_Z (Qfloor (r * inject_Z (b - a + 1)) + 1))%Q)
      by (change (inject_Z 0) with 0%Q; lra).
    assert (Hb : (inject_Z (Qfloor (r * inject_Z (b - a + 1))) < inject_Z (b - a + 1))%Q)
      by lra.
    rewrite <- Zlt_Qlt in Ha, Hb. lia.
  - intros v. rewrite draw_0. fold r.
    rewrite <- (Qfloor_iff (r * inject_Z (b - a + 1)) (v - a)). lia.
  - f_equal. lia.
Qed.

Lemma unique_chance (entries : list (Z * Q)) (item_id : Z) (c c' : Q) :
  NoDup (fst <$> entries) ->
  In (item_id, c) entries -> In (item_id, c') entries -> c = c'.
Proof.
  induction entries as [|[i x] rest IH]; [contradiction|].
  rewrite fmap_cons. cbn [fst]. intros Hnd H1 H2.
  apply NoDup_cons in Hnd. destruct Hnd as [Hni Hnd].
  assert (Hout : forall y, In (i, y) rest -> False).
  { intros y Hy. apply Hni. apply list_elem_of_fmap. exists (i, y).
    split; [reflexivity | now apply list_elem_of_In]. }
  cbn [In] in H1, H2.
  destruct H1 as [E1|H1], H2 as [E2|H2].
  - congruence.
  - injection E1 as -> ->. exfalso. eauto.
  - injection E2 as -> ->. exfalso. eauto.
  - now apply IH.
Qed.

(** Claim C7.  In [process_battle_rewards], with the reward range not
    empty and draws from [0, 1): the currency lies in
    [[baton_reward_min, baton_reward_max]] and takes the value [v]
    exactly when the first draw falls in the [v]-th of the equal parts
    of the unit interval; the experience is the monster's
    [experience_reward]; every entry of the drop table is a trial of
    its own, on a draw of its own, won when the draw is below the
    listed probability; the names returned and the inventory rows added
    are those of the trials won.  An entry of probability 1 whose item
    is in the item table always yields it, so several entries can yield
    at one kill; an entry of probability 0 never does (the keys of the
    table being distinct). *)
Theorem battle_rewards_follow_the_tables (player : Player.t) (monster : Monster)
    (s : Session) (g : rng) :
  baton_reward_min monster <= baton_reward_max monster ->
  unit_draws g ->
  exists player' s' r g',
    process_battle_rewards player monster s g = Some (player', s', r, g') /\
    baton_reward_min monster <= rw_batons r <= baton_reward_max monster /\
    (forall v, rw_batons r = v <->
       (inject_Z (v - baton_reward_min monster)
        <= draw g 0 * inject_Z (baton_reward_max monster
                                - baton_reward_min monster + 1))%Q /\
       (draw g 0 * inject_Z (baton_reward_max monster
                             - baton_reward_min monster + 1)
        < inject_Z (v - baton_reward_min monster + 1))%Q) /\
    Player.batons player' = Player.batons player + rw_batons r /\
    rw_experience r = experience_reward monster /\
    let entries := default [] (drop_table monster) in
    let won := trials s g 1 entries in
    dropped_items r = (fun w => item_name (snd w)) <$> won /\
    inventory s' = inventory s ++ (dropped_row player' <$> won) /\
    (forall item_id chance item,
       In (item_id, chance) entries -> (1 <= chance)%Q ->
       items s !! item_id = Some item -> In (item_id, item) won) /\
    (forall item_id chance item,
       In (item_id, chance) entries -> (chance <= 0)%Q ->
       NoDup (fst <$> entries) -> ~ In (item_id, item) won).
Proof.
  intros Hmm Hu. unfold process_battle_rewards, randint.
  replace (baton_reward_max monster <? baton_reward_min monster) with false
    by (symmetry; apply Z.ltb_ge; exact Hmm).
  destruct (randint_draw_spec (baton_reward_min monster) (baton_reward_max monster) g
              Hmm (proj1 (Hu _)) (proj2 (Hu _))) as (Hrange & Hval & Hg).
  destruct (randint_draw _ _ g) as [baton_reward g1]. cbn [fst snd] in Hrange, Hval, Hg.
  subst g1.
  pose proof (add_experience_frame player (experience_reward monster)) as Hfr.
  destruct (Player.add_experience player (experience_reward monster)) as [q lu].
  cbv zeta in Hfr. cbn [fst] in Hfr. destruct Hfr as (Hid & _ & Hbat & _).
  set (player' := Player.set_batons q (Player.batons q + baton_reward)).
  set (entries := default [] (drop_table monster)).
  assert (Hfold :
    match drop_table monster with
    | Some entries0 =>
        fold_left (drop_step s player') entries0
          ([], [], {| draws := draws g; cursor := (cursor g + 1)%nat |})
    | None => ([], [], {| draws := draws g; cursor := (cursor g + 1)%nat |})
    end
    = (dropped_row player' <$> trials s g 1 entries,
       (fun w => item_name (snd w)) <$> trials s g 1 entries,
       {| draws := draws g; cursor := (cursor g + (1 + length entries))%nat |})).
  { subst entries. destruct (drop_table monster) as [entries0|]; cbn [default].
    - apply (drop_fold_trials s player' entries0 [] [] g 1%nat).
    - cbn [trials fmap list_fmap length]. do 2 f_equal. }
  rewrite Hfold.
  eexists player', _, _, _. split; [reflexivity|].
  cbn [rw_batons rw_experience dropped_items inventory set_inventory].
  split; [exact Hrange|]. split; [exact Hval|].
  split; [cbn; lia|]. split; [reflexivity|].
  split; [reflexivity|]. split; [reflexivity|]. split.
  - intros item_id chance item Hin Hc Hi.
    now apply (trials_certain s g entries item_id chance item Hu Hin Hc Hi).
  - intros item_id chance item Hin Hc Hnd Hwon.
    destruct (trials_ids s g entries (item_id, item) 1%nat Hwon)
      as (c' & k & Hin' & Htr).
    cbn [fst] in Hin', Htr.
    rewrite <- (unique_chance entries item_id chance c' Hnd Hin Hin') in Htr.
    rewrite trial_impossible in Htr; [discriminate | apply Hu | exact Hc].
Qed.

Lemma steady_unit_draws : unit_draws steady.
Proof. intros i. cbn. split; lra. Qed.

(** The theorem of C7 at the novice's kill of the wolf. *)
Lemma battle_rewards_follow_the_tables_witness :
  exists player' s' r g',
    process_battle_rewards novice wolf loot_session steady
    = Some (player', s', r, g') /\
    baton_reward_min wolf <= rw_batons r <= baton_reward_max wolf /\
    (forall v, rw_batons r = v <->
       (inject_Z (v - baton_reward_min wolf)
        <= draw steady 0 * inject_Z (baton_reward_max wolf
                                - baton_reward_min wolf + 1))%Q /\
       (draw steady 0 * inject_Z (baton_reward_max wolf
                             - baton_reward_min wolf + 1)
        < inject_Z (v - baton_reward_min wolf + 1))%Q) /\
    Player.batons player' = Player.batons novice + rw_batons r /\
    rw_experience r = experience_reward wolf /\
    let entries := default [] (drop_table wolf) in
    let won := trials loot_session steady 1 entries in
    dropped_items r = (fun w => item_name (snd w)) <$> won /\
    inventory s' = inventory loot_session ++ (dropped_row player' <$> won) /\
    (forall item_id chance item,
       In (item_id, chance) entries -> (1 <= chance)%Q ->
       items loot_session !! item_id = Some item -> In (item_id, item) won) /\
    (forall item_id chance item,
       In (item_id, chance) entries -> (chance <= 0)%Q ->
       NoDup (fst <$> entries) -> ~ In (item_id, item) won).
Proof.
  apply (battle_rewards_follow_the_tables novice wolf loot_session steady).
  - vm_compute. discriminate.
  - exact steady_unit_draws.
Defined.

Example wolf_drops_two_items :
  (fun x => (rw_batons (snd (fst x)), dropped_items (snd (fst x))))
    <$> process_battle_rewards novice wolf loot_session steady
  = Some (5, ["fang"; "pelt"]).
Proof. vm_compute. reflexivity. Qed.

(** ** Rejections *)

(** A handler that did not commit leaves the rows as they were. *)
Lemma stored_uncommitted {W R : Type} (w : W) (h : handled W R) :
  committed h = false -> stored w h = w.
Proof. intros H. unfold stored. now rewrite H. Qed.

(** [create_item] answers the two rejections without reaching the
    commit, and commits with the answer [Crafted]. *)
Lemma create_item_replies (get_next_crafting_level_exp : Z -> Z)
    (crafting_fuel : nat) (recipe : Recipe) (w : craft_world)
    (h : handled craft_world craft_reply) :
  create_item get_next_crafting_level_exp crafting_fuel recipe w = Some h ->
  (reply h = CraftNoEnergy /\ committed h = false /\ after h = w /\
   Player.energy (cw_player w) < recipe_energy_cost recipe) \/
  (reply h = CraftNoMaterials /\ committed h = false /\
   recipe_energy_cost recipe <= Player.energy (cw_player w) /\
   snd (consume_materials (Player.id (cw_player w)) (materials recipe)
                          (cw_inventory w)) = false) \/
  (reply h = Crafted /\ committed h = true).
Proof.
  unfold create_item.
  destruct (Z.ltb_spec (Player.energy (cw_player w)) (recipe_energy_cost recipe))
    as [He|He].
  { intros [= <-]. left. do 3 (split; [reflexivity|]). exact He. }
  destruct (consume_materials _ _ _) as [inv [|]].
  - destruct (crafting_level_loop _ _ _ _) as [lvl|]; [|discriminate].
    intros [= <-]. right. right. split; reflexivity.
  - intros [= <-]. right. left. do 2 (split; [reflexivity|]). split; [exact He | reflexivity].
Qed.

(** Claim C3.  A handler that rejects a request leaves the rows of the
    data base as they were: [create_item] answering that the energy or
    the materials do not suffice, [process_pvp_attack] answering that
    the energy does not suffice and [process_dungeon_selection] answering
    anything but the entry have not reached their [session.commit()].
    The rejections of [create_item] are answered whatever its level
    loop would do; the energy rejections and those of the dungeon are
    answered before any object of the session is written, and the
    material rejection drops what its loop has already taken from the
    objects of the session. *)
Theorem rejections_are_all_or_nothing
    (calculate_rating_change : Z -> Z -> bool -> Z)
    (get_next_crafting_level_exp : Z -> Z) :
  (forall crafting_fuel recipe w h,
     create_item get_next_crafting_level_exp crafting_fuel recipe w = Some h ->
     reply h <> Crafted ->
     (reply h = CraftNoEnergy \/ reply h = CraftNoMaterials) /\
     committed h = false /\ stored w h = w) /\
  (forall crafting_fuel recipe w,
     Player.energy (cw_player w) < recipe_energy_cost recipe ->
     create_item get_next_crafting_level_exp crafting_fuel recipe w
     = Some (Handled w false CraftNoEnergy)) /\
  (forall crafting_fuel recipe w,
     recipe_energy_cost recipe <= Player.energy (cw_player w) ->
     snd (consume_materials (Player.id (cw_player w)) (materials recipe)
                            (cw_inventory w)) = false ->
     exists h,
       create_item get_next_crafting_level_exp crafting_fuel recipe w = Some h /\
       reply h = CraftNoMaterials /\ committed h = false /\ stored w h = w) /\
  (forall w s g,
     let r := process_pvp_attack calculate_rating_change w s g in
     (Player.energy (pw_player w) < 20 ->
      r = (Handled w false PvpNoEnergy, g)) /\
     (reply (fst r) = PvpNoEnergy ->
      Player.energy (pw_player w) < 20 /\
      committed (fst r) = false /\ stored w (fst r) = w)) /\
  (forall dungeon_id w utcnow,
     let h := process_dungeon_selection dungeon_id w utcnow in
     reply h <> Entered ->
     committed h = false /\ after h = w /\ stored w h = w).
Proof.
  split; [|split; [|split; [|split]]].
  - intros fuel recipe w h Hh Hr.
    destruct (create_item_replies _ _ _ _ _ Hh)
      as [(R & C & _) | [(R & C & _) | (R & _)]]; [| |contradiction].
    + split; [now left|]. split; [exact C | now apply stored_uncommitted].
    + split; [now right|]. split; [exact C | now apply stored_uncommitted].
  - intros fuel recipe w He. unfold create_item.
    now replace (Player.energy (cw_player w) <? recipe_energy_cost recipe)
      with true by (symmetry; apply Z.ltb_lt; exact He).
  - intros fuel recipe w He Hm. unfold create_item.
    replace (Player.energy (cw_player w) <? recipe_energy_cost recipe)
      with false by (symmetry; apply Z.ltb_ge; exact He).
    destruct (consume_materials _ _ _) as [inv ok]. cbn [snd] in Hm. subst ok.
    eexists. split; [reflexivity|]. do 2 (split; [reflexivity|]). reflexivity.
  - intros w s g. cbv zeta. unfold process_pvp_attack.
    destruct (Z.ltb_spec (Player.energy (pw_player w)) 20) as [He|He].
    + split; [reflexivity|]. intros _. split; [exact He|]. split; reflexivity.
    + split; [lia|]. cbv zeta.
      destruct (Qltb 0 _).
      * destruct (randint_draw 50 100 _) as [reward_batons g1].
        destruct (randint_draw 100 200 g1) as [reward_exp g2].
        destruct (Player.add_experience _ _) as [player level_up].
        discriminate.
      * discriminate.
  - intros dungeon_id w utcnow. cbv zeta. unfold process_dungeon_selection.
    destruct (ew_dungeon w) as [dungeon|];
      [|intros _; do 2 (split; [reflexivity|]); reflexivity].
    destruct (match cooldown_end dungeon (ew_progress w) with
              | Some e => utcnow <? e
              | None => false
              end);
      [intros _; do 2 (split; [reflexivity|]); reflexivity|].
    destruct (Player.energy (ew_player w) <? energy_cost dungeon);
      [intros _; do 2 (split; [reflexivity|]); reflexivity|].
    intros H. now contradiction H.
Qed.

(** The material loop of [create_item] checks and consumes one material
    at a time: with the first material in stock and the second missing,
    the objects of the session have lost the first when the handler
    answers that the materials do not suffice.  The session is the
    handler's own and is dropped uncommitted, so that the rows keep the
    material. *)
Example create_item_consumes_before_it_rejects
    (get_next_crafting_level_exp : Z -> Z) (crafting_fuel : nat) :
  exists h,
    create_item get_next_crafting_level_exp crafting_fuel
                blade_recipe half_stocked = Some h /\
    reply h = CraftNoMaterials /\
    cw_inventory half_stocked
    = [{| inv_player_id := 1; inv_item_id := 1; quantity := 1 |}] /\
    cw_inventory (after h) = [] /\
    committed h = false /\
    stored half_stocked h = half_stocked.
Proof.
  eexists. split; [reflexivity|]. do 4 (split; [reflexivity|]). reflexivity.
Qed.

(** ** The theorems at sample inputs *)

(** The theorem of C1 at three fights that reach round 20 with both
    sides alive. *)
Lemma round_limit_with_both_alive_is_a_victory_witness :
  (rounds (pve_exit novice training_dummy empty_session steady) = 20 /\
   victory (battle_calculation novice training_dummy empty_session steady) = true) /\
  (rounds (df_fight (dungeon_exit novice training_dummy pet_session steady)) = 20 /\
   victory (dungeon_battle novice training_dummy pet_session steady) = true) /\
  (rounds (pvp_exit (Player.set_energy tortoise (Player.energy tortoise - 20))
                    snail empty_session steady) = 20 /\
   announces_victory
     (reply (fst (process_pvp_attack (fun _ _ _ => 16)
                    {| pw_player := tortoise; pw_opponent := snail |}
                    empty_session steady))) = true /\
   Player.wins
     (pw_player (after (fst (process_pvp_attack (fun _ _ _ => 16)
                    {| pw_player := tortoise; pw_opponent := snail |}
                    empty_session steady)))) = Player.wins tortoise + 1 /\
   Player.losses
     (pw_opponent (after (fst (process_pvp_attack (fun _ _ _ => 16)
                    {| pw_player := tortoise; pw_opponent := snail |}
                    empty_session steady)))) = Player.losses snail + 1).
Proof.
  split; [|split].
  - apply (proj1 (round_limit_with_both_alive_is_a_victory
                    (fun _ _ _ => 16) novice rival training_dummy
                    empty_session steady)); vm_compute; reflexivity.
  - apply (proj1 (proj2 (round_limit_with_both_alive_is_a_victory
                    (fun _ _ _ => 16) novice rival training_dummy
                    pet_session steady))); vm_compute; reflexivity.
  - apply (proj2 (proj2 (round_limit_with_both_alive_is_a_victory
                    (fun _ _ _ => 16) tortoise snail training_dummy
                    empty_session steady))); vm_compute;
      first [reflexivity | discriminate].
Defined.

Lemma sprite_heals_nonneg :
  forall pp, active_pet pet_session novice = Some pp -> heals_nonneg pp.
Proof.
  intros pp [= <-] a h [<-|[]]. cbn. intros [= <-]. lra.
Qed.

(** The theorem of C10 at three fights. *)
Lemma no_double_knockout_witness :
  ((0 < hp_a (pve_exit novice training_dummy empty_session steady))%Q
   \/ (0 < hp_b (pve_exit novice training_dummy empty_session steady))%Q) /\
  ((0 < hp_a (pvp_exit novice rival empty_session steady))%Q
   \/ (0 < hp_b (pvp_exit novice rival empty_session steady))%Q) /\
  ((0 < hp_a (df_fight (dungeon_exit novice training_dummy pet_session steady)))%Q
   \/ (0 < hp_b (df_fight (dungeon_exit novice training_dummy pet_session steady)))%Q).
Proof.
  split; [|split].
  - apply (proj1 (no_double_knockout novice rival training_dummy
                    empty_session steady)).
    left. vm_compute. reflexivity.
  - apply (proj1 (proj2 (no_double_knockout novice rival training_dummy
                    empty_session steady))).
    left. vm_compute. reflexivity.
  - apply (proj2 (proj2 (no_double_knockout novice rival training_dummy
                    pet_session steady))).
    + left. vm_compute. reflexivity.
    + exact sprite_heals_nonneg.
Defined.

Example duel_ends_with_one_standing :
  let f := pvp_exit novice rival empty_session steady in
  rounds f = 8 /\ (hp_a f == 9)%Q /\ (hp_b f == -4)%Q.
Proof. vm_compute. repeat split; reflexivity. Qed.

(** The theorem of C8 at level 1. *)
Lemma thresholds_agree_witness :
  Player.get_next_level_exp novice = calculate_exp_for_level 1 /\
  PlayerPet.get_next_level_exp sprite = calculate_exp_for_level 1 /\
  1 <= calculate_exp_for_level 1 /\
  is_floor_100_pow_1_5 1 (calculate_exp_for_level 1).
Proof.
  destruct (thresholds_agree 1 novice sprite) as (H1 & H2 & H3 & H4);
    [lia | reflexivity | reflexivity |].
  split; [exact H1|]. split; [exact H2|]. split; [exact H3|]. apply H4. lia.
Defined.

Example thresholds_values :
  calculate_exp_for_level 1 = 100 /\ calculate_exp_for_level 2 = 282 /\
  calculate_exp_for_level 4 = 800 /\ calculate_exp_for_level 10 = 3162.
Proof. vm_compute. repeat split; reflexivity. Qed.

(** The theorem of C6 at a first visit (energy 100, cost 30), at a
    visit one hour after the last attempt and at a visit two hours
    after it, the cooldown being two hours. *)
Lemma dungeon_entry_is_guarded_witness :
  (let h := process_dungeon_selection 7 first_visit 500 in
   committed h = true /\
   Player.energy (ew_player first_visit) = 100 /\
   Player.energy (ew_player (after h)) = 100 - 30 /\
   Player.health (ew_player (after h)) = Player.health novice /\
   exists progress,
     ew_progress (after h) = Some progress /\
     last_attempt progress = Some 500 /\
     current_progress progress
     = Some {| current_room := 0; monsters_defeated := 0;
               hp_remaining := Player.health novice; start_time := 500 |} /\
     dp_dungeon_id progress = 7 /\ completed_times progress = 0) /\
  (let h := process_dungeon_selection 7 recent_visit 4600 in
   1000 + 2 * 3600 = 8200 /\
   reply h = StillOnCooldown ((8200 - 4600) / 3600) ((8200 - 4600) mod 3600 / 60) /\
   committed h = false /\ after h = recent_visit /\
   Player.energy (ew_player (after h)) = 100) /\
  reply (process_dungeon_selection 7 recent_visit 8200) = Entered.
Proof.
  split; [|split].
  - cbv zeta.
    destruct (proj1 (dungeon_entry_is_guarded 7 first_visit 500) eq_refl)
      as (dungeon & progress & Hd & _ & _ & Hc & He & _ & Hh & _ & _ & _ & _
          & Hp & Hl & Hr & _ & Hn).
    injection Hd as <-. destruct (Hn eq_refl) as (_ & Hid & Hct & _).
    split; [exact Hc|]. split; [reflexivity|]. split; [exact He|].
    split; [exact Hh|]. exists progress.
    split; [exact Hp|]. split; [exact Hl|]. split; [exact Hr|].
    split; [exact Hid | exact Hct].
  - cbv zeta. split; [reflexivity|].
    destruct (proj1 (proj2 (dungeon_entry_is_guarded 7 recent_visit 4600))
                crypt _ 1000 eq_refl eq_refl eq_refl ltac:(cbn; lia))
      as (Hr & Hc & Ha & _ & He).
    split; [exact Hr|]. split; [exact Hc|]. split; [exact Ha | exact He].
  - apply (proj1 (proj2 (proj2 (proj2 (dungeon_entry_is_guarded 7 recent_visit 8200))))
             crypt).
    + reflexivity.
    + intros p t [= <-] [= <-]. cbn. lia.
    + vm_compute. discriminate.
Defined.



(** * Further properties *)

(** ** Utilities *)

(** *** Truncation *)

Lemma Qltb_comp (x x' y y' : Q) :
  (x == x')%Q -> (y == y')%Q -> Qltb x y = Qltb x' y'.
Proof.
  intros Hx Hy. destruct (Qltb x' y') eqn:E.
  - apply Qltb_lt. apply Qltb_lt in E. lra.
  - apply Qltb_ge. apply Qltb_ge in E. lra.
Qed.

Lemma py_int_comp (x y : Q) : (x == y)%Q -> py_int x = py_int y.
Proof.
  intros H. unfold py_int. rewrite (Qltb_comp x y 0 0 H (Qeq_refl 0)).
  destruct (Qltb y 0).
  - unfold Qceiling. now rewrite H.
  - now rewrite H.
Qed.

(** [int] of a fraction is the quotient truncated toward zero. *)
Lemma py_int_make (n : Z) (p : positive) : py_int (n # p) = Z.quot n (Zpos p).
Proof.
  unfold py_int. destruct (Qltb (n # p) 0) eqn:E.
  - apply Qltb_lt in E. unfold Qlt in E. cbn in E.
    unfold Qceiling, Qfloor, Qopp. cbn [Qnum Qden].
    assert (Hn : n < 0) by lia.
    rewrite <- (Z.opp_involutive n) at 2. rewrite Z.quot_opp_l by lia.
    rewrite Z.quot_div_nonneg by lia. reflexivity.
  - apply Qltb_ge in E. unfold Qle in E. cbn in E.
    unfold Qfloor. rewrite Z.quot_div_nonneg by lia. reflexivity.
Qed.

Lemma py_int_inject (n : Z) : py_int (inject_Z n) = n.
Proof. unfold inject_Z. rewrite py_int_make. apply Z.quot_1_r. Qed.

Lemma py_int_ratio (n k : Z) (p : positive) :
  py_int (inject_Z n * (k # p)) = Z.quot (n * k) (Zpos p).
Proof.
  rewrite <- py_int_make. apply py_int_comp.
  unfold inject_Z, Qeq, Qmult. cbn. lia.
Qed.

(** Property X1.  For every number of seconds, the hours, minutes and seconds that
    [format_time] prints add up to the seconds given
    ([hours * 3600 + minutes * 60 + seconds]); the minutes and the
    seconds printed lie in 0 .. 59, also for a negative input, and the
    hours are negative exactly when the input is. *)
Theorem format_time_round_trip (seconds : Z) :
  let '(hours, minutes, secs) := format_time seconds in
  hours * 3600 + minutes * 60 + secs = seconds /\
  0 <= minutes < 60 /\ 0 <= secs < 60 /\
  (0 <= hours <-> 0 <= seconds).
Proof.
  unfold format_time. cbv zeta.
  pose proof (Z.div_mod seconds 60 ltac:(lia)) as H1.
  pose proof (Z.mod_pos_bound seconds 60 ltac:(lia)) as H2.
  pose proof (Z.div_mod (seconds / 60) 60 ltac:(lia)) as H3.
  pose proof (Z.mod_pos_bound (seconds / 60) 60 ltac:(lia)) as H4.
  repeat split; lia.
Qed.

(** Property X2.  For every [seconds >= 0], the parts [format_duration] joins are
    never empty, add up to the seconds given (hours count 3600, minutes
    60), and carry no zero: every part shown is positive, except for the
    single part "0s" that stands for 0 seconds and for nothing else. *)
Theorem format_duration_round_trip (seconds : Z) :
  0 <= seconds ->
  let parts := format_duration seconds in
  parts <> [] /\
  parts_seconds parts = seconds /\
  (forall p, In p parts -> 0 < fst p \/ parts = [(0, Seconds)]) /\
  (seconds = 0 <-> parts = [(0, Seconds)]).
Proof.
  intros Hs. unfold format_duration. cbv zeta.
  pose proof (Z.div_mod seconds 60 ltac:(lia)) as H1.
  pose proof (Z.mod_pos_bound seconds 60 ltac:(lia)) as H2.
  pose proof (Z.div_mod (seconds / 60) 60 ltac:(lia)) as H3.
  pose proof (Z.mod_pos_bound (seconds / 60) 60 ltac:(lia)) as H4.
  set (h := seconds / 60 / 60) in *.
  set (m := (seconds / 60) mod 60) in *.
  set (s := seconds mod 60) in *.
  assert (Hsum : h * 3600 + m * 60 + s = seconds) by (subst h m s; lia).
  assert (Hh : 0 <= h) by (subst h; apply Z.div_pos; [apply Z.div_pos|]; lia).
  clearbody h m s. clear H1 H3.
  destruct (0 <? h) eqn:Eh; destruct (0 <? m) eqn:Em; destruct (0 <? s) eqn:Es;
    cbn [app orb];
    rewrite ?bool_decide_eq_false_2 by discriminate;
    rewrite ?bool_decide_eq_true_2 by reflexivity;
    cbn [app];
    try apply Z.ltb_lt in Eh; try apply Z.ltb_ge in Eh;
    try apply Z.ltb_lt in Em; try apply Z.ltb_ge in Em;
    try apply Z.ltb_lt in Es; try apply Z.ltb_ge in Es;
    (split; [discriminate|]);
    (split; [cbn; lia|]);
    (split;
     [cbn [In]; intros p Hp;
      repeat (destruct Hp as [<-|Hp];
              [cbn [fst]; first [left; lia | right; repeat f_equal; lia]|]);
      contradiction
     |split; [intros ->; first [exfalso; lia | repeat f_equal; lia]
             |intros [=]; lia]]).
Qed.

(** The theorem of X2 at a sample input. *)
Lemma format_duration_round_trip_witness :
  format_duration 3725 = [(1, Hours); (2, Minutes); (5, Seconds)] /\
  parts_seconds (format_duration 3725) = 3725.
Proof.
  split; [reflexivity|].
  apply (format_duration_round_trip 3725). lia.
Defined.

(** *** Products by the literal 0.1 *)

Lemma fl_error_bound (x : Q) :
  (0 <= x)%Q ->
  (x - x * (1 # 9007199254740992) <= fl x
   <= x + x * (1 # 9007199254740992))%Q.
Proof. intros H. exact (fl_error x H). Qed.

Lemma fl_one : (fl 1 == 1)%Q.
Proof. exact (fl_integer 1 ltac:(lia)). Qed.

(** The float [0.1] is a little above one tenth. *)
Lemma fl_tenth : (fl (1 # 10) == 3602879701896397 # 36028797018963968)%Q.
Proof. vm_compute. reflexivity. Qed.

Lemma inject_Z_nonneg (n : Z) : 0 <= n -> (0 <= inject_Z n)%Q.
Proof. intros H. change 0%Q with (inject_Z 0). now rewrite <- Zle_Qle. Qed.

Lemma inject_Z_le_million (n : Z) : n <= 1000000 -> (inject_Z n <= 1000000)%Q.
Proof.
  intros H. change 1000000%Q with (inject_Z 1000000). now rewrite <- Zle_Qle.
Qed.

Lemma Qmult_le_l_nonneg (x y z : Q) :
  (x <= y)%Q -> (0 <= z)%Q -> (z * x <= z * y)%Q.
Proof.
  intros H Hz. rewrite (Qmult_comm z x), (Qmult_comm z y).
  now apply Qmult_le_compat_r.
Qed.

(** [1 + n * 0.1] as the code computes it. *)
Abbreviation tenths_more n :=
  (float_add 1 (float_mul (fl (inject_Z n)) (fl (1 # 10)))) (only parsing).

Lemma tenths_more_ge_1 (n : Z) : 0 <= n -> (1 <= tenths_more n)%Q.
Proof.
  intros H. unfold float_add, float_mul.
  rewrite <- fl_one at 1. apply fl_mono; [lra|].
  assert (0 <= fl (fl (inject_Z n) * fl (1 # 10)))%Q; [|lra].
  apply fl_nonneg. apply Qmult_le_0_compat.
  - apply fl_nonneg. now apply inject_Z_nonneg.
  - rewrite fl_tenth. lra.
Qed.

Lemma tenths_more_mono (n n' : Z) :
  0 <= n -> n <= n' -> (tenths_more n <= tenths_more n')%Q.
Proof.
  intros H0 H. unfold float_add, float_mul.
  assert (Hn : (0 <= fl (inject_Z n))%Q) by (apply fl_nonneg; now apply inject_Z_nonneg).
  assert (Hnn : (fl (inject_Z n) <= fl (inject_Z n'))%Q).
  { apply fl_mono; [now apply inject_Z_nonneg | now rewrite <- Zle_Qle]. }
  assert (Hc : (0 <= fl (1 # 10))%Q) by (rewrite fl_tenth; lra).
  assert (Hp : (0 <= fl (inject_Z n) * fl (1 # 10))%Q)
    by (apply Qmult_le_0_compat; assumption).
  assert (Hm : (fl (fl (inject_Z n) * fl (1 # 10))
                <= fl (fl (inject_Z n') * fl (1 # 10)))%Q).
  { apply fl_mono; [exact Hp|]. apply Qmult_le_compat_r; assumption. }
  pose proof (fl_nonneg _ Hp).
  apply fl_mono; lra.
Qed.

(** Up to a million, [1 + n * 0.1] is off the exact value by less than
    [10^-10]. *)
Lemma tenths_more_close (n : Z) :
  0 <= n <= 1000000 ->
  (1 + inject_Z n * (1 # 10) - (1 # 10000000000) <= tenths_more n
   <= 1 + inject_Z n * (1 # 10) + (1 # 10000000000))%Q.
Proof.
  intros [H0 H1]. unfold float_add, float_mul.
  pose proof (inject_Z_nonneg n H0) as N0.
  pose proof (inject_Z_le_million n H1) as N1.
  assert (En : (fl (inject_Z n) == inject_Z n)%Q)
    by (apply fl_integer; lia).
  assert (Ep : (fl (inject_Z n) * fl (1 # 10)
                == inject_Z n * (3602879701896397 # 36028797018963968))%Q)
    by (rewrite En, fl_tenth; reflexivity).
  rewrite (fl_comp _ _ Ep).
  set (x := inject_Z n) in *. clearbody x.
  set (t0 := (x * (3602879701896397 # 36028797018963968))%Q).
  assert (T0 : (0 <= t0)%Q) by (unfold t0; lra).
  pose proof (fl_error_bound t0 T0) as [A1 A2].
  set (t := fl t0) in *. clearbody t.
  assert (T : (0 <= 1 + t)%Q) by (unfold t0 in *; lra).
  pose proof (fl_error_bound (1 + t) T) as [B1 B2].
  set (s := fl (1 + t)) in *. clearbody s.
  unfold t0 in *. lra.
Qed.

(** A product by [1 + n * 0.1], both factors up to a million, is off
    the exact value by less than a thousandth. *)
Lemma scaled_close (b n : Z) :
  0 <= b <= 1000000 -> 0 <= n <= 1000000 ->
  (inject_Z (b * (10 + n)) * (1 # 10) - (1 # 1000)
   <= float_mul (fl (inject_Z b)) (tenths_more n)
   <= inject_Z (b * (10 + n)) * (1 # 10) + (1 # 1000))%Q.
Proof.
  intros [Hb0 Hb1] Hn. unfold float_mul.
  pose proof (tenths_more_close n Hn) as [S1 S2].
  pose proof (inject_Z_nonneg b Hb0) as B0.
  pose proof (inject_Z_le_million b Hb1) as B1.
  pose proof (inject_Z_nonneg n (proj1 Hn)) as N0.
  pose proof (inject_Z_le_million n (proj2 Hn)) as N1.
  assert (Eb : (fl (inject_Z b) == inject_Z b)%Q) by (apply fl_integer; lia).
  assert (Ep : (fl (inject_Z b) * tenths_more n == inject_Z b * tenths_more n)%Q)
    by (rewrite Eb; reflexivity).
  rewrite (fl_comp _ _ Ep).
  rewrite inject_Z_mult, inject_Z_plus. change (inject_Z 10) with 10%Q.
  set (s := tenths_more n) in *. clearbody s.
  set (x := inject_Z b) in *. set (y := inject_Z n) in *. clearbody x y.
  assert (P1 : (x * (1 + y * (1 # 10) - (1 # 10000000000)) <= x * s)%Q)
    by (apply Qmult_le_l_nonneg; assumption).
  assert (P2 : (x * s <= x * (1 + y * (1 # 10) + (1 # 10000000000)))%Q)
    by (apply Qmult_le_l_nonneg; assumption).
  assert (XY : (0 <= x * y)%Q) by (apply Qmult_le_0_compat; assumption).
  assert (XY1 : (x * y <= 1000000 * 1000000)%Q).
  { apply Qle_trans with (x * 1000000)%Q.
    - apply Qmult_le_l_nonneg; assumption.
    - apply Qmult_le_compat_r; lra. }
  assert (P0 : (0 <= x * s)%Q) by lra.
  pose proof (fl_error_bound (x * s) P0) as [A1 A2].
  set (d := fl (x * s)) in *. clearbody d. lra.
Qed.

(** The integer part of a number that is within a twentieth of [n / 10]:
    the quotient, or one less when [n] is a multiple of 10. *)
Lemma floor_near_tenths (d : Q) (n : Z) :
  (inject_Z n * (1 # 10) - (1 # 20) <= d <= inject_Z n * (1 # 10) + (1 # 20))%Q ->
  n / 10 - 1 <= Qfloor d <= n / 10 /\
  (n mod 10 <> 0 -> Qfloor d = n / 10).
Proof.
  intros [D1 D2].
  pose proof (Z.div_mod n 10 ltac:(lia)) as E.
  pose proof (Z.mod_pos_bound n 10 ltac:(lia)) as M.
  set (v := n / 10) in *. set (f := n mod 10) in *. clearbody v f.
  assert (En : (inject_Z n == 10 * inject_Z v + inject_Z f)%Q).
  { rewrite E, inject_Z_plus, inject_Z_mult. reflexivity. }
  assert (F0 : (0 <= inject_Z f)%Q) by (apply inject_Z_nonneg; lia).
  assert (F9 : (inject_Z f <= 9)%Q)
    by (change 9%Q with (inject_Z 9); rewrite <- Zle_Qle; lia).
  pose proof (Qfloor_le d) as L1. pose proof (Qlt_floor d) as L2.
  rewrite inject_Z_plus in L2. change (inject_Z 1) with 1%Q in L2.
  assert (Hup : Qfloor d <= v).
  { apply Z.lt_succ_r. rewrite Zlt_Qlt. unfold Z.succ.
    rewrite inject_Z_plus. change (inject_Z 1) with 1%Q. lra. }
  assert (Hlo : v - 1 <= Qfloor d).
  { apply Z.lt_succ_r. rewrite Zlt_Qlt. unfold Z.succ.
    rewrite !inject_Z_plus. change (inject_Z 1) with 1%Q.
    unfold Z.sub. rewrite inject_Z_plus. change (inject_Z (- (1))) with (-1)%Q. lra. }
  split; [lia|]. intros Hf.
  assert (F1 : (1 <= inject_Z f)%Q)
    by (change 1%Q with (inject_Z 1); rewrite <- Zle_Qle; lia).
  assert (v < Qfloor d + 1); [|lia].
  rewrite Zlt_Qlt, inject_Z_plus. change (inject_Z 1) with 1%Q. lra.
Qed.

Lemma py_int_mono_nonneg (x y : Q) :
  (0 <= x)%Q -> (x <= y)%Q -> py_int x <= py_int y.
Proof.
  intros Hx Hxy. rewrite !py_int_nonneg_floor by lra.
  now apply Qfloor_resp_le.
Qed.

Lemma calculate_damage_no_buffs (base level : Z) :
  calculate_damage base level None
  = py_int (float_mul (fl (inject_Z base)) (tenths_more level)).
Proof. reflexivity. Qed.

(** The damage before [int], a binary64 number that is not negative. *)
Lemma damage_float (base level : Z) :
  0 <= base ->  0 <= level ->
  let d := float_mul (fl (inject_Z base)) (tenths_more level) in
  (0 <= d)%Q /\ (fl d == d)%Q /\ (fl (inject_Z base) <= d)%Q.
Proof.
  intros Hb Hl. cbv zeta. unfold float_mul.
  pose proof (tenths_more_ge_1 level Hl) as S1.
  assert (B0 : (0 <= fl (inject_Z base))%Q)
    by (apply fl_nonneg; now apply inject_Z_nonneg).
  assert (P : (fl (inject_Z base) <= fl (inject_Z base) * tenths_more level)%Q).
  { rewrite <- (Qmult_1_r (fl (inject_Z base))) at 1.
    apply Qmult_le_l_nonneg; assumption. }
  assert (P0 : (0 <= fl (inject_Z base) * tenths_more level)%Q)
    by (apply Qmult_le_0_compat; [exact B0|]; apply Qle_trans with 1%Q;
        [discriminate | exact S1]).
  split; [now apply fl_nonneg|]. split; [now apply fl_idem|].
  rewrite <- (fl_idem (inject_Z base)) at 1 by now apply inject_Z_nonneg.
  apply fl_mono; assumption.
Qed.

(** Property X3.  For a base damage and a level from 0 to a million, [calculate_damage]
    without buffs is [base + base * level div 10] or one less, and one
    less only where [base * level] is a multiple of 10, the binary64
    product then falling short of the whole number; it is at least the
    base damage and grows with the level; an empty buff dict or one
    without the key [damage_multiplier] changes nothing, and a
    multiplier that is not negative never lowers the damage. *)
Theorem calculate_damage_grows_with_level_and_buffs (base level : Z) :
  0 <= base <= 1000000 -> 0 <= level <= 1000000 ->
  (base + base * level / 10 - 1 <= calculate_damage base level None
   <= base + base * level / 10) /\
  ((base * level) mod 10 <> 0 ->
   calculate_damage base level None = base + base * level / 10) /\
  base <= calculate_damage base level None /\
  (forall level', level <= level' ->
     calculate_damage base level None <= calculate_damage base level' None) /\
  calculate_damage base level (Some []) = calculate_damage base level None /\
  (forall buffs, assoc_find "damage_multiplier" buffs = None ->
     calculate_damage base level (Some buffs) = calculate_damage base level None) /\
  (forall buffs m, assoc_find "damage_multiplier" buffs = Some m -> (0 <= m)%Q ->
     calculate_damage base level None <= calculate_damage base level (Some buffs)).
Proof.
  intros Hb Hl.
  destruct (damage_float base level (proj1 Hb) (proj1 Hl)) as (D0 & Did & DB).
  pose proof (scaled_close base level Hb Hl) as [C1 C2].
  rewrite calculate_damage_no_buffs.
  set (d := float_mul (fl (inject_Z base)) (tenths_more level)) in *.
  assert (Ediv : (base * (10 + level)) / 10 = base + base * level / 10).
  { replace (base * (10 + level)) with (base * level + base * 10) by lia.
    rewrite Z.div_add by lia. lia. }
  assert (Emod : (base * (10 + level)) mod 10 = (base * level) mod 10).
  { replace (base * (10 + level)) with (base * level + base * 10) by lia.
    now rewrite Z.mod_add by lia. }
  destruct (floor_near_tenths d (base * (10 + level))) as [F1 F2]; [lra|].
  rewrite Ediv in F1, F2. rewrite Emod in F2.
  rewrite (py_int_nonneg_floor d D0).
  split; [exact F1|]. split; [exact F2|]. split.
  { rewrite <- (Qfloor_Z base). apply Qfloor_resp_le.
    rewrite <- (fl_integer base) by lia. exact DB. }
  split.
  { intros level' Hl'. rewrite calculate_damage_no_buffs.
    rewrite <- (py_int_nonneg_floor d D0).
    apply py_int_mono_nonneg; [exact D0|]. unfold d, float_mul.
    assert (B0 : (0 <= fl (inject_Z base))%Q)
      by (apply fl_nonneg; apply inject_Z_nonneg; lia).
    pose proof (tenths_more_ge_1 level (proj1 Hl)).
    pose proof (tenths_more_mono level level' (proj1 Hl) Hl').
    apply fl_mono.
    - apply Qmult_le_0_compat; [exact B0|].
      apply Qle_trans with 1%Q; [discriminate | assumption].
    - apply Qmult_le_l_nonneg; assumption. }
  split; [now rewrite <- (py_int_nonneg_floor d D0)|].
  split.
  { intros buffs Hnone. rewrite <- (py_int_nonneg_floor d D0).
    unfold calculate_damage. fold d.
    destruct buffs as [|e b]; [reflexivity|]. rewrite Hnone.
    cbn [default from_option]. apply py_int_comp. unfold float_mul, float_add, id.
    rewrite fl_0.
    assert (E1 : (fl (1 + 0) == 1)%Q) by (vm_compute; reflexivity).
    assert (E2 : (d * fl (1 + 0) == d)%Q) by (rewrite E1; ring).
    rewrite (fl_comp _ _ E2). exact Did. }
  intros buffs m Hm Hm0. rewrite <- (py_int_nonneg_floor d D0).
  unfold calculate_damage. fold d.
  destruct buffs as [|e b]; [discriminate|]. rewrite Hm.
  cbn [default from_option]. unfold id.
  apply py_int_mono_nonneg; [exact D0|]. unfold float_mul at 1, float_add.
  assert (M1 : (1 <= fl (1 + fl m))%Q).
  { rewrite <- fl_one at 1. apply fl_mono; [lra|].
    pose proof (fl_nonneg m Hm0). lra. }
  rewrite <- Did at 1. apply fl_mono; [exact D0|].
  rewrite <- (Qmult_1_r d) at 1. apply Qmult_le_l_nonneg; assumption.
Qed.

(** The theorem of X3 at a sample input. *)
Lemma calculate_damage_grows_with_level_and_buffs_witness :
  (25 + 25 * 7 / 10 - 1 <= calculate_damage 25 7 None <= 25 + 25 * 7 / 10) /\
  calculate_damage 25 7 None = 25 + 25 * 7 / 10 /\
  calculate_damage 25 7 None <= calculate_damage 25 7 (Some [("damage_multiplier", 1 # 2)]).
Proof.
  destruct (calculate_damage_grows_with_level_and_buffs 25 7)
    as (H1 & H2 & _ & _ & _ & _ & H6); [lia | lia |].
  split; [exact H1|]. split; [apply H2; vm_compute; discriminate|].
  apply (H6 _ (1 # 2)); [reflexivity | lra].
Defined.

(** The rounding shows where the exact product is a whole number: at
    base 45 and level 4 the float product is [62.99999999999999], and
    [int] gives 62 where [45 + 45 * 4 div 10] is 63. *)
Example calculate_damage_values :
  calculate_damage 25 7 None = 42 /\
  calculate_damage 25 7 (Some [("damage_multiplier", 1 # 2)]) = 63 /\
  calculate_damage 25 7 (Some [("speed", 3%Q)]) = 42 /\
  calculate_damage 45 4 None = 62 /\
  calculate_damage 10 0 None = 10.
Proof. vm_compute. repeat split; reflexivity. Qed.

Lemma restore_values (now last : Z) :
  calculate_energy_restore now last = Z.quot (now - last) 60 /\
  calculate_health_restore now last = Z.quot ((now - last) * 5) 60.
Proof.
  unfold calculate_energy_restore, calculate_health_restore, get_time_diff.
  rewrite py_int_inject. split.
  - change (1 / 60)%Q with (1 # 60). rewrite py_int_ratio. now rewrite Z.mul_1_r.
  - change (5 / 60)%Q with (5 # 60). now rewrite py_int_ratio.
Qed.

(** Property X4.  With times in whole seconds and [last_restore] not after the
    current date, [calculate_energy_restore] is the number of whole
    minutes passed and [calculate_health_restore] the number of whole
    12-second spans, which is 5 times the energy restored plus at most
    4; for a [last_restore] in the future neither is positive. *)
Theorem restore_counts_whole_units (now last : Z) :
  (last <= now ->
   calculate_energy_restore now last = (now - last) / 60 /\
   calculate_health_restore now last = (now - last) / 12 /\
   5 * calculate_energy_restore now last <= calculate_health_restore now last
     <= 5 * calculate_energy_restore now last + 4) /\
  (now < last ->
   calculate_energy_restore now last <= 0 /\
   calculate_health_restore now last <= 0).
Proof.
  destruct (restore_values now last) as [-> ->]. split.
  - intros H. rewrite !Z.quot_div_nonneg by lia.
    assert (H12 : (now - last) * 5 / 60 = (now - last) / 12).
    { replace 60 with (5 * 12) by lia. rewrite (Z.mul_comm (now - last)).
      now rewrite Z.div_mul_cancel_l by lia. }
    rewrite H12. split; [reflexivity|]. split; [reflexivity|].
    pose proof (Z.div_mod (now - last) 60 ltac:(lia)).
    pose proof (Z.mod_pos_bound (now - last) 60 ltac:(lia)).
    pose proof (Z.div_mod (now - last) 12 ltac:(lia)).
    pose proof (Z.mod_pos_bound (now - last) 12 ltac:(lia)).
    lia.
  - intros H. split.
    + rewrite <- (Z.opp_involutive (now - last)), Z.quot_opp_l by lia.
      rewrite Z.quot_div_nonneg by lia.
      pose proof (Z.div_pos (- (now - last)) 60). lia.
    + rewrite <- (Z.opp_involutive ((now - last) * 5)), Z.quot_opp_l by lia.
      rewrite Z.quot_div_nonneg by lia.
      pose proof (Z.div_pos (- ((now - last) * 5)) 60). lia.
Qed.

(** The theorem of X4 at a sample input. *)
Lemma restore_counts_whole_units_witness :
  (calculate_energy_restore 1000 100 = (1000 - 100) / 60 /\
   calculate_health_restore 1000 100 = (1000 - 100) / 12 /\
   5 * calculate_energy_restore 1000 100 <= calculate_health_restore 1000 100
     <= 5 * calculate_energy_restore 1000 100 + 4) /\
  (calculate_energy_restore 100 1000 <= 0 /\
   calculate_health_restore 100 1000 <= 0).
Proof.
  split.
  - apply (proj1 (restore_counts_whole_units 1000 100)). lia.
  - apply (proj2 (restore_counts_whole_units 100 1000)). lia.
Defined.

(** ** Regeneration *)

Lemma minutes_gain (d k : Z) :
  py_int (inject_Z d / 60 * inject_Z k) = Z.quot (d * k) 60.
Proof.
  rewrite <- (py_int_make (d * k) 60). apply py_int_comp.
  unfold inject_Z, Qeq, Qdiv, Qmult, Qinv. cbn. lia.
Qed.

Lemma energy_gain_value (d : Z) :
  py_int (inject_Z d / 60 * 1) = Z.quot d 60.
Proof. change 1%Q with (inject_Z 1). now rewrite minutes_gain, Z.mul_1_r. Qed.

Lemma health_gain_value (d : Z) :
  py_int (inject_Z d / 60 * 5) = Z.quot (d * 5) 60.
Proof. change 5%Q with (inject_Z 5). now rewrite minutes_gain. Qed.

Lemma quot_60_pos (d : Z) : 0 < Z.quot d 60 <-> 60 <= d.
Proof.
  destruct (Z.le_gt_cases 0 d) as [H|H].
  - rewrite Z.quot_div_nonneg by lia.
    pose proof (Z.div_mod d 60 ltac:(lia)).
    pose proof (Z.mod_pos_bound d 60 ltac:(lia)). lia.
  - rewrite <- (Z.opp_involutive d), Z.quot_opp_l by lia.
    rewrite Z.quot_div_nonneg by lia.
    pose proof (Z.div_pos (- d) 60). lia.
Qed.

Lemma quot_5_60 (d : Z) : 0 <= d -> Z.quot (d * 5) 60 = d / 12.
Proof.
  intros H. rewrite Z.quot_div_nonneg by lia.
  replace 60 with (5 * 12) by lia. rewrite (Z.mul_comm d).
  now rewrite Z.div_mul_cancel_l by lia.
Qed.

Lemma quot_5_60_pos (d : Z) : 0 < Z.quot (d * 5) 60 <-> 12 <= d.
Proof.
  destruct (Z.le_gt_cases 0 d) as [H|H].
  - rewrite quot_5_60 by lia.
    pose proof (Z.div_mod d 12 ltac:(lia)).
    pose proof (Z.mod_pos_bound d 12 ltac:(lia)). lia.
  - rewrite <- (Z.opp_involutive (d * 5)), Z.quot_opp_l by lia.
    rewrite Z.quot_div_nonneg by lia.
    pose proof (Z.div_pos (- (d * 5)) 60). lia.
Qed.

(** When and by how much the two regeneration methods add. *)
Lemma regeneration_values (self : Player.t) (last utcnow : Z) :
  let e := regenerate_energy self (Some last) utcnow in
  let h := regenerate_health self (Some last) utcnow in
  (utcnow - last < 60 -> e = (self, Some last)) /\
  (60 <= utcnow - last ->
   e = (Player.set_energy self
          (Z.min (Player.max_energy self)
                 (Player.energy self + (utcnow - last) / 60)),
        Some utcnow)) /\
  (utcnow - last < 12 -> h = (self, Some last)) /\
  (12 <= utcnow - last ->
   h = (set_health self
          (Z.min (Player.max_health self)
                 (Player.health self + (utcnow - last) / 12)),
        Some utcnow)).
Proof.
  intros e h.
  assert (He : (utcnow - last < 60 -> e = (self, Some last)) /\
               (60 <= utcnow - last ->
                e = (Player.set_energy self
                       (Z.min (Player.max_energy self)
                              (Player.energy self + (utcnow - last) / 60)),
                     Some utcnow))).
  { subst e. unfold regenerate_energy. rewrite energy_gain_value.
    pose proof (quot_60_pos (utcnow - last)) as Hq. split; intros Hd.
    - now replace (0 <? Z.quot (utcnow - last) 60) with false
        by (symmetry; apply Z.ltb_ge; lia).
    - replace (0 <? Z.quot (utcnow - last) 60) with true
        by (symmetry; apply Z.ltb_lt; lia).
      now rewrite Z.quot_div_nonneg by lia. }
  assert (Hh : (utcnow - last < 12 -> h = (self, Some last)) /\
               (12 <= utcnow - last ->
                h = (set_health self
                       (Z.min (Player.max_health self)
                              (Player.health self + (utcnow - last) / 12)),
                     Some utcnow))).
  { subst h. unfold regenerate_health. rewrite health_gain_value.
    pose proof (quot_5_60_pos (utcnow - last)) as Hq. split; intros Hd.
    - now replace (0 <? Z.quot ((utcnow - last) * 5) 60) with false
        by (symmetry; apply Z.ltb_ge; lia).
    - replace (0 <? Z.quot ((utcnow - last) * 5) 60) with true
        by (symmetry; apply Z.ltb_lt; lia).
      now rewrite quot_5_60 by lia. }
  tauto.
Qed.

(** Property X5.  [regenerate_energy] does nothing before a whole minute has passed
    since [last_energy_regen], and then adds one energy per whole
    minute, caps it at [max_energy] and moves [last_energy_regen] to the
    current time; [regenerate_health] does the same per 12 seconds with
    [max_health].  A value within its maximum stays within it and never
    drops; a missing timestamp means nothing is done. *)
Theorem regeneration_counts_whole_minutes (self : Player.t) (last utcnow : Z) :
  let e := regenerate_energy self (Some last) utcnow in
  let h := regenerate_health self (Some last) utcnow in
  (utcnow - last < 60 -> e = (self, Some last)) /\
  (60 <= utcnow - last ->
   e = (Player.set_energy self
          (Z.min (Player.max_energy self)
                 (Player.energy self + (utcnow - last) / 60)),
        Some utcnow)) /\
  (Player.energy self <= Player.max_energy self ->
   Player.energy self <= Player.energy (fst e) <= Player.max_energy self) /\
  (utcnow - last < 12 -> h = (self, Some last)) /\
  (12 <= utcnow - last ->
   h = (set_health self
          (Z.min (Player.max_health self)
                 (Player.health self + (utcnow - last) / 12)),
        Some utcnow)) /\
  (Player.health self <= Player.max_health self ->
   Player.health self <= Player.health (fst h) <= Player.max_health self) /\
  regenerate_energy self None utcnow = (self, None) /\
  regenerate_health self None utcnow = (self, None).
Proof.
  intros e h.
  destruct (regeneration_values self last utcnow) as (He1 & He2 & Hh1 & Hh2).
  fold e in He1, He2. fold h in Hh1, Hh2.
  split; [exact He1|]. split; [exact He2|]. split.
  { intros Hcap. destruct (Z_lt_le_dec (utcnow - last) 60) as [Hd|Hd].
    - rewrite (He1 Hd). cbn. lia.
    - rewrite (He2 Hd). cbn.
      pose proof (Z.div_pos (utcnow - last) 60). lia. }
  split; [exact Hh1|]. split; [exact Hh2|]. split.
  { intros Hcap. destruct (Z_lt_le_dec (utcnow - last) 12) as [Hd|Hd].
    - rewrite (Hh1 Hd). cbn. lia.
    - rewrite (Hh2 Hd). cbn.
      pose proof (Z.div_pos (utcnow - last) 12). lia. }
  split; reflexivity.
Qed.



(** The theorem of X5 at a sample input. *)
Lemma regeneration_counts_whole_minutes_witness :
  regenerate_energy novice (Some 0) 59 = (novice, Some 0) /\
  regenerate_energy (Player.set_energy novice 40) (Some 0) 150
  = (Player.set_energy (Player.set_energy novice 40)
       (Z.min (Player.max_energy (Player.set_energy novice 40))
              (Player.energy (Player.set_energy novice 40) + (150 - 0) / 60)),
     Some 150) /\
  regenerate_health (set_health novice 40) (Some 0) 150
  = (set_health (set_health novice 40)
       (Z.min (Player.max_health (set_health novice 40))
              (Player.health (set_health novice 40) + (150 - 0) / 12)),
     Some 150).
Proof.
  split; [|split].
  - apply (proj1 (regeneration_counts_whole_minutes novice 0 59)). lia.
  - apply (proj1 (proj2 (regeneration_counts_whole_minutes
                           (Player.set_energy novice 40) 0 150))). lia.
  - apply (proj1 (proj2 (proj2 (proj2 (proj2 (regeneration_counts_whole_minutes
                           (set_health novice 40) 0 150)))))). lia.
Defined.

(** Property X6.  Regenerating at a time [t1] and again at a later time [t2] never
    yields more energy or health than regenerating once at [t2]: each
    call that adds something moves the timestamp to the time of the
    call and so drops the seconds left over from the last whole unit. *)
Theorem split_waits_regenerate_no_more (self : Player.t) (last t1 t2 : Z) :
  last <= t1 -> t1 <= t2 ->
  Player.energy self <= Player.max_energy self ->
  Player.health self <= Player.max_health self ->
  let e1 := regenerate_energy self (Some last) t1 in
  let h1 := regenerate_health self (Some last) t1 in
  Player.energy (fst (regenerate_energy (fst e1) (snd e1) t2))
  <= Player.energy (fst (regenerate_energy self (Some last) t2)) /\
  Player.health (fst (regenerate_health (fst h1) (snd h1) t2))
  <= Player.health (fst (regenerate_health self (Some last) t2)).
Proof.
  intros H1 H2 Hce Hch e1 h1. split.
  - subst e1.
    pose proof (regeneration_values self last t1) as (A1 & A2 & _).
    pose proof (regeneration_values self last t2) as (B1 & B2 & _).
    destruct (Z_lt_le_dec (t1 - last) 60) as [Hd|Hd].
    + rewrite (A1 Hd). cbn [fst snd]. lia.
    + rewrite (A2 Hd). cbn [fst snd].
      rewrite (B2 ltac:(lia)).
      pose proof (regeneration_values
                    (Player.set_energy self
                       (Z.min (Player.max_energy self)
                              (Player.energy self + (t1 - last) / 60)))
                    t1 t2) as (C1 & C2 & _).
      pose proof (Z.div_mod (t1 - last) 60 ltac:(lia)).
      pose proof (Z.mod_pos_bound (t1 - last) 60 ltac:(lia)).
      pose proof (Z.div_mod (t2 - last) 60 ltac:(lia)).
      pose proof (Z.mod_pos_bound (t2 - last) 60 ltac:(lia)).
      pose proof (Z.div_mod (t2 - t1) 60 ltac:(lia)).
      pose proof (Z.mod_pos_bound (t2 - t1) 60 ltac:(lia)).
      destruct (Z_lt_le_dec (t2 - t1) 60) as [Hd2|Hd2].
      * rewrite (C1 Hd2). cbn. lia.
      * rewrite (C2 Hd2). cbn. lia.
  - subst h1.
    pose proof (regeneration_values self last t1) as (_ & _ & A1 & A2).
    pose proof (regeneration_values self last t2) as (_ & _ & B1 & B2).
    destruct (Z_lt_le_dec (t1 - last) 12) as [Hd|Hd].
    + rewrite (A1 Hd). cbn [fst snd]. lia.
    + rewrite (A2 Hd). cbn [fst snd].
      rewrite (B2 ltac:(lia)).
      pose proof (regeneration_values
                    (set_health self
                       (Z.min (Player.max_health self)
                              (Player.health self + (t1 - last) / 12)))
                    t1 t2) as (_ & _ & C1 & C2).
      pose proof (Z.div_mod (t1 - last) 12 ltac:(lia)).
      pose proof (Z.mod_pos_bound (t1 - last) 12 ltac:(lia)).
      pose proof (Z.div_mod (t2 - last) 12 ltac:(lia)).
      pose proof (Z.mod_pos_bound (t2 - last) 12 ltac:(lia)).
      pose proof (Z.div_mod (t2 - t1) 12 ltac:(lia)).
      pose proof (Z.mod_pos_bound (t2 - t1) 12 ltac:(lia)).
      destruct (Z_lt_le_dec (t2 - t1) 12) as [Hd2|Hd2].
      * rewrite (C1 Hd2). cbn. lia.
      * rewrite (C2 Hd2). cbn. lia.
Qed.

(** The theorem of X6 at a sample input. *)
Lemma split_waits_regenerate_no_more_witness :
  Player.energy (fst (regenerate_energy
     (fst (regenerate_energy (Player.set_energy novice 40) (Some 0) 119))
     (snd (regenerate_energy (Player.set_energy novice 40) (Some 0) 119)) 178))
  <= Player.energy (fst (regenerate_energy (Player.set_energy novice 40) (Some 0) 178)) /\
  Player.health (fst (regenerate_health
     (fst (regenerate_health (Player.set_energy novice 40) (Some 0) 119))
     (snd (regenerate_health (Player.set_energy novice 40) (Some 0) 119)) 178))
  <= Player.health (fst (regenerate_health (Player.set_energy novice 40) (Some 0) 178)).
Proof.
  apply (split_waits_regenerate_no_more (Player.set_energy novice 40) 0 119 178);
    cbn; lia.
Defined.

Example split_wait_loses_a_minute :
  Player.energy (fst (regenerate_energy
     (fst (regenerate_energy (Player.set_energy novice 40) (Some 0) 119))
     (snd (regenerate_energy (Player.set_energy novice 40) (Some 0) 119)) 178)) = 41 /\
  Player.energy (fst (regenerate_energy (Player.set_energy novice 40) (Some 0) 178)) = 42.
Proof. vm_compute. split; reflexivity. Qed.

(** ** Ranks *)

(** The rank [get_player_rank] returns: one of the table, whose range
    holds the rating, or the first one for a rating outside the table. *)
Lemma get_player_rank_cases (rating : Z) :
  exists r,
    get_player_rank rating = Some r /\ In r PVP_RANKS /\
    ((0 <= rating <= 999999 /\ min_rating r <= rating <= max_rating r) \/
     ((rating < 0 \/ 999999 < rating) /\
      r = {| rank_name := "Новичок"; min_rating := 0; max_rating := 1199 |})).
Proof.
  unfold get_player_rank, PVP_RANKS. cbn [List.find min_rating max_rating].
  rank_cases;
    (eexists; split; [reflexivity|]; split; [cbn [In]; tauto|];
     cbn [min_rating max_rating lookup list_lookup];
     first [left; split; lia | right; split; [lia | reflexivity]]).
Qed.

(** Property X7.  [get_player_rank] always returns a rank of [PVP_RANKS].  For a
    rating from 0 to 999999 it is the one rank whose range holds the
    rating: the ranges of the table neither overlap nor leave a gap.  A
    rating below 0 or above 999999 gets the first rank of the table. *)
Theorem get_player_rank_finds_the_range (rating : Z) :
  exists r,
    get_player_rank rating = Some r /\ In r PVP_RANKS /\
    (0 <= rating <= 999999 ->
     min_rating r <= rating <= max_rating r /\
     (forall r', In r' PVP_RANKS ->
                 min_rating r' <= rating <= max_rating r' -> r' = r)) /\
    (rating < 0 \/ 999999 < rating ->
     r = {| rank_name := "Новичок"; min_rating := 0; max_rating := 1199 |}).
Proof.
  destruct (get_player_rank_cases rating) as (r & Hget & Hin & Hcase).
  exists r. split; [exact Hget|]. split; [exact Hin|]. split.
  - intros Hr. destruct Hcase as [[_ Hrange]|[Hout _]]; [|exfalso; lia].
    split; [exact Hrange|]. intros r' Hin' Hr'.
    unfold PVP_RANKS in Hin, Hin'. cbn [In] in Hin, Hin'.
    repeat (destruct Hin as [<-|Hin]; [|]); try contradiction;
      (repeat (destruct Hin' as [<-|Hin']; [|]); try contradiction;
       cbn [min_rating max_rating] in *; first [reflexivity | exfalso; lia]).
  - intros Hout. destruct Hcase as [[Hr _]|[_ Hfirst]]; [exfalso; lia|].
    exact Hfirst.
Qed.

(** The theorem of X7 at a sample input. *)
Lemma get_player_rank_finds_the_range_witness :
  exists r,
    get_player_rank 1650 = Some r /\
    min_rating r <= 1650 <= max_rating r /\
    get_player_rank (-40)
    = Some {| rank_name := "Новичок"; min_rating := 0; max_rating := 1199 |}.
Proof.
  destruct (get_player_rank_finds_the_range 1650) as (r & H1 & _ & H3 & _).
  destruct (get_player_rank_finds_the_range (-40)) as (r0 & G1 & _ & _ & G4).
  exists r. split; [exact H1|]. split; [apply H3; lia|].
  rewrite G1. f_equal. apply G4. lia.
Defined.

(** Property X8.  Between 0 and 999999 a higher rating never gets a lower rank: the
    rank of [b] starts at least as high as the rank of [a] when
    [a <= b]. *)
Theorem get_player_rank_is_monotone (a b : Z) :
  0 <= a -> a <= b -> b <= 999999 ->
  exists ra rb,
    get_player_rank a = Some ra /\ get_player_rank b = Some rb /\
    min_rating ra <= min_rating rb.
Proof.
  intros Ha Hab Hb.
  destruct (get_player_rank_cases a) as (ra & A1 & A2 & A3).
  destruct (get_player_rank_cases b) as (rb & B1 & B2 & B3).
  exists ra, rb. split; [exact A1|]. split; [exact B1|].
  destruct A3 as [[_ Ar]|[Aout _]]; [|exfalso; lia].
  destruct B3 as [[_ Br]|[Bout _]]; [|exfalso; lia].
  unfold PVP_RANKS in A2, B2. cbn [In] in A2, B2.
  repeat (destruct A2 as [<-|A2]; [|]); try contradiction;
    (repeat (destruct B2 as [<-|B2]; [|]); try contradiction;
     cbn [min_rating max_rating] in *; lia).
Qed.

(** The theorem of X8 at a sample input. *)
Lemma get_player_rank_is_monotone_witness :
  exists ra rb,
    get_player_rank 1300 = Some ra /\ get_player_rank 2500 = Some rb /\
    min_rating ra <= min_rating rb.
Proof. apply (get_player_rank_is_monotone 1300 2500); lia. Defined.

(** ** The experience curve, further *)

(** The integer square root of [10^4 * L^3] grows strictly with [L]. *)
Lemma root_step (L : Z) :
  0 <= L -> Z.sqrt (10000 * L ^ 3) < Z.sqrt (10000 * (L + 1) ^ 3).
Proof.
  intros HL.
  assert (H0 : 0 <= 10000 * L ^ 3) by nia.
  pose proof (Z.sqrt_spec _ H0) as Hs. cbv zeta in Hs.
  pose proof (Z.sqrt_nonneg (10000 * L ^ 3)) as Hn.
  set (t := Z.sqrt (10000 * L ^ 3)) in *.
  assert (Ht : t <= 100 * L * L).
  { destruct (Z.le_gt_cases t (100 * L * L)) as [H|H]; [exact H|exfalso].
    assert (L ^ 3 = L * L * L) by ring.
    assert ((100 * L * L) * (100 * L * L) < t * t) by nia.
    destruct (Z.eq_dec L 0) as [->|Hne]; [nia|].
    assert (1 <= L) by lia. nia. }
  assert (Hgoal : (t + 1) * (t + 1) <= 10000 * (L + 1) ^ 3).
  { assert (L ^ 3 = L * L * L) by ring.
    assert ((L + 1) ^ 3 = L * L * L + 3 * L * L + 3 * L + 1) by ring.
    nia. }
  assert (t + 1 <= Z.sqrt (10000 * (L + 1) ^ 3))
    by (apply Z.sqrt_le_square; [nia | lia | exact Hgoal]).
  lia.
Qed.

Lemma root_increasing (L L' : Z) :
  0 <= L -> L < L' -> Z.sqrt (10000 * L ^ 3) < Z.sqrt (10000 * L' ^ 3).
Proof.
  intros HL Hlt.
  replace L' with (L + 1 + Z.of_nat (Z.to_nat (L' - L - 1))) by lia.
  induction (Z.to_nat (L' - L - 1)) as [|n IH].
  - rewrite Z.add_0_r. now apply root_step.
  - etransitivity; [exact IH|].
    replace (L + 1 + Z.of_nat (S n)) with (L + 1 + Z.of_nat n + 1) by lia.
    apply root_step. lia.
Qed.

Lemma threshold_increasing (L L' : Z) :
  0 <= L -> L < L' -> L' <= 2000 ->
  int_100_pow L (3 # 2) < int_100_pow L' (3 # 2).
Proof.
  intros HL Hlt HK. rewrite !int_100_pow_1_5 by lia.
  now apply root_increasing.
Qed.

Lemma threshold_at_least_100_levels (L : Z) :
  0 <= L <= 2000 -> 100 * L <= int_100_pow L (3 # 2).
Proof.
  intros HL. rewrite int_100_pow_1_5 by exact HL.
  apply Z.sqrt_le_square; [nia | lia |].
  assert (L ^ 3 = L * L * L) by ring.
  destruct (Z.eq_dec L 0) as [->|Hne]; [lia|]. nia.
Qed.

(** Property X9.  Up to level 2000 the experience threshold [int(100 * level ** 1.5)]
    grows strictly with the level from level 0 on and is at least 100
    times the level, for [calculate_exp_for_level], for a player's
    [get_next_level_exp] and for a companion's alike. *)
Theorem thresholds_grow_with_the_level (L L' : Z) :
  0 <= L -> L < L' -> L' <= 2000 ->
  calculate_exp_for_level L < calculate_exp_for_level L' /\
  100 * L <= calculate_exp_for_level L /\
  (forall p p' : Player.t,
     Player.level p = L -> Player.level p' = L' ->
     Player.get_next_level_exp p < Player.get_next_level_exp p') /\
  (forall c c' : PlayerPet.t,
     PlayerPet.level c = L -> PlayerPet.level c' = L' ->
     PlayerPet.get_next_level_exp c < PlayerPet.get_next_level_exp c').
Proof.
  intros HL Hlt HK. unfold calculate_exp_for_level.
  split; [now apply threshold_increasing|].
  split; [apply threshold_at_least_100_levels; lia|].
  split.
  - intros p p' <- <-. unfold Player.get_next_level_exp, EXPERIENCE_MULTIPLIER.
    now apply threshold_increasing.
  - intros c c' <- <-. unfold PlayerPet.get_next_level_exp.
    now apply threshold_increasing.
Qed.

(** The theorem of X9 at a sample input. *)
Lemma thresholds_grow_with_the_level_witness :
  calculate_exp_for_level 3 < calculate_exp_for_level 4 /\
  100 * 3 <= calculate_exp_for_level 3.
Proof.
  destruct (thresholds_grow_with_the_level 3 4) as (H1 & H2 & _);
    [lia | lia | lia |].
  split; assumption.
Defined.

(** Far up the curve two neighbouring levels convert to the same float
    and have the same threshold. *)
Example thresholds_level_off :
  calculate_exp_for_level (2 ^ 53) = calculate_exp_for_level (2 ^ 53 + 1).
Proof. vm_compute. reflexivity. Qed.

(** *** Grants of experience compose *)

Lemma player_fields_eq (p q : Player.t) :
  Player.id p = Player.id q -> Player.name p = Player.name q ->
  Player.level p = Player.level q -> Player.experience p = Player.experience q ->
  Player.batons p = Player.batons q -> Player.strength p = Player.strength q ->
  Player.agility p = Player.agility q ->
  Player.intelligence p = Player.intelligence q ->
  Player.vitality p = Player.vitality q -> Player.energy p = Player.energy q ->
  Player.max_energy p = Player.max_energy q -> Player.health p = Player.health q ->
  Player.max_health p = Player.max_health q ->
  Player.pvp_rating p = Player.pvp_rating q -> Player.wins p = Player.wins q ->
  Player.losses p = Player.losses q ->
  Player.crafting_level p = Player.crafting_level q ->
  Player.crafting_experience p = Player.crafting_experience q ->
  p = q.
Proof. destruct p, q. cbn. intros. subst. reflexivity. Qed.

(** What [add_experience] returns, from the facts of [level_loop_spec]. *)
Lemma add_experience_spec (p : Player.t) (amount : Z) :
  0 <= Player.level p ->
  exists k,
    0 <= k /\
    leveled k (Player.gain p amount) (fst (Player.add_experience p amount)) /\
    Player.experience p + amount
      < int_100_pow (Player.level p + k) (3 # 2) /\
    (forall l, Player.level p <= l < Player.level p + k ->
               int_100_pow l (3 # 2) <= Player.experience p + amount).
Proof.
  intros Hl. unfold Player.add_experience.
  destruct (level_loop_spec (Player.level_fuel (Player.gain p amount))
              (Player.gain p amount) false) as (k & Hk & Hlv & Hex & Hdue & _).
  - cbn. lia.
  - unfold Player.level_fuel. lia.
  - exists k. cbn [Player.gain Player.level Player.experience] in Hex, Hdue.
    split; [exact Hk|]. split; [exact Hlv|]. split; [|exact Hdue].
    unfold Player.get_next_level_exp, EXPERIENCE_MULTIPLIER in Hex.
    destruct Hlv as (Hlevel & _). cbn [Player.gain Player.level] in Hlevel.
    now rewrite Hlevel in Hex.
Qed.

(** Property X10.  For a player of level at least 0, granting [a] and then a
    non-negative [b] with [add_experience] leaves the same player as
    granting [a + b] at once: the level reached depends on the total
    experience only. *)
Theorem add_experience_grants_compose (p : Player.t) (a b : Z) :
  0 <= Player.level p -> 0 <= b ->
  fst (Player.add_experience (fst (Player.add_experience p a)) b)
  = fst (Player.add_experience p (a + b)).
Proof.
  intros Hl Hb.
  destruct (add_experience_spec p a Hl) as (k1 & Hk1 & L1 & E1 & D1).
  set (q1 := fst (Player.add_experience p a)) in *.
  assert (Hl1 : 0 <= Player.level q1)
    by (destruct L1 as (H & _); cbn in H; lia).
  destruct (add_experience_spec q1 b Hl1) as (k2 & Hk2 & L2 & E2 & D2).
  set (q2 := fst (Player.add_experience q1 b)) in *.
  destruct (add_experience_spec p (a + b) Hl) as (k & Hk & L & E & D).
  set (r := fst (Player.add_experience p (a + b))) in *.
  unfold leveled in L1, L2, L. cbn in L1, L2, L.
  destruct L1 as (A1 & A2 & A3 & A4 & A5 & A6 & A7 & A8 & A9 & A10 & A11 & A12
                  & A13 & A14 & A15 & A16 & A17 & A18).
  destruct L2 as (B1 & B2 & B3 & B4 & B5 & B6 & B7 & B8 & B9 & B10 & B11 & B12
                  & B13 & B14 & B15 & B16 & B17 & B18).
  destruct L as (C1 & C2 & C3 & C4 & C5 & C6 & C7 & C8 & C9 & C10 & C11 & C12
                 & C13 & C14 & C15 & C16 & C17 & C18).
  rewrite A1, A8 in E2, D2.
  assert (Hkk : k = k1 + k2).
  { destruct (Z.lt_trichotomy k (k1 + k2)) as [H|[H|H]]; [exfalso| exact H |exfalso].
    - destruct (Z.lt_ge_cases (Player.level p + k) (Player.level p + k1)) as [H1|H1].
      + specialize (D1 (Player.level p + k) ltac:(lia)). lia.
      + specialize (D2 (Player.level p + k) ltac:(lia)). lia.
    - specialize (D (Player.level p + k1 + k2) ltac:(lia)). lia. }
  apply player_fields_eq; try congruence; lia.
Qed.

(** The theorem of X10 at a sample input. *)
Lemma add_experience_grants_compose_witness :
  fst (Player.add_experience (fst (Player.add_experience novice 150)) 200)
  = fst (Player.add_experience novice (150 + 200)).
Proof. apply (add_experience_grants_compose novice 150 200); cbn; lia. Defined.

(** ** Companions *)

(** *** Companions: experience *)

(** The loop of the companion's [add_experience], with enough fuel. *)
Lemma pet_level_loop_spec (fuel : nat) :
  forall (c : PlayerPet.t) (flag : bool),
    0 <= PlayerPet.level c ->
    PlayerPet.experience c - PlayerPet.level c + 1 <= Z.of_nat fuel ->
    exists k,
      0 <= k /\
      fst (pet_level_loop fuel c flag)
        = pet_set_progress c (PlayerPet.level c + k) (PlayerPet.experience c) /\
      PlayerPet.experience c < int_100_pow (PlayerPet.level c + k) (3 # 2) /\
      (forall l, PlayerPet.level c <= l < PlayerPet.level c + k ->
                 int_100_pow l (3 # 2) <= PlayerPet.experience c) /\
      snd (pet_level_loop fuel c flag) = flag || (0 <? k).
Proof.
  induction fuel as [|fuel IH]; intros c flag Hl Hf.
  - pose proof (threshold_ge_level _ Hl) as Ht.
    exists 0. cbn [pet_level_loop fst snd]. rewrite Z.add_0_r, orb_false_r.
    split; [lia|]. split; [now destruct c|]. split; [lia|].
    split; [intros l Hr; lia | reflexivity].
  - cbn [pet_level_loop]. unfold PlayerPet.get_next_level_exp.
    pose proof (threshold_ge_level _ Hl) as Ht.
    destruct (int_100_pow (PlayerPet.level c) (3 # 2) <=? PlayerPet.experience c)
      eqn:E.
    + apply Z.leb_le in E.
      destruct (IH (pet_set_progress c (PlayerPet.level c + 1)
                                     (PlayerPet.experience c)) true)
        as (k & Hk & Hfst & Hex & Hdue & Hfl).
      * cbn. lia.
      * cbn. lia.
      * cbn [pet_set_progress PlayerPet.level PlayerPet.experience] in *.
        exists (k + 1). split; [lia|].
        replace (PlayerPet.level c + (k + 1)) with (PlayerPet.level c + 1 + k)
          by lia.
        split; [rewrite Hfst; reflexivity|]. split; [exact Hex|].
        split.
        -- intros l Hr. destruct (Z.eq_dec l (PlayerPet.level c)) as [->|Hne].
           ++ exact E.
           ++ apply Hdue. lia.
        -- rewrite Hfl. replace (0 <? k + 1) with true
             by (symmetry; apply Z.ltb_lt; lia).
           now rewrite orb_true_r.
    + apply Z.leb_gt in E. exists 0. cbn [fst snd].
      rewrite Z.add_0_r, orb_false_r.
      split; [lia|]. split; [now destruct c|]. split; [exact E|].
      split; [intros l Hr; lia | reflexivity].
Qed.

(** What the companion's [add_experience] returns. *)
Lemma pet_add_experience_spec (c : PlayerPet.t) (amount : Z) :
  0 <= PlayerPet.level c ->
  exists k,
    0 <= k /\
    fst (PlayerPet_add_experience c amount)
      = pet_set_progress c (PlayerPet.level c + k)
                         (PlayerPet.experience c + amount) /\
    PlayerPet.experience c + amount
      < int_100_pow (PlayerPet.level c + k) (3 # 2) /\
    (forall l, PlayerPet.level c <= l < PlayerPet.level c + k ->
               int_100_pow l (3 # 2) <= PlayerPet.experience c + amount) /\
    snd (PlayerPet_add_experience c amount) = (0 <? k).
Proof.
  intros Hl. unfold PlayerPet_add_experience.
  set (c0 := pet_set_progress c (PlayerPet.level c)
                              (PlayerPet.experience c + amount)).
  destruct (pet_level_loop_spec
              (Z.to_nat (PlayerPet.experience c0 - PlayerPet.level c0 + 1))
              c0 false) as (k & Hk & Hfst & Hex & Hdue & Hfl).
  - exact Hl.
  - lia.
  - exists k. rewrite Hfst, Hfl. subst c0.
    cbn [pet_set_progress PlayerPet.level PlayerPet.experience
         PlayerPet.player_id PlayerPet.nickname PlayerPet.happiness
         PlayerPet.hunger PlayerPet.is_active PlayerPet.bonus_stats
         PlayerPet.pet orb] in *.
    repeat split; try assumption; reflexivity.
Qed.

(** Property X11.  For a companion of level at least 0, [PlayerPet.add_experience]
    adds the amount to the experience and raises the level as long as
    the experience reaches the threshold of the level: the level does
    not drop, every level passed had its threshold reached, the
    experience ends below the threshold of the new level, and the flag
    returned tells whether the level rose.  Nothing else of the
    companion changes: unlike a player it gains no stats with a
    level. *)
Theorem pet_add_experience_only_moves_the_level (c : PlayerPet.t) (amount : Z) :
  0 <= PlayerPet.level c ->
  let c' := fst (PlayerPet_add_experience c amount) in
  let level_up := snd (PlayerPet_add_experience c amount) in
  c' = pet_set_progress c (PlayerPet.level c') (PlayerPet.experience c + amount) /\
  PlayerPet.level c <= PlayerPet.level c' /\
  PlayerPet.experience c' < PlayerPet.get_next_level_exp c' /\
  (forall l, PlayerPet.level c <= l < PlayerPet.level c' ->
             int_100_pow l (3 # 2) <= PlayerPet.experience c + amount) /\
  level_up = (PlayerPet.level c <? PlayerPet.level c').
Proof.
  intros Hl. cbv zeta.
  destruct (pet_add_experience_spec c amount Hl)
    as (k & Hk & Hfst & Hex & Hdue & Hfl).
  rewrite Hfst, Hfl. unfold PlayerPet.get_next_level_exp.
  cbn [pet_set_progress PlayerPet.level PlayerPet.experience].
  split; [reflexivity|]. split; [lia|]. split; [exact Hex|].
  split; [exact Hdue|].
  destruct (Z.ltb_spec 0 k), (Z.ltb_spec (PlayerPet.level c)
                                         (PlayerPet.level c + k)); lia.
Qed.

(** The theorem of X11 at a sample input. *)
Lemma pet_add_experience_only_moves_the_level_witness :
  let c' := fst (PlayerPet_add_experience sprite 300) in
  let level_up := snd (PlayerPet_add_experience sprite 300) in
  c' = pet_set_progress sprite (PlayerPet.level c') (PlayerPet.experience sprite + 300) /\
  PlayerPet.level sprite <= PlayerPet.level c' /\
  PlayerPet.experience c' < PlayerPet.get_next_level_exp c' /\
  (forall l, PlayerPet.level sprite <= l < PlayerPet.level c' ->
             int_100_pow l (3 # 2) <= PlayerPet.experience sprite + 300) /\
  level_up = (PlayerPet.level sprite <? PlayerPet.level c').
Proof. apply (pet_add_experience_only_moves_the_level sprite 300). cbn. lia. Defined.

(** *** Companions: stats and mood *)

(** One stat of a companion: off [base * (L + 9) div 10 + b] by at most
    one, and by nothing unless the product is a multiple of 10. *)
Lemma pet_total_value (base L b : Z) (t : Q) :
  0 <= base <= 1000000 -> 1 <= L <= 1000000 -> 0 <= b <= 1000000 ->
  (t == inject_Z b)%Q ->
  let stat :=
    py_int (float_add (float_mul (fl (inject_Z base)) (tenths_more (L - 1)))
                      (fl t)) in
  let v := base * (L + 9) / 10 + b in
  v - 1 <= stat <= v /\
  ((base * (L + 9)) mod 10 <> 0 -> stat = v) /\
  base + b <= stat /\
  (L = 1 -> stat = base + b).
Proof.
  intros Hb HL Hb0 Ht. cbv zeta.
  destruct (damage_float base (L - 1) (proj1 Hb) ltac:(lia)) as (D0 & Did & DB).
  pose proof (scaled_close base (L - 1) Hb ltac:(lia)) as [C1 C2].
  replace (10 + (L - 1)) with (L + 9) in C1, C2 by lia.
  assert (Et : (fl t == inject_Z b)%Q).
  { rewrite (fl_comp _ _ Ht). apply fl_integer. lia. }
  assert (Eb : (fl (inject_Z base) == inject_Z base)%Q) by (apply fl_integer; lia).
  assert (DB' : (inject_Z base <= float_mul (fl (inject_Z base)) (tenths_more (L - 1)))%Q)
    by (rewrite <- Eb at 1; exact DB).
  clear DB. rename DB' into DB.
  pose proof (inject_Z_nonneg b (proj1 Hb0)) as B0.
  pose proof (inject_Z_le_million b (proj2 Hb0)) as B1.
  pose proof (inject_Z_nonneg base (proj1 Hb)) as A0.
  pose proof (inject_Z_le_million base (proj2 Hb)) as A1.
  assert (L0 : (0 <= inject_Z (L + 9))%Q) by (apply inject_Z_nonneg; lia).
  assert (L1 : (inject_Z (L + 9) <= 1000009)%Q)
    by (change 1000009%Q with (inject_Z 1000009); rewrite <- Zle_Qle; lia).
  assert (P1 : (inject_Z (base * (L + 9)) <= 1000000 * 1000009)%Q).
  { rewrite inject_Z_mult.
    apply Qle_trans with (inject_Z base * 1000009)%Q.
    - apply Qmult_le_l_nonneg; assumption.
    - apply Qmult_le_compat_r; [exact A1 | discriminate]. }
  set (d := float_mul (fl (inject_Z base)) (tenths_more (L - 1))) in *.
  assert (Esum : (d + fl t == d + inject_Z b)%Q) by (rewrite Et; reflexivity).
  assert (S0 : (0 <= d + inject_Z b)%Q).
  { apply Qle_trans with (0 + 0)%Q; [discriminate|].
    apply Qplus_le_compat; assumption. }
  pose proof (fl_error_bound _ S0) as [E1 E2].
  pose proof (fl_nonneg _ S0) as F0.
  assert (Hlow : (inject_Z (base + b) <= fl (d + inject_Z b))%Q).
  { rewrite <- (fl_integer (base + b)) by lia.
    apply fl_mono.
    - apply inject_Z_nonneg. lia.
    - rewrite inject_Z_plus. apply Qplus_le_compat; [exact DB | apply Qle_refl]. }
  assert (Estat : py_int (float_add d (fl t)) = Qfloor (fl (d + inject_Z b))).
  { unfold float_add. rewrite (py_int_comp _ _ (fl_comp _ _ Esum)).
    now apply py_int_nonneg_floor. }
  rewrite !Estat. clear Estat.
  assert (En : (inject_Z (base * (L + 9) + b * 10) * (1 # 10)
                == inject_Z (base * (L + 9)) * (1 # 10) + inject_Z b)%Q).
  { rewrite inject_Z_plus, (inject_Z_mult b 10). change (inject_Z 10) with 10%Q.
    ring. }
  destruct (floor_near_tenths (fl (d + inject_Z b)) (base * (L + 9) + b * 10))
    as [F1 F2].
  { rewrite En.
    set (x := inject_Z (base * (L + 9))) in *.
    set (y := inject_Z b) in *. set (r := fl (d + y)) in *.
    clearbody x y r d. lra. }
  rewrite Z.div_add in F1, F2 by lia. rewrite Z.mod_add in F2 by lia.
  split; [exact F1|]. split; [exact F2|]. split.
  { rewrite <- (Qfloor_Z (base + b)). now apply Qfloor_resp_le. }
  intros ->.
  assert (E0 : (tenths_more (1 - 1) == 1)%Q) by (vm_compute; reflexivity).
  assert (Ed : (d == inject_Z base)%Q).
  { unfold d, float_mul.
    assert (Ex : (fl (inject_Z base) * tenths_more (1 - 1) == inject_Z base)%Q)
      by (rewrite E0, Eb; ring).
    rewrite (fl_comp _ _ Ex). exact Eb. }
  assert (Es : (d + inject_Z b == inject_Z (base + b))%Q)
    by (rewrite Ed, inject_Z_plus; reflexivity).
  rewrite (Qfloor_comp _ _ (fl_comp _ _ Es)).
  rewrite (Qfloor_comp _ _ (fl_integer (base + b) ltac:(lia))).
  apply Qfloor_Z.
Qed.

(** Property X12.  For a companion of level 1 to a million whose base stats and
    trained bonuses are whole numbers from 0 to a million, each stat of
    [PlayerPet.get_total_stats] is [base * (level + 9) div 10] plus the
    trained bonus, or one less, and one less only where
    [base * (level + 9)] is a multiple of 10, the binary64 product then
    falling short of the whole number; it is at least the base stat
    plus the bonus, and exactly that at level 1. *)
Theorem pet_stats_grow_a_tenth_per_level (c : PlayerPet.t) (bd bf bh : Z) :
  1 <= PlayerPet.level c <= 1000000 ->
  0 <= base_damage (PlayerPet.pet c) <= 1000000 /\ 0 <= bd <= 1000000 /\
    (trained c "damage" == inject_Z bd)%Q ->
  0 <= base_defense (PlayerPet.pet c) <= 1000000 /\ 0 <= bf <= 1000000 /\
    (trained c "defense" == inject_Z bf)%Q ->
  0 <= base_health (PlayerPet.pet c) <= 1000000 /\ 0 <= bh <= 1000000 /\
    (trained c "health" == inject_Z bh)%Q ->
  let grown (base bonus stat : Z) :=
    let v := base * (PlayerPet.level c + 9) / 10 + bonus in
    v - 1 <= stat <= v /\
    ((base * (PlayerPet.level c + 9)) mod 10 <> 0 -> stat = v) /\
    base + bonus <= stat /\
    (PlayerPet.level c = 1 -> stat = base + bonus) in
  grown (base_damage (PlayerPet.pet c)) bd
        (PlayerPet.damage (PlayerPet.get_total_stats c)) /\
  grown (base_defense (PlayerPet.pet c)) bf
        (PlayerPet.defense (PlayerPet.get_total_stats c)) /\
  grown (base_health (PlayerPet.pet c)) bh
        (PlayerPet.health (PlayerPet.get_total_stats c)).
Proof.
  intros HL (Hd & Hbd & Htd) (Hf & Hbf & Htf) (Hh & Hbh & Hth). cbv zeta.
  unfold PlayerPet.get_total_stats, trained in *.
  cbn [PlayerPet.damage PlayerPet.defense PlayerPet.health].
  split; [|split].
  - exact (pet_total_value _ _ _ _ Hd HL Hbd Htd).
  - exact (pet_total_value _ _ _ _ Hf HL Hbf Htf).
  - exact (pet_total_value _ _ _ _ Hh HL Hbh Hth).
Qed.

(** The theorem of X12 at a sample input. *)
Lemma pet_stats_grow_a_tenth_per_level_witness :
  PlayerPet.damage (PlayerPet.get_total_stats sprite) = 10 + 0 /\
  PlayerPet.defense (PlayerPet.get_total_stats sprite) = 5 + 0 /\
  PlayerPet.health (PlayerPet.get_total_stats sprite) = 20 + 0.
Proof.
  destruct (pet_stats_grow_a_tenth_per_level sprite 0 0 0)
    as ((_ & _ & _ & H1) & (_ & _ & _ & H2) & (_ & _ & _ & H3));
    [cbn; lia | cbn; repeat split; try lia; reflexivity ..|].
  split; [exact (H1 eq_refl)|]. split; [exact (H2 eq_refl) | exact (H3 eq_refl)].
Defined.

(** The rounding shows where the exact product is a whole number: with
    a base of 45 at level 5 the float product is [62.99999999999999],
    and [int] gives 62 where [45 * (5 + 9) div 10] is 63. *)
Example pet_stat_rounded_down :
  py_int (float_add (float_mul (fl 45) (tenths_more (5 - 1))) (fl 0)) = 62 /\
  45 * (5 + 9) / 10 = 63.
Proof. vm_compute. split; reflexivity. Qed.

(** The hunger a companion gathers: one point per 720 seconds. *)
Lemma hunger_gain (d : Z) :
  0 <= d -> py_int (inject_Z d / 3600 * 5) = d / 720.
Proof.
  intros Hd.
  transitivity (py_int (inject_Z d * (1 # 720))).
  - apply py_int_comp. field.
  - rewrite py_int_ratio, Z.mul_1_r, Z.quot_div_nonneg by lia. reflexivity.
Qed.

Lemma happiness_loss_value (h : Z) :
  50 <= h -> py_int (inject_Z (h - 50) * (1 # 2)) = (h - 50) / 2.
Proof.
  intros Hh. rewrite py_int_ratio, Z.mul_1_r, Z.quot_div_nonneg by lia.
  reflexivity.
Qed.

(** Property X13.  For a companion whose hunger and happiness lie in 0 .. 100 and a
    [last_fed] not after the current time, [update_status] keeps both
    in 0 .. 100 and changes nothing else: the hunger grows by one point
    per 720 seconds since [last_fed], capped at 100, and when it
    exceeds 50 the happiness drops by half the excess (rounded down),
    not below 0. *)
Theorem update_status_keeps_the_mood_in_range
    (c : PlayerPet.t) (last_fed utcnow : Z) :
  mood_in_range c -> last_fed <= utcnow ->
  let c' := PlayerPet_update_status c last_fed utcnow in
  mood_in_range c' /\
  c' = pet_set_mood c (PlayerPet.hunger c') (PlayerPet.happiness c') /\
  PlayerPet.hunger c'
    = Z.min 100 (PlayerPet.hunger c + (utcnow - last_fed) / 720) /\
  PlayerPet.happiness c'
    = (if 50 <? PlayerPet.hunger c'
       then Z.max 0 (PlayerPet.happiness c - (PlayerPet.hunger c' - 50) / 2)
       else PlayerPet.happiness c) /\
  PlayerPet.hunger c <= PlayerPet.hunger c' /\
  PlayerPet.happiness c' <= PlayerPet.happiness c.
Proof.
  intros ((Hh1 & Hh2) & (Hp1 & Hp2)) Ht. cbv zeta.
  unfold PlayerPet_update_status. rewrite hunger_gain by lia.
  pose proof (Z.div_pos (utcnow - last_fed) 720 ltac:(lia) ltac:(lia)) as Hg.
  set (h := Z.min 100 (PlayerPet.hunger c + (utcnow - last_fed) / 720)).
  assert (Hh : PlayerPet.hunger c <= h <= 100) by (subst h; lia).
  destruct (50 <? h) eqn:E.
  - apply Z.ltb_lt in E. rewrite happiness_loss_value by lia.
    pose proof (Z.div_pos (h - 50) 2 ltac:(lia) ltac:(lia)) as Hl.
    unfold mood_in_range.
    cbn [pet_set_mood PlayerPet.hunger PlayerPet.happiness].
    replace (50 <? h) with true by (symmetry; apply Z.ltb_lt; lia).
    repeat split; try reflexivity; lia.
  - apply Z.ltb_ge in E. unfold mood_in_range.
    cbn [pet_set_mood PlayerPet.hunger PlayerPet.happiness].
    replace (50 <? h) with false by (symmetry; apply Z.ltb_ge; lia).
    repeat split; try reflexivity; lia.
Qed.

(** The theorem of X13 at a sample input. *)
Lemma update_status_keeps_the_mood_in_range_witness :
  let c' := PlayerPet_update_status sprite 0 72000 in
  mood_in_range c' /\
  c' = pet_set_mood sprite (PlayerPet.hunger c') (PlayerPet.happiness c') /\
  PlayerPet.hunger c'
    = Z.min 100 (PlayerPet.hunger sprite + (72000 - 0) / 720) /\
  PlayerPet.happiness c'
    = (if 50 <? PlayerPet.hunger c'
       then Z.max 0 (PlayerPet.happiness sprite - (PlayerPet.hunger c' - 50) / 2)
       else PlayerPet.happiness sprite) /\
  PlayerPet.hunger sprite <= PlayerPet.hunger c' /\
  PlayerPet.happiness c' <= PlayerPet.happiness sprite.
Proof.
  apply (update_status_keeps_the_mood_in_range sprite 0 72000).
  - unfold mood_in_range. cbn. lia.
  - lia.
Defined.

(** A look at the companion list does not reset [last_fed], so the
    hunger since the last meal is added again at every look. *)
Example update_status_counts_the_wait_twice :
  PlayerPet.hunger (PlayerPet_update_status sprite 0 7200) = 10 /\
  PlayerPet.hunger
    (PlayerPet_update_status (PlayerPet_update_status sprite 0 7200) 0 7200) = 20.
Proof. split; reflexivity. Qed.

(** Property X14.  [feed_pet] refuses a player with fewer than 10 batons and changes
    nothing then.  Otherwise it commits, takes exactly 10 batons, sets
    [last_fed] to the current time, lowers the hunger by 50 but not
    below 0, raises the happiness by 20 but not above 100 and changes
    nothing else of the companion; a companion whose mood was in range
    is left with a hunger of at most 50 and a happiness not lower than
    before, and [update_status] within the next 720 seconds then leaves
    this companion exactly as it is. *)
Theorem a_fed_companion_stays_content (w : pet_world) (utcnow later : Z) :
  mood_in_range (pt_pet w) ->
  utcnow <= later < utcnow + 720 ->
  (Player.batons (pt_player w) < 10 ->
     feed_pet w utcnow = Handled w false FeedNoBatons) /\
  (10 <= Player.batons (pt_player w) ->
     let w' := after (feed_pet w utcnow) in
     committed (feed_pet w utcnow) = true /\
     reply (feed_pet w utcnow) = Fed /\
     Player.batons (pt_player w') = Player.batons (pt_player w) - 10 /\
     pt_player w'
     = Player.set_batons (pt_player w) (Player.batons (pt_player w) - 10) /\
     pt_last_fed w' = utcnow /\
     PlayerPet.hunger (pt_pet w') = Z.max 0 (PlayerPet.hunger (pt_pet w) - 50) /\
     PlayerPet.happiness (pt_pet w')
     = Z.min 100 (PlayerPet.happiness (pt_pet w) + 20) /\
     pt_pet w' = pet_set_mood (pt_pet w) (PlayerPet.hunger (pt_pet w'))
                              (PlayerPet.happiness (pt_pet w')) /\
     mood_in_range (pt_pet w') /\
     PlayerPet.hunger (pt_pet w') <= 50 /\
     PlayerPet.happiness (pt_pet w) <= PlayerPet.happiness (pt_pet w') /\
     PlayerPet_update_status (pt_pet w') (pt_last_fed w') later = pt_pet w').
Proof.
  intros ((Hh1 & Hh2) & (Hp1 & Hp2)) Ht. unfold feed_pet. split.
  - intros Hb. now replace (Player.batons (pt_player w) <? 10) with true
      by (symmetry; apply Z.ltb_lt; lia).
  - intros Hb. replace (Player.batons (pt_player w) <? 10) with false
      by (symmetry; apply Z.ltb_ge; lia).
    cbv zeta. cbn [after committed reply pt_player pt_pet pt_last_fed].
    unfold mood_in_range.
    cbn [pet_set_mood PlayerPet.hunger PlayerPet.happiness].
    split; [reflexivity|]. split; [reflexivity|].
    split; [now destruct (pt_player w)|].
    split; [reflexivity|]. split; [reflexivity|]. split; [reflexivity|].
    split; [reflexivity|]. split; [reflexivity|].
    split; [lia|]. split; [lia|]. split; [lia|].
    unfold PlayerPet_update_status. rewrite hunger_gain by lia.
    cbn [pet_set_mood PlayerPet.hunger PlayerPet.happiness
         PlayerPet.player_id PlayerPet.nickname PlayerPet.level
         PlayerPet.experience PlayerPet.is_active PlayerPet.bonus_stats
         PlayerPet.pet].
    rewrite (Z.div_small (later - utcnow) 720) by lia.
    rewrite Z.add_0_r.
    replace (Z.min 100 (Z.max 0 (PlayerPet.hunger (pt_pet w) - 50)))
      with (Z.max 0 (PlayerPet.hunger (pt_pet w) - 50)) by lia.
    replace (50 <? Z.max 0 (PlayerPet.hunger (pt_pet w) - 50)) with false
      by (symmetry; apply Z.ltb_ge; lia).
    reflexivity.
Qed.

(** The theorem of X14 at a sample input. *)
Lemma a_fed_companion_stays_content_witness :
  let w' := after (feed_pet kennel 100) in
  Player.batons (pt_player w') = Player.batons (pt_player kennel) - 10 /\
  PlayerPet.hunger (pt_pet w') = Z.max 0 (PlayerPet.hunger (pt_pet kennel) - 50) /\
  PlayerPet.happiness (pt_pet w')
  = Z.min 100 (PlayerPet.happiness (pt_pet kennel) + 20) /\
  PlayerPet_update_status (pt_pet w') 100 200 = pt_pet w'.
Proof.
  destruct (a_fed_companion_stays_content kennel 100 200) as [_ H].
  - unfold mood_in_range. cbn. lia.
  - lia.
  - destruct H as (_ & _ & H1 & _ & H2 & H4 & H5 & _ & _ & _ & _ & H3);
      [cbn; lia|].
    cbv zeta. split; [exact H1|]. split; [exact H4|]. split; [exact H5|].
    rewrite H2 in H3. exact H3.
Defined.

(** *** Companions: training, evolution and the active one *)

Lemma assoc_set_same (k : string) (v : Q) (l : list (string * Q)) :
  assoc_find k (assoc_set k v l) = Some v.
Proof.
  induction l as [|[k' v'] l IH]; cbn [assoc_set assoc_find].
  - now rewrite String.eqb_refl.
  - destruct (String.eqb k' k) eqn:E; cbn [assoc_find]; rewrite E; auto.
Qed.

Lemma assoc_set_other (k k' : string) (v : Q) (l : list (string * Q)) :
  k' <> k -> assoc_find k' (assoc_set k v l) = assoc_find k' l.
Proof.
  intros Hne. induction l as [|[k0 v0] l IH]; cbn [assoc_set assoc_find].
  - destruct (String.eqb_spec k k'); congruence.
  - destruct (String.eqb_spec k0 k) as [->|]; cbn [assoc_find].
    + destruct (String.eqb_spec k k'); congruence.
    + destruct (String.eqb_spec k0 k'); congruence.
Qed.

Lemma halved_gain (gain : Z) : 1 <= gain <= 3 -> Z.max 1 (gain / 2) = 1.
Proof.
  intros H.
  assert (gain = 1 \/ gain = 2 \/ gain = 3) as [->|[->| ->]] by lia; reflexivity.
Qed.

(** Property X15.  [train_pet_stat] refuses a player with fewer batons than the cost
    and then changes nothing and draws nothing.  Otherwise it commits,
    takes the cost, and raises the trained bonus of the named stat by a
    gain from 1 to 3, which is exactly 1 for a companion with a
    happiness below 50; the other bonuses stay, the companion gets 10
    to 20 experience and never loses a level, and exactly two random
    draws are used. *)
Theorem training_adds_one_to_three
    (stat : string) (cost : Z) (w : pet_world) (g : rng) :
  unit_draws g -> 0 <= PlayerPet.level (pt_pet w) ->
  (Player.batons (pt_player w) < cost ->
     train_pet_stat stat cost w g = (Handled w false TrainNoBatons, g)) /\
  (cost <= Player.batons (pt_player w) ->
     exists gain exp level_up,
       let r := fst (train_pet_stat stat cost w g) in
       let w' := after r in
       reply r = Trained gain level_up /\ committed r = true /\
       1 <= gain <= 3 /\
       (PlayerPet.happiness (pt_pet w) < 50 -> gain = 1) /\
       10 <= exp <= 20 /\
       Player.batons (pt_player w') = Player.batons (pt_player w) - cost /\
       (trained (pt_pet w') stat
        == trained (pt_pet w) stat + inject_Z gain)%Q /\
       (forall k, k <> stat -> trained (pt_pet w') k = trained (pt_pet w) k) /\
       PlayerPet.experience (pt_pet w')
         = PlayerPet.experience (pt_pet w) + exp /\
       PlayerPet.level (pt_pet w) <= PlayerPet.level (pt_pet w') /\
       level_up = (PlayerPet.level (pt_pet w) <? PlayerPet.level (pt_pet w')) /\
       pt_last_fed w' = pt_last_fed w /\
       snd (train_pet_stat stat cost w g)
         = {| draws := draws g; cursor := (cursor g + 2)%nat |}).
Proof.
  intros Hg Hl. unfold train_pet_stat. split.
  - intros Hb. now replace (Player.batons (pt_player w) <? cost) with true
      by (symmetry; apply Z.ltb_lt; lia).
  - intros Hb. replace (Player.batons (pt_player w) <? cost) with false
      by (symmetry; apply Z.ltb_ge; lia).
    cbv zeta.
    destruct (randint_draw_spec 1 3 g ltac:(lia) (proj1 (Hg _)) (proj2 (Hg _)))
      as (Hr1 & _ & Hg1).
    destruct (randint_draw 1 3 g) as [gain0 g1] eqn:E1. cbn [fst snd] in Hr1, Hg1.
    assert (Hg1u : unit_draws g1) by (subst g1; intros i; apply Hg).
    destruct (randint_draw_spec 10 20 g1 ltac:(lia)
                (proj1 (Hg1u _)) (proj2 (Hg1u _))) as (Hr2 & _ & Hg2).
    destruct (randint_draw 10 20 g1) as [exp g2] eqn:E2. cbn [fst snd] in Hr2, Hg2.
    set (gain := if PlayerPet.happiness (pt_pet w) <? 50
                 then Z.max 1 (gain0 / 2) else gain0).
    set (c1 := pet_set_bonus_stats _ _).
    assert (Hl1 : 0 <= PlayerPet.level c1) by exact Hl.
    destruct (pet_add_experience_spec c1 exp Hl1)
      as (k & Hk & Hfst & _ & _ & Hfl).
    destruct (PlayerPet_add_experience c1 exp) as [c2 level_up] eqn:E3.
    cbn [fst snd] in Hfst, Hfl. subst c2 level_up.
    exists gain, exp, (0 <? k).
    cbn [fst snd after reply committed pt_player pt_pet pt_last_fed].
    split; [reflexivity|]. split; [reflexivity|].
    assert (Hgain : 1 <= gain <= 3).
    { subst gain. destruct (PlayerPet.happiness (pt_pet w) <? 50).
      - rewrite halved_gain by lia. lia.
      - lia. }
    split; [exact Hgain|].
    split.
    { intros Hh. subst gain.
      replace (PlayerPet.happiness (pt_pet w) <? 50) with true
        by (symmetry; apply Z.ltb_lt; lia).
      now apply halved_gain. }
    split; [exact Hr2|].
    split; [now destruct (pt_player w)|].
    unfold trained. subst c1.
    cbn [pet_set_progress pet_set_bonus_stats PlayerPet.bonus_stats
         PlayerPet.level PlayerPet.experience].
    split; [rewrite assoc_set_same; cbn [default]; reflexivity|].
    split; [intros k' Hk'; now rewrite assoc_set_other|].
    split; [reflexivity|]. split; [lia|].
    split.
    { destruct (Z.ltb_spec 0 k),
        (Z.ltb_spec (PlayerPet.level (pt_pet w))
                    (PlayerPet.level (pt_pet w) + k)); lia. }
    split; [reflexivity|].
    rewrite Hg2, Hg1. cbn [draws cursor]. f_equal. lia.
Qed.

(** The theorem of X15 at a sample input. *)
Lemma training_adds_one_to_three_witness :
  exists gain exp level_up,
    reply (fst (train_pet_stat "damage" 20 kennel steady)) = Trained gain level_up /\
    1 <= gain <= 3 /\ 10 <= exp <= 20 /\
    Player.batons (pt_player (after (fst (train_pet_stat "damage" 20 kennel steady))))
      = 100 - 20.
Proof.
  destruct (training_adds_one_to_three "damage" 20 kennel steady) as [_ H].
  - exact steady_unit_draws.
  - cbn. lia.
  - destruct H as (gain & exp & level_up & H1 & _ & H3 & _ & H5 & H6 & _);
      [cbn; lia|].
    exists gain, exp, level_up. repeat split; try assumption; lia.
Defined.




(** *** The active companion *)

(** The rows [toggle_pet] puts to rest keep their owner, and the ones
    still active afterwards belong to somebody else. *)
Lemma rested_row (c p0 : PlayerPet.t) :
  let f := fun other_pet =>
             if (PlayerPet.player_id other_pet =? PlayerPet.player_id c)
                && PlayerPet.is_active other_pet
             then pet_set_active other_pet false else other_pet in
  PlayerPet.player_id (f p0) = PlayerPet.player_id p0 /\
  (PlayerPet.is_active (f p0) = true ->
     f p0 = p0 /\ PlayerPet.player_id p0 <> PlayerPet.player_id c).
Proof.
  cbv beta zeta.
  destruct (Z.eqb_spec (PlayerPet.player_id p0) (PlayerPet.player_id c)) as [E|E];
    destruct (PlayerPet.is_active p0) eqn:A; cbn [andb];
    cbn [pet_set_active PlayerPet.player_id PlayerPet.is_active];
    (split; [reflexivity|]); try rewrite A; intros H;
    try discriminate; split; auto.
Qed.

(** Property X17.  If no player has two active companions before [toggle_pet], none
    has after it.  An unknown id changes nothing and commits nothing;
    otherwise the handler commits, flips [is_active] of the companion
    named and leaves the companions of every other player as they
    were. *)
Theorem toggle_pet_keeps_one_active_companion
    (pet_id : nat) (pets : list PlayerPet.t) :
  one_active_each pets ->
  one_active_each (after (toggle_pet pet_id pets)) /\
  (pets !! pet_id = None ->
     toggle_pet pet_id pets = Handled pets false PetNotFound) /\
  (forall c, pets !! pet_id = Some c ->
     committed (toggle_pet pet_id pets) = true /\
     reply (toggle_pet pet_id pets)
       = PetToggled (negb (PlayerPet.is_active c)) /\
     after (toggle_pet pet_id pets) !! pet_id
       = Some (pet_set_active c (negb (PlayerPet.is_active c))) /\
     (forall j q, after (toggle_pet pet_id pets) !! j = Some q ->
        PlayerPet.player_id q <> PlayerPet.player_id c -> pets !! j = Some q)).
Proof.
  intros Hone. unfold toggle_pet.
  destruct (pets !! pet_id) as [c|] eqn:Hc; cbn [after committed reply].
  2: { split; [exact Hone|]. split; [reflexivity|]. intros c; discriminate. }
  assert (Hlen : (pet_id < length pets)%nat) by (eapply lookup_lt_Some; eauto).
  destruct (PlayerPet.is_active c) eqn:Ac; cbn [negb].
  - (* the active companion is put to rest *)
    split; [|split; [discriminate|]].
    + intros i j p q Hi Hj Hpl Hp Hq.
      apply list_lookup_insert_Some in Hi, Hj.
      destruct Hi as [(_ & <- & _)|(Hi1 & Hi2)]; [discriminate Hp|].
      destruct Hj as [(_ & <- & _)|(Hj1 & Hj2)]; [discriminate Hq|].
      eapply Hone; eauto.
    + intros c' [= <-]. rewrite Ac. cbn [negb].
      split; [reflexivity|]. split; [reflexivity|].
      split; [now apply list_lookup_insert_eq|].
      intros j q Hj Hne. apply list_lookup_insert_Some in Hj.
      destruct Hj as [(_ & <- & _)|(_ & Hj)]; [now destruct Hne | exact Hj].
  - (* a resting companion takes over *)
    split; [|split; [discriminate|]].
    + intros i j p q Hi Hj Hpl Hp Hq.
      apply list_lookup_insert_Some in Hi, Hj.
      destruct Hi as [(<- & <- & _)|(Hi1 & Hi2)];
        destruct Hj as [(Hj0 & <- & _)|(Hj1 & Hj2)].
      * exact Hj0.
      * apply list_lookup_fmap_Some in Hj2 as (q0 & -> & Hq0).
        destruct (rested_row c q0) as (Hid & Hact). cbv beta zeta in Hid, Hact, Hpl, Hp, Hq.
        destruct (Hact Hq) as (_ & Hne). rewrite Hid in Hpl.
        cbn in Hpl. congruence.
      * apply list_lookup_fmap_Some in Hi2 as (p0 & -> & Hp0).
        destruct (rested_row c p0) as (Hid & Hact). cbv beta zeta in Hid, Hact, Hpl, Hp, Hq.
        destruct (Hact Hp) as (_ & Hne). rewrite Hid in Hpl.
        cbn in Hpl. congruence.
      * apply list_lookup_fmap_Some in Hi2 as (p0 & -> & Hp0).
        apply list_lookup_fmap_Some in Hj2 as (q0 & -> & Hq0).
        destruct (rested_row c p0) as (Hidp & Hactp).
        destruct (rested_row c q0) as (Hidq & Hactq).
        cbv beta zeta in Hidp, Hactp, Hidq, Hactq, Hpl, Hp, Hq.
        destruct (Hactp Hp) as (Ep & _). destruct (Hactq Hq) as (Eq & _).
        rewrite Ep in Hp. rewrite Eq in Hq. rewrite Hidp, Hidq in Hpl.
        eapply Hone; eauto.
    + intros c' [= <-]. rewrite Ac. cbn [negb].
      split; [reflexivity|]. split; [reflexivity|].
      split; [apply list_lookup_insert_eq; now rewrite length_fmap|].
      intros j q Hj Hne. apply list_lookup_insert_Some in Hj.
      destruct Hj as [(_ & <- & _)|(_ & Hj)]; [now destruct Hne|].
      apply list_lookup_fmap_Some in Hj as (q0 & -> & Hq0).
      rewrite Hq0. f_equal. cbv beta in *.
      destruct (Z.eqb_spec (PlayerPet.player_id q0) (PlayerPet.player_id c))
        as [E|E]; [|reflexivity].
      destruct (PlayerPet.is_active q0); cbn [andb] in *; [|reflexivity].
      now destruct Hne.
Qed.

Lemma stable_one_active : one_active_each stable.
Proof.
  intros i j p q Hi Hj _ Hp Hq.
  destruct i as [|[|i]], j as [|[|j]]; cbn in Hi, Hj;
    try discriminate; try reflexivity;
    injection Hi as <-; injection Hj as <-; discriminate.
Defined.

(** The theorem of X17 at a sample input. *)
Lemma toggle_pet_keeps_one_active_companion_witness :
  one_active_each (after (toggle_pet 1 stable)) /\
  after (toggle_pet 1 stable) = [pet_set_active sprite false; sprite].
Proof.
  split; [|reflexivity].
  apply (toggle_pet_keeps_one_active_companion 1 stable).
  exact stable_one_active.
Defined.

(** ** Fights, further *)

(** *** The books of a fight *)

Lemma loop_S {S : Type} (guard : S -> bool) (round : S -> S)
    (fuel : nat) (s : S) :
  loop guard round (Datatypes.S fuel) s
  = if guard s then loop guard round fuel (round s) else s.
Proof. reflexivity. Qed.

Lemma pve_round_books ps n m g f :
  fighting f = true ->
  pve_books (ps !!! "health") m g f ->
  pve_books (ps !!! "health") m g (pve_round ps n m f).
Proof.
  intros Hg (Hd & Hc & Hr & Hlen & Hb & Ha).
  apply fighting_true in Hg. destruct Hg as (Ga & Gb & Gr).
  replace (Qltb 0 (hp_b f)) with true in Hlen
    by (symmetry; apply Qltb_lt; exact Gb).
  pose proof (pve_round_hp_b ps n m f) as Eb.
  pose proof (pve_round_hp_a ps n m f) as Ea.
  pose proof (spec_damage_ge_1 (ps !!! "damage") (inject_Z (monster_defense m))
                (Qltb (draw (gen f) 0) (ps !!! "critical_chance" / 100))) as D1.
  pose proof (spec_damage_ge_1 (inject_Z (monster_damage m)) (ps !!! "defense")
                false) as D2.
  assert (Hb' : (hp_b (pve_round ps n m f)
                 <= inject_Z (monster_health m) - inject_Z (rounds f + 1))%Q).
  { rewrite Eb, inject_Z_plus. change (inject_Z 1) with 1%Q. lra. }
  assert (Ha' : (hp_a (pve_round ps n m f) <= ps !!! "health")%Q).
  { rewrite Ea. destruct (Qltb 0 (hp_b (pve_round ps n m f))); [|exact Ha].
    destruct (Qltb (draw (gen f) 1) (ps !!! "dodge_chance" / 100)); lra. }
  assert (Hrest :
    draws (gen (pve_round ps n m f)) = draws g /\
    cursor (gen (pve_round ps n m f))
      = (cursor g + length (battle_log (pve_round ps n m f)))%nat /\
    Z.of_nat (length (battle_log (pve_round ps n m f)))
      = 2 * (rounds f + 1)
        - (if Qltb 0 (hp_b (pve_round ps n m f)) then 0 else 1)).
  { clear Ea Eb D1 D2 Hb' Ha'. unfold pve_round. cbn [random draws cursor].
    destruct (Qltb 0 (hp_b f - _)) eqn:Ealive.
    - destruct (Qltb _ (ps !!! "dodge_chance" / 100));
        cbn [hp_b]; rewrite Ealive; cbn [gen battle_log draws cursor];
        rewrite !length_app; cbn [length];
        (split; [exact Hd|]); split; lia.
    - cbn [hp_b]. rewrite Ealive. cbn [gen battle_log draws cursor].
      rewrite !length_app. cbn [length].
      split; [exact Hd|]. split; lia. }
  destruct Hrest as (Hd' & Hc' & Hlen').
  unfold pve_books. rewrite pve_round_rounds.
  replace (rounds f + 1 =? 0) with false by (symmetry; apply Z.eqb_neq; lia).
  repeat split; try assumption; lia.
Qed.

(** Property X18.  In [battle_calculation] the random generator is only advanced, by
    exactly one draw per line of the battle log; the log has two lines
    per round, less one when the monster fell in the last round; the
    fight takes at most 20 rounds and at least one when both start
    alive; the monster loses at least 1 health in every round, and the
    player ends with no more health than the total the fight started
    from. *)
Theorem battle_calculation_keeps_its_books
    (player : Player.t) (monster : Monster) (s : Session) (g : rng) :
  let f := pve_exit player monster s g in
  let r := battle_calculation player monster s g in
  draws (result_gen r) = draws g /\
  cursor (result_gen r) = (cursor g + length (result_log r))%nat /\
  0 <= result_rounds r <= 20 /\
  Z.of_nat (length (result_log r))
    = 2 * result_rounds r
      - (if Qltb 0 (hp_b f) then 0 else if result_rounds r =? 0 then 0 else 1) /\
  (hp_b f <= inject_Z (monster_health monster) - inject_Z (result_rounds r))%Q /\
  (remaining_hp r <= get_total_stats player s !!! "health")%Q /\
  ((0 < get_total_stats player s !!! "health")%Q ->
   0 < monster_health monster -> 1 <= result_rounds r).
Proof.
  cbv zeta. unfold battle_calculation.
  cbn [result_of result_gen result_log result_rounds remaining_hp].
  pose proof (pve_exit_spec player monster s g) as (Hexit & Hr).
  assert (Hinv : pve_books (get_total_stats player s !!! "health") monster g
                   (pve_exit player monster s g)).
  { unfold pve_exit.
    apply (loop_invariant fighting _
             (pve_books (get_total_stats player s !!! "health") monster g)).
    - intros f Hg Hf. now apply pve_round_books.
    - unfold pve_books, pve_start.
      cbn [gen battle_log rounds hp_a hp_b length].
      rewrite Nat.add_0_r. change (inject_Z 0) with 0%Q.
      destruct (Qltb 0 (inject_Z (monster_health monster)));
        repeat split; try reflexivity; try lia; lra. }
  destruct Hinv as (Hd & Hc & _ & Hlen & Hb & Ha).
  repeat split; try assumption; try lia.
  intros Hp Hm. unfold pve_exit.
  set (ps := get_total_stats player s).
  assert (Hgo : fighting (pve_start ps monster g) = true).
  { apply fighting_true. cbn [pve_start hp_a hp_b rounds].
    split; [exact Hp|]. split; [|lia].
    change 0%Q with (inject_Z 0). rewrite <- Zlt_Qlt. exact Hm. }
  change 20%nat with (S 19). rewrite loop_S, Hgo.
  apply (loop_invariant fighting _ (fun f => 1 <= rounds f)).
  - intros f Hg Hf. rewrite pve_round_rounds. lia.
  - rewrite pve_round_rounds. cbn. lia.
Qed.

(** *** The settlement of a duel *)

Lemma pvp_round_draws ps os pn on f :
  draws (gen (pvp_round ps os pn on f)) = draws (gen f).
Proof. unfold pvp_round. cbn [random]. split_ifs; reflexivity. Qed.

Lemma pvp_exit_draws player opponent s g :
  draws (gen (pvp_exit player opponent s g)) = draws g.
Proof.
  unfold pvp_exit.
  apply (loop_invariant fighting _ (fun f => draws (gen f) = draws g)).
  - intros f _ Hf. now rewrite pvp_round_draws.
  - reflexivity.
Qed.

Section Settlement.
Variable calculate_rating_change : Z -> Z -> bool -> Z.

(** Property X19.  When [process_pvp_attack] is paid for (energy at least 20, draws in
    [0, 1)), whatever [calculate_rating_change] returns: the rating
    one player gains is the rating the other loses, so their sum stays;
    each of the two has one more game on record and together they have
    one more win; the attacker pays exactly 20 energy and keeps the
    health field; of the opponent only rating, wins and losses change.
    A victory gives the attacker 50 to 100 batons and 100 to 200
    experience; a defeat changes nothing of the attacker but energy,
    rating and the record of wins and losses. *)
Theorem pvp_settlement_moves_rating_between_the_two
    (w : pvp_world) (s : Session) (g : rng) :
  20 <= Player.energy (pw_player w) -> unit_draws g ->
  let p := pw_player w in
  let o := pw_opponent w in
  let h := fst (process_pvp_attack calculate_rating_change w s g) in
  let p' := pw_player (after h) in
  let o' := pw_opponent (after h) in
  Player.pvp_rating p' + Player.pvp_rating o'
    = Player.pvp_rating p + Player.pvp_rating o /\
  Player.wins p' + Player.losses p' = Player.wins p + Player.losses p + 1 /\
  Player.wins o' + Player.losses o' = Player.wins o + Player.losses o + 1 /\
  Player.wins p' + Player.wins o' = Player.wins p + Player.wins o + 1 /\
  Player.energy p' = Player.energy p - 20 /\
  Player.health p' = Player.health p /\
  o' = Player.set_pvp o (Player.pvp_rating o') (Player.wins o') (Player.losses o') /\
  (announces_victory (reply h) = true ->
     50 <= Player.batons p' - Player.batons p <= 100 /\
     100 <= Player.experience p' - Player.experience p <= 200 /\
     Player.pvp_rating p' - Player.pvp_rating p
       = calculate_rating_change (Player.pvp_rating p) (Player.pvp_rating o) true) /\
  (announces_victory (reply h) = false ->
     p' = Player.set_pvp (Player.set_energy p (Player.energy p - 20))
            (Player.pvp_rating p') (Player.wins p') (Player.losses p') /\
     Player.pvp_rating p - Player.pvp_rating p'
       = calculate_rating_change (Player.pvp_rating p) (Player.pvp_rating o) false).
Proof.
  intros He Hg. cbv zeta. unfold process_pvp_attack.
  replace (Player.energy (pw_player w) <? 20) with false
    by (symmetry; apply Z.ltb_ge; exact He).
  set (paid := Player.set_energy (pw_player w) (Player.energy (pw_player w) - 20)).
  set (f := pvp_exit paid (pw_opponent w) s g).
  assert (Hf : unit_draws (gen f)).
  { intros i. unfold f. rewrite pvp_exit_draws. apply Hg. }
  destruct (Qltb 0 (hp_a f)) eqn:Ev.
  - destruct (randint_draw_spec 50 100 (gen f) ltac:(lia)
                (proj1 (Hf _)) (proj2 (Hf _))) as (Hb & _ & Hg1).
    destruct (randint_draw 50 100 (gen f)) as [b g1]. cbn [fst snd] in Hb, Hg1.
    assert (Hf1 : unit_draws g1) by (subst g1; intros i; apply Hf).
    destruct (randint_draw_spec 100 200 g1 ltac:(lia)
                (proj1 (Hf1 _)) (proj2 (Hf1 _))) as (Hx & _ & _).
    destruct (randint_draw 100 200 g1) as [e g2]. cbn [fst snd] in Hx.
    match goal with |- context [Player.add_experience ?q e] =>
      pose proof (level_loop_frame (Player.level_fuel (Player.gain q e))
                    (Player.gain q e) false) as Hfr;
      change (Player.level_loop (Player.level_fuel (Player.gain q e))
                (Player.gain q e) false)
        with (Player.add_experience q e) in Hfr;
      destruct (Player.add_experience q e) as [q' lu] end.
    cbv zeta in Hfr.
    cbn [fst snd after reply announces_victory pw_player pw_opponent] in *.
    cbn [Player.gain Player.set_batons Player.set_pvp Player.set_energy paid
         Player.id Player.name Player.batons Player.energy Player.health
         Player.pvp_rating Player.wins Player.losses Player.experience] in Hfr.
    destruct Hfr as (_ & _ & Fb & Fe & Fh & Fr & Fw & Fl & Fx).
    unfold paid in *.
    cbn [Player.set_energy Player.set_pvp Player.pvp_rating Player.wins
         Player.losses Player.energy Player.health Player.batons
         Player.experience] in *.
    rewrite Fb, Fe, Fh, Fr, Fw, Fl, Fx.
    repeat split; try lia; try discriminate.
  - cbn [fst snd after reply announces_victory pw_player pw_opponent].
    unfold paid.
    cbn [Player.set_energy Player.set_pvp Player.pvp_rating Player.wins
         Player.losses Player.energy Player.health Player.batons
         Player.experience].
    repeat split; try lia; try discriminate.
Qed.

End Settlement.

(** The theorem of X19 at a sample input. *)
Lemma pvp_settlement_moves_rating_between_the_two_witness :
  let h := fst (process_pvp_attack (fun _ _ _ => 16) duel empty_session steady) in
  Player.pvp_rating (pw_player (after h)) + Player.pvp_rating (pw_opponent (after h))
    = 1000 + 1000 /\
  Player.energy (pw_player (after h)) = 100 - 20.
Proof.
  destruct (pvp_settlement_moves_rating_between_the_two
              (fun _ _ _ => 16) duel empty_session steady)
    as (H1 & _ & _ & _ & H5 & _).
  - cbn. lia.
  - exact steady_unit_draws.
  - split; [exact H1 | exact H5].
Defined.

(** *** Dungeon fights and the companion *)

(** Without a companion a round of [dungeon_battle] is a round of
    [battle_calculation]. *)
Lemma dungeon_round_alone ps n m d :
  df_pet d = None ->
  df_fight (dungeon_round ps n m d) = pve_round ps n m (df_fight d) /\
  df_pet (dungeon_round ps n m d) = None.
Proof.
  intros Hpet. unfold dungeon_round, dungeon_pet_move.
  cbn [df_pet df_fight]. rewrite Hpet. cbn [df_pet df_fight fmap option_fmap option_map].
  split; [|reflexivity].
  unfold dungeon_monster_move, dungeon_player_move, pve_round.
  cbn [random hp_a hp_b rounds battle_log gen].
  destruct (Qltb 0 (hp_b (df_fight d) - _)); [|reflexivity].
  destruct (Qltb _ (ps !!! "dodge_chance" / 100)); reflexivity.
Qed.

Lemma dungeon_loop_alone ps n m (fuel : nat) :
  forall d, df_pet d = None ->
    df_fight (loop (fun d => fighting (df_fight d)) (dungeon_round ps n m) fuel d)
    = loop fighting (pve_round ps n m) fuel (df_fight d).
Proof.
  induction fuel as [|fuel IH]; intros d Hpet; cbn [loop]; [reflexivity|].
  destruct (fighting (df_fight d)); [|reflexivity].
  destruct (dungeon_round_alone ps n m d Hpet) as (Hf & Hp).
  rewrite IH by exact Hp. now rewrite Hf.
Qed.

(** Property X20.  For a player without an active companion, [dungeon_battle] returns
    what [battle_calculation] returns for the same player, monster,
    session and random draws: the same verdict, remaining health, log
    and number of rounds. *)
Theorem dungeon_battle_without_companion_is_battle_calculation
    (player : Player.t) (monster : Monster) (s : Session) (g : rng) :
  active_pet s player = None ->
  dungeon_battle player monster s g = battle_calculation player monster s g.
Proof.
  intros Hnone. unfold dungeon_battle, battle_calculation, dungeon_exit, pve_exit.
  f_equal. rewrite dungeon_loop_alone.
  - unfold dungeon_start, dungeon_stats, pve_start. rewrite Hnone. reflexivity.
  - unfold dungeon_start. cbn [df_pet]. now rewrite Hnone.
Qed.

(** The theorem of X20 at a sample input. *)
Lemma dungeon_battle_without_companion_is_battle_calculation_witness :
  dungeon_battle novice ogre empty_session steady
  = battle_calculation novice ogre empty_session steady.
Proof.
  apply (dungeon_battle_without_companion_is_battle_calculation
           novice ogre empty_session steady).
  reflexivity.
Defined.

(** *** Cooldowns *)

Lemma update_cooldowns_iter (k : nat) (self : DungeonPetEffect.t) :
  DungeonPetEffect.player_pet (Nat.iter k DungeonPetEffect.update_cooldowns self)
    = DungeonPetEffect.player_pet self /\
  forall i c,
    DungeonPetEffect.ability_cooldowns self !! i = Some c ->
    DungeonPetEffect.ability_cooldowns
      (Nat.iter k DungeonPetEffect.update_cooldowns self) !! i
    = Some (if Nat.eqb k 0 then c else Z.max 0 (c - Z.of_nat k)).
Proof.
  induction k as [|k (IHp & IHc)].
  - split; [reflexivity|]. intros i c Hc. exact Hc.
  - rewrite Nat.iter_succ. split; [exact IHp|].
    intros i c Hc. specialize (IHc i c Hc).
    unfold DungeonPetEffect.update_cooldowns at 1.
    cbn [DungeonPetEffect.ability_cooldowns Nat.eqb].
    rewrite lookup_fmap, IHc. cbn [fmap option_fmap option_map]. f_equal.
    destruct k; cbn [Nat.eqb]; lia.
Qed.

(** Property X21.  When [use_combat_ability] reports a use, the ability used was one
    of the available ones, its cooldown is recorded, one random draw
    was consumed, and after [k] calls of [update_cooldowns] the ability
    is available again exactly when its cooldown is at most [k]. *)
Theorem a_used_ability_rests_for_its_cooldown
    (self self' : DungeonPetEffect.t) (bs bs' : battle_state) (g g' : rng)
    (e : event) :
  DungeonPetEffect.use_combat_ability self bs g = (Some e, bs', self', g') ->
  exists a,
    In a (DungeonPetEffect.available_abilities self) /\
    e = PetUses (DungeonPetEffect.display_name self) (ability_name a)
                (assoc_find "damage" (ability_effect a))
                (assoc_find "heal" (ability_effect a)) /\
    DungeonPetEffect.ability_cooldowns self' !! ability_id a
      = Some (ability_cooldown a) /\
    g' = {| draws := draws g; cursor := S (cursor g) |} /\
    forall k : nat,
      In a (DungeonPetEffect.available_abilities
              (Nat.iter k DungeonPetEffect.update_cooldowns self'))
      <-> ability_cooldown a <= Z.of_nat k.
Proof.
  unfold DungeonPetEffect.use_combat_ability.
  destruct (DungeonPetEffect.available_abilities self) as [|a0 l] eqn:Eav;
    [discriminate|].
  destruct (choice (a0 :: l) g) as [[a g1]|] eqn:Ech; [|discriminate].
  intros [= <- _ <- <-]. exists a.
  pose proof (choice_In _ _ _ _ Ech) as Hin.
  split; [exact Hin|]. split; [reflexivity|].
  cbn [DungeonPetEffect.ability_cooldowns].
  split; [apply lookup_insert_eq|].
  split.
  { unfold choice in Ech. cbn [random] in Ech.
    destruct (_ !! _); [|discriminate]. now injection Ech as _ <-. }
  intros k.
  set (used := DungeonPetEffect.mk _ _).
  destruct (update_cooldowns_iter k used) as (Hp & Hc).
  pose proof (Hc (ability_id a) (ability_cooldown a)
                (lookup_insert_eq _ _ _)) as Hv.
  rewrite <- Eav in Hin.
  unfold DungeonPetEffect.available_abilities in Hin |- *.
  apply filter_In in Hin. destruct Hin as (Hab & Hok).
  rewrite filter_In, Hp, Hv. cbn [default DungeonPetEffect.player_pet used].
  apply andb_true_iff in Hok as (Hok & _).
  unfold DungeonPetEffect.unlocked in *. rewrite Hp.
  cbn [DungeonPetEffect.player_pet used]. rewrite Hok. cbn [andb].
  rewrite Z.leb_le. unfold id. destruct k; cbn [Nat.eqb]; intuition lia.
Qed.

(** The theorem of X21 at a sample input. *)
Lemma a_used_ability_rests_for_its_cooldown_witness :
  let used :=
    DungeonPetEffect.use_combat_ability (DungeonPetEffect.init sprite) arena steady in
  exists a,
    In a (DungeonPetEffect.available_abilities (DungeonPetEffect.init sprite)) /\
    forall k : nat,
      In a (DungeonPetEffect.available_abilities
              (Nat.iter k DungeonPetEffect.update_cooldowns (snd (fst used))))
      <-> ability_cooldown a <= Z.of_nat k.
Proof.
  cbv zeta.
  destruct (a_used_ability_rests_for_its_cooldown
              (DungeonPetEffect.init sprite)
              (snd (fst (DungeonPetEffect.use_combat_ability
                           (DungeonPetEffect.init sprite) arena steady)))
              arena
              (snd (fst (fst (DungeonPetEffect.use_combat_ability
                                (DungeonPetEffect.init sprite) arena steady))))
              steady
              (snd (DungeonPetEffect.use_combat_ability
                      (DungeonPetEffect.init sprite) arena steady))
              (PetUses "sprite" "mend" (Some 5%Q) (Some 3%Q)) eq_refl)
    as (a & H1 & _ & _ & _ & H5).
  exists a. split; [exact H1 | exact H5].
Defined.

(** *** What a fight reads of a player *)




(** ** Crafting and the inventory *)

(** *** Crafting *)

Lemma row_of_other (pid a b : Z) (row : Inventory) :
  a <> b -> row_of pid a row = true -> row_of pid b row = false.
Proof.
  unfold row_of. intros Hne H. apply andb_true_iff in H as (_ & H).
  apply Z.eqb_eq in H. apply andb_false_iff. right. apply Z.eqb_neq. lia.
Qed.

(** Changing the row of one item leaves the rows of the others alone. *)
Lemma find_row_change_other (pid a b delta : Z) (del : bool)
    (inv : list Inventory) :
  a <> b ->
  find_row pid b (change_row pid a delta del inv) = find_row pid b inv.
Proof.
  intros Hne. unfold find_row.
  induction inv as [|row rest IH]; cbn [change_row List.find]; [reflexivity|].
  destruct (row_of pid a row) eqn:Ea.
  - rewrite (row_of_other pid a b row Hne Ea).
    destruct (del && (quantity row + delta =? 0)); [reflexivity|].
    cbn [List.find]. unfold row_of in *. cbn [inv_player_id inv_item_id].
    apply andb_true_iff in Ea as (E1 & E2). apply Z.eqb_eq in E2.
    replace (inv_item_id row =? b) with false
      by (symmetry; apply Z.eqb_neq; lia).
    now rewrite andb_false_r.
  - cbn [List.find]. destruct (row_of pid b row); [reflexivity | exact IH].
Qed.

(** When the loop of [create_item] runs to its end. *)
Lemma consume_materials_runs (pid : Z) (mats : list (Z * Z)) :
  NoDup (fst <$> mats) ->
  forall inv,
    snd (consume_materials pid mats inv) = true <->
    (forall m, In m mats ->
       exists row, find_row pid (fst m) inv = Some row /\ snd m <= quantity row).
Proof.
  induction mats as [|[a req] rest IH]; intros Hnd inv; cbn [consume_materials].
  - split; [intros _ m []|reflexivity].
  - cbn [fmap list_fmap fst] in Hnd. apply NoDup_cons in Hnd as (Hnot & Hnd).
    destruct (find_row pid a inv) as [row|] eqn:Erow.
    + destruct (Z.ltb_spec (quantity row) req) as [Hlt|Hge].
      * split; [discriminate|]. intros H.
        destruct (H (a, req) (or_introl eq_refl)) as (row' & Hr & Hq).
        cbn [fst snd] in Hr, Hq. rewrite Erow in Hr. injection Hr as <-. lia.
      * rewrite (IH Hnd). split.
        -- intros H m [<-|Hin].
           ++ exists row. cbn [fst snd]. split; [exact Erow | exact Hge].
           ++ destruct (H m Hin) as (row' & Hr & Hq). exists row'.
              split; [|exact Hq]. rewrite <- Hr. symmetry.
              apply find_row_change_other. intros ->. apply Hnot.
              apply list_elem_of_fmap. exists m. split; [reflexivity|].
              now apply list_elem_of_In.
        -- intros H m Hin. destruct (H m (or_intror Hin)) as (row' & Hr & Hq).
           exists row'. split; [|exact Hq]. rewrite <- Hr.
           apply find_row_change_other. intros ->. apply Hnot.
           apply list_elem_of_fmap. exists m. split; [reflexivity|].
           now apply list_elem_of_In.
    + split; [discriminate|]. intros H.
      destruct (H (a, req) (or_introl eq_refl)) as (row' & Hr & _).
      cbn [fst] in Hr. rewrite Erow in Hr. discriminate.
Qed.

Lemma can_craft_fold (pid : Z) (inv : list Inventory) (mats : list (Z * Z)) :
  forall acc,
    fold_left
      (fun can_craft '(material_id, required_qty) =>
         if has_qty pid material_id inv <? required_qty then false
         else can_craft) mats acc = true <->
    acc = true /\
    forall m, In m mats -> snd m <= has_qty pid (fst m) inv.
Proof.
  induction mats as [|[a req] rest IH]; intros acc; cbn [fold_left].
  - split; [intros ->; split; [reflexivity | intros m []] | tauto].
  - rewrite IH. destruct (Z.ltb_spec (has_qty pid a inv) req) as [Hlt|Hge].
    + split; [intros [? _]; discriminate|].
      intros [_ H]. specialize (H (a, req) (or_introl eq_refl)).
      cbn [fst snd] in H. lia.
    + split.
      * intros [-> H]. split; [reflexivity|]. intros m [<-|Hin]; auto.
      * intros [-> H]. split; [reflexivity|]. intros m Hin. apply H. now right.
Qed.

Section CraftingFacts.
Variable get_next_crafting_level_exp : Z -> Z.

(** The level loop ends at the first level whose threshold the
    experience does not reach, after one test per level passed and one
    more. *)
Lemma crafting_level_loop_ends (k : nat) :
  forall (fuel : nat) (lvl xp : Z),
    (forall j, (j < k)%nat ->
       get_next_crafting_level_exp (lvl + Z.of_nat j) <= xp) ->
    xp < get_next_crafting_level_exp (lvl + Z.of_nat k) ->
    (k < fuel)%nat ->
    crafting_level_loop get_next_crafting_level_exp fuel lvl xp
    = Some (lvl + Z.of_nat k).
Proof.
  induction k as [|k IH]; intros fuel lvl xp Hpass Hstop Hfuel;
    (destruct fuel as [|fuel]; [lia|]); cbn [crafting_level_loop].
  - rewrite Z.add_0_r in *.
    now replace (get_next_crafting_level_exp lvl <=? xp) with false
      by (symmetry; apply Z.leb_gt; exact Hstop).
  - replace (get_next_crafting_level_exp lvl <=? xp) with true.
    2:{ symmetry. apply Z.leb_le. specialize (Hpass 0%nat ltac:(lia)).
        now rewrite Z.add_0_r in Hpass. }
    rewrite (IH fuel (lvl + 1) xp).
    + f_equal. lia.
    + intros j Hj. specialize (Hpass (S j) ltac:(lia)).
      now replace (lvl + 1 + Z.of_nat j) with (lvl + Z.of_nat (S j)) by lia.
    + now replace (lvl + 1 + Z.of_nat k) with (lvl + Z.of_nat (S k)) by lia.
    + lia.
Qed.

(** While every threshold is reached the loop goes on. *)
Lemma crafting_level_loop_goes_on (fuel : nat) :
  forall (lvl xp : Z),
    (forall j, (j < fuel)%nat ->
       get_next_crafting_level_exp (lvl + Z.of_nat j) <= xp) ->
    crafting_level_loop get_next_crafting_level_exp fuel lvl xp = None.
Proof.
  induction fuel as [|fuel IH]; intros lvl xp Hpass;
    cbn [crafting_level_loop]; [reflexivity|].
  replace (get_next_crafting_level_exp lvl <=? xp) with true.
  2:{ symmetry. apply Z.leb_le. specialize (Hpass 0%nat ltac:(lia)).
      now rewrite Z.add_0_r in Hpass. }
  apply IH. intros j Hj. specialize (Hpass (S j) ltac:(lia)).
  now replace (lvl + 1 + Z.of_nat j) with (lvl + Z.of_nat (S j)) by lia.
Qed.

(** The button of the recipe card and the checks of [create_item]. *)
Lemma offers_create_checks (recipe : Recipe) (w : craft_world) :
  sound_recipe recipe ->
  offers_create recipe w = true <->
  recipe_energy_cost recipe <= Player.energy (cw_player w) /\
  snd (consume_materials (Player.id (cw_player w)) (materials recipe)
                         (cw_inventory w)) = true.
Proof.
  intros (Hnd & Hpos). unfold offers_create, can_craft.
  rewrite andb_true_iff, can_craft_fold, Z.leb_le.
  rewrite (consume_materials_runs (Player.id (cw_player w))
             (materials recipe) Hnd (cw_inventory w)).
  assert (Hsame :
    (forall m, In m (materials recipe) ->
       snd m <= has_qty (Player.id (cw_player w)) (fst m) (cw_inventory w)) <->
    (forall m, In m (materials recipe) ->
       exists row, find_row (Player.id (cw_player w)) (fst m) (cw_inventory w)
                   = Some row /\ snd m <= quantity row)).
  { unfold has_qty. split; intros H m Hin; specialize (H m Hin);
      specialize (Hpos m Hin).
    - destruct (find_row _ _ _) as [row|]; [exists row; auto | lia].
    - destruct H as (row & -> & Hq). exact Hq. }
  rewrite <- Hsame. tauto.
Qed.

(** Property X22.  For a recipe that lists each material once and asks for at least
    one of each: when [show_recipe_details] does not offer the button
    that calls [create_item], [create_item] in the same state answers
    with a rejection and commits nothing; when it offers the button and
    the level loop of [create_item] ends, at the first level whose
    threshold the new crafting experience does not reach, [create_item]
    creates the item, commits and leaves that crafting level; when it
    offers the button and every threshold is reached, the loop does not
    end and [create_item] gives no answer.  An item is only ever
    created where the button is offered. *)
Theorem the_create_button_is_offered_when_crafting_succeeds
    (recipe : Recipe) (w : craft_world) :
  sound_recipe recipe ->
  let lvl := Player.crafting_level (cw_player w) in
  let xp := Player.crafting_experience (cw_player w)
            + recipe_experience recipe in
  (forall crafting_fuel h,
     create_item get_next_crafting_level_exp crafting_fuel recipe w = Some h ->
     reply h = Crafted -> offers_create recipe w = true) /\
  (offers_create recipe w = false ->
   forall crafting_fuel,
   exists h,
     create_item get_next_crafting_level_exp crafting_fuel recipe w = Some h /\
     reply h <> Crafted /\ committed h = false) /\
  (offers_create recipe w = true ->
   forall k : nat,
     (forall j, (j < k)%nat ->
        get_next_crafting_level_exp (lvl + Z.of_nat j) <= xp) ->
     xp < get_next_crafting_level_exp (lvl + Z.of_nat k) ->
     forall crafting_fuel, (k < crafting_fuel)%nat ->
     exists h,
       create_item get_next_crafting_level_exp crafting_fuel recipe w = Some h /\
       reply h = Crafted /\ committed h = true /\
       Player.crafting_level (cw_player (after h)) = lvl + Z.of_nat k) /\
  (offers_create recipe w = true ->
   (forall j : nat, get_next_crafting_level_exp (lvl + Z.of_nat j) <= xp) ->
   forall crafting_fuel,
     create_item get_next_crafting_level_exp crafting_fuel recipe w = None).
Proof.
  intros Hsound. cbv zeta.
  pose proof (offers_create_checks recipe w Hsound) as Hoff.
  unfold create_item.
  destruct (Z.ltb_spec (Player.energy (cw_player w)) (recipe_energy_cost recipe))
    as [He|He].
  { assert (Hno : offers_create recipe w = false).
    { destruct (offers_create recipe w); [|reflexivity].
      destruct (proj1 Hoff eq_refl) as [H _]. lia. }
    split; [intros fuel h [= <-]; discriminate|].
    split; [intros _ fuel; eexists; split; [reflexivity|]; split;
            [discriminate | reflexivity]|].
    split; intros H; congruence. }
  destruct (consume_materials _ _ _) as [inv ok]. cbn [snd] in Hoff.
  cbv zeta.
  cbn [Player.set_energy Player.crafting_level Player.crafting_experience].
  destruct ok.
  - assert (Hyes : offers_create recipe w = true) by (apply Hoff; auto).
    split; [intros; exact Hyes|]. split; [congruence|]. split.
    + intros _ k Hpass Hstop fuel Hfuel.
      rewrite (crafting_level_loop_ends k fuel _ _ Hpass Hstop Hfuel).
      eexists. split; [reflexivity|]. split; [reflexivity|].
      split; reflexivity.
    + intros _ Hpass fuel.
      now rewrite (crafting_level_loop_goes_on fuel _ _ (fun j _ => Hpass j)).
  - assert (Hno : offers_create recipe w = false).
    { destruct (offers_create recipe w); [|reflexivity].
      destruct (proj1 Hoff eq_refl) as [_ H]. discriminate. }
    split; [intros fuel h [= <-]; discriminate|].
    split; [intros _ fuel; eexists; split; [reflexivity|]; split;
            [discriminate | reflexivity]|].
    split; intros H; congruence.
Qed.

End CraftingFacts.

Lemma blade_recipe_sound : sound_recipe blade_recipe.
Proof.
  split.
  - cbn. repeat constructor; cbn; intros H;
      repeat (apply elem_of_cons in H as [H|H]; [discriminate|]);
      now apply elem_of_nil in H.
  - intros m [<-|[<-|[]]]; cbn; lia.
Defined.

(** The theorem of X22 at a sample input. *)
Lemma the_create_button_is_offered_when_crafting_succeeds_witness :
  offers_create blade_recipe stocked = true /\
  exists h,
    create_item (fun _ => 1000) 1 blade_recipe stocked = Some h /\
    reply h = Crafted /\ committed h = true /\
    Player.crafting_level (cw_player (after h))
    = Player.crafting_level (cw_player stocked) + Z.of_nat 0.
Proof.
  split; [reflexivity|].
  apply (proj1 (proj2 (proj2
           (the_create_button_is_offered_when_crafting_succeeds
              (fun _ => 1000) blade_recipe stocked blade_recipe_sound)))
           eq_refl 0%nat).
  - intros j Hj. lia.
  - vm_compute. reflexivity.
  - lia.
Defined.

(** A material listed with a quantity of 0 and not owned passes the
    check of the recipe card, which reads a missing row as 0, and fails
    the check of [create_item], which wants the row. *)
Example a_material_of_quantity_zero_is_offered_and_refused :
  offers_create idle_recipe half_stocked = true /\
  exists h,
    create_item (fun _ => 1000) 1 idle_recipe half_stocked = Some h /\
    reply h = CraftNoMaterials.
Proof. split; [reflexivity|]. eexists. split; reflexivity. Qed.

(** *** What crafting takes and gives *)

Lemma row_of_both (pid a pid' b : Z) (row : Inventory) :
  row_of pid a row = true -> row_of pid' b row = true -> pid' = pid /\ b = a.
Proof.
  unfold row_of. rewrite !andb_true_iff, !Z.eqb_eq. lia.
Qed.

(** [row.quantity += delta] on the first row of an item moves the
    owner's total of that item by [delta], deleted row or not, and no
    other total. *)
Lemma total_qty_change_row (pid a delta : Z) (del : bool) (pid' b : Z)
    (inv : list Inventory) :
  total_qty pid' b (change_row pid a delta del inv)
  = total_qty pid' b inv
    + (if (pid' =? pid) && (b =? a) && bool_decide (is_Some (find_row pid a inv))
       then delta else 0).
Proof.
  unfold find_row.
  induction inv as [|row rest IH]; cbn [change_row total_qty foldr List.find].
  - rewrite andb_false_r. lia.
  - destruct (row_of pid a row) eqn:Ea.
    + rewrite bool_decide_eq_true_2 by eauto. rewrite andb_true_r.
      destruct (row_of pid' b row) eqn:Eb.
      * destruct (row_of_both _ _ _ _ _ Ea Eb) as (-> & ->).
        rewrite !Z.eqb_refl. cbn [andb].
        destruct (del && (quantity row + delta =? 0)) eqn:Ed.
        -- apply andb_true_iff in Ed as (_ & Ed). apply Z.eqb_eq in Ed.
           fold (total_qty pid a rest). lia.
        -- cbn [foldr]. unfold row_of in Ea |- *.
           cbn [inv_player_id inv_item_id quantity]. rewrite Ea.
           fold (total_qty pid a rest). lia.
      * assert (Hne : (pid' =? pid) && (b =? a) = false).
        { apply andb_false_iff. unfold row_of in Ea, Eb.
          apply andb_true_iff in Ea as (E1 & E2).
          apply Z.eqb_eq in E1, E2. apply andb_false_iff in Eb.
          destruct Eb as [Eb|Eb]; apply Z.eqb_neq in Eb;
            [left | right]; apply Z.eqb_neq; lia. }
        rewrite Hne.
        destruct (del && (quantity row + delta =? 0)).
        -- fold (total_qty pid' b rest). lia.
        -- cbn [foldr]. unfold row_of in Eb |- *.
           cbn [inv_player_id inv_item_id quantity]. rewrite Eb.
           fold (total_qty pid' b rest). lia.
    + cbn [foldr]. fold (total_qty pid' b rest).
      fold (total_qty pid' b (change_row pid a delta del rest)).
      rewrite IH. destruct (row_of pid' b row); lia.
Qed.

Lemma total_qty_app (pid b : Z) (inv inv' : list Inventory) :
  total_qty pid b (inv ++ inv') = total_qty pid b inv + total_qty pid b inv'.
Proof.
  unfold total_qty. induction inv as [|row rest IH]; cbn [app foldr]; [lia|].
  destruct (row_of pid b row); lia.
Qed.

Lemma find_absent {A} (f : A -> bool) (l : list A) :
  (forall x, In x l -> f x = false) -> List.find f l = None.
Proof.
  induction l as [|x l IH]; intros H; cbn [List.find]; [reflexivity|].
  rewrite (H x (or_introl eq_refl)). apply IH. intros y Hy. apply H. now right.
Qed.

(** What the loop of [create_item] has taken when it ran to its end. *)
Lemma consume_materials_takes (pid : Z) (mats : list (Z * Z)) :
  NoDup (fst <$> mats) ->
  forall inv pid' b,
    snd (consume_materials pid mats inv) = true ->
    total_qty pid' b (fst (consume_materials pid mats inv))
    = total_qty pid' b inv
      - (if pid' =? pid then required_of b mats else 0).
Proof.
  unfold required_of.
  induction mats as [|[a req] rest IH]; intros Hnd inv pid' b;
    cbn [consume_materials List.find fst snd].
  - intros _. destruct (pid' =? pid); lia.
  - cbn [fmap list_fmap fst] in Hnd. apply NoDup_cons in Hnd as (Hnot & Hnd).
    destruct (find_row pid a inv) as [row|] eqn:Erow; [|discriminate].
    destruct (quantity row <? req); [discriminate|].
    intros Hok. rewrite (IH Hnd _ _ _ Hok), total_qty_change_row, Erow.
    rewrite bool_decide_eq_true_2 by eauto. rewrite andb_true_r.
    destruct (Z.eqb_spec pid' pid) as [->|Hp]; cbn [andb]; [|lia].
    rewrite (Z.eqb_sym a b).
    destruct (Z.eqb_spec b a) as [->|Hb]; [|cbn [snd]; lia].
    replace (List.find (fun m : Z * Z => fst m =? a) rest) with (@None (Z * Z));
      [cbn [snd]; lia|].
    symmetry. apply find_absent. intros m Hin.
    apply Z.eqb_neq. intros <-. apply Hnot.
    apply list_elem_of_fmap. exists m. split; [reflexivity|].
    now apply list_elem_of_In.
Qed.

Section CraftingBooks.
Variable get_next_crafting_level_exp : Z -> Z.
Variable crafting_fuel : nat.

Lemma crafting_level_loop_grows (fuel : nat) (lvl xp l : Z) :
  crafting_level_loop get_next_crafting_level_exp fuel lvl xp = Some l ->
  lvl <= l.
Proof.
  revert lvl. induction fuel as [|fuel IH]; intros lvl;
    cbn [crafting_level_loop]; [discriminate|].
  destruct (get_next_crafting_level_exp lvl <=? xp).
  - intros H. specialize (IH (lvl + 1) H). lia.
  - intros [= <-]. lia.
Qed.

(** Property X23.  When [create_item] returns and has created the item (materials
    listed once each), it has committed, and for every player and item
    the quantity owned over all inventory rows changes by exactly the
    result quantity, if the item is the result, less the quantity the
    recipe asks of it, for the crafting player, and not at all for
    anybody else; the player pays the energy cost, which the energy
    covers, gains the recipe's crafting experience, loses no crafting
    level and changes in nothing else. *)
Theorem crafting_takes_the_materials_and_gives_the_result
    (recipe : Recipe) (w : craft_world)
    (h : handled craft_world craft_reply) :
  NoDup (fst <$> materials recipe) ->
  create_item get_next_crafting_level_exp crafting_fuel recipe w = Some h ->
  let player := cw_player w in
  let player' := cw_player (after h) in
  reply h = Crafted ->
  committed h = true /\
  (forall player_id item_id,
     total_qty player_id item_id (cw_inventory (after h))
     = total_qty player_id item_id (cw_inventory w)
       + (if player_id =? Player.id player
          then (if item_id =? result_item_id recipe
                then result_quantity recipe else 0)
               - required_of item_id (materials recipe)
          else 0)) /\
  Player.energy player' = Player.energy player - recipe_energy_cost recipe /\
  0 <= Player.energy player - recipe_energy_cost recipe /\
  Player.crafting_experience player'
    = Player.crafting_experience player + recipe_experience recipe /\
  Player.crafting_level player <= Player.crafting_level player' /\
  player' = Player.set_crafting
              (Player.set_energy player (Player.energy player'))
              (Player.crafting_level player')
              (Player.crafting_experience player').
Proof.
  intros Hnd. cbv zeta. unfold create_item.
  destruct (Z.ltb_spec (Player.energy (cw_player w)) (recipe_energy_cost recipe))
    as [He|He]; [intros [= <-]; discriminate|].
  pose proof (consume_materials_takes (Player.id (cw_player w))
                (materials recipe) Hnd (cw_inventory w)) as Htake.
  destruct (consume_materials _ _ _) as [inv ok]. cbn [fst snd] in Htake.
  destruct ok; [|intros [= <-]; discriminate].
  cbv zeta.
  cbn [Player.set_energy Player.crafting_level Player.crafting_experience].
  destruct (crafting_level_loop _ _ _ _) as [lvl|] eqn:Eloop; [|discriminate].
  apply crafting_level_loop_grows in Eloop.
  intros [= <-] _.
  cbn [after committed cw_player cw_inventory].
  split; [reflexivity|]. split.
  { intros pid b. specialize (Htake pid b eq_refl).
    destruct (find_row (Player.id (cw_player w)) (result_item_id recipe) inv)
      as [row|] eqn:Erow.
    - rewrite total_qty_change_row, Erow, Htake.
      rewrite bool_decide_eq_true_2 by eauto. rewrite andb_true_r.
      destruct (pid =? Player.id (cw_player w)),
               (b =? result_item_id recipe); cbn [andb]; lia.
    - rewrite total_qty_app, Htake. unfold total_qty at 2. cbn [foldr].
      unfold row_of. cbn [inv_player_id inv_item_id quantity].
      rewrite (Z.eqb_sym (Player.id (cw_player w)) pid).
      rewrite (Z.eqb_sym (result_item_id recipe) b).
      destruct (pid =? Player.id (cw_player w)),
               (b =? result_item_id recipe); cbn [andb]; lia. }
  clear Htake.
  cbn [Player.set_energy Player.set_crafting Player.energy
       Player.crafting_experience Player.crafting_level].
  split; [reflexivity|]. split; [lia|]. split; [reflexivity|].
  split; [exact Eloop | reflexivity].
Qed.

End CraftingBooks.

(** The theorem of X23 at a sample input. *)
Lemma crafting_takes_the_materials_and_gives_the_result_witness :
  exists h,
    create_item (fun _ => 1000) 1 blade_recipe stocked = Some h /\
    total_qty 1 1 (cw_inventory (after h)) = 2 + (0 - 1) /\
    total_qty 1 9 (cw_inventory (after h)) = 0 + (1 - 0) /\
    Player.energy (cw_player (after h)) = 100 - 5.
Proof.
  eexists. split; [reflexivity|].
  destruct (crafting_takes_the_materials_and_gives_the_result
              (fun _ => 1000) 1%nat blade_recipe stocked _
              (proj1 blade_recipe_sound) eq_refl eq_refl)
    as (_ & H & He & _).
  split; [exact (H 1 1)|]. split; [exact (H 1 9) | exact He].
Defined.

(** *** Drops and the inventory *)

(** The rows the loop over the drop table adds: one per dropped name,
    each for the player and with a quantity of 1. *)
Lemma drop_fold_rows (s : Session) (player : Player.t) (entries : list (Z * Q)) :
  forall added dropped g,
    Forall (fun row => inv_player_id row = Player.id player /\ quantity row = 1)
           added ->
    length added = length dropped ->
    let '(added', dropped', _) :=
      fold_left (drop_step s player) entries (added, dropped, g) in
    Forall (fun row => inv_player_id row = Player.id player /\ quantity row = 1)
           added' /\
    length added' = length dropped'.
Proof.
  induction entries as [|[item_id chance] rest IH]; intros added dropped g Hall Hlen;
    cbn [fold_left].
  - split; assumption.
  - unfold drop_step at 2. cbn [random].
    destruct (Qltb _ chance); [|now apply IH].
    destruct (items s !! item_id) as [item|]; [|now apply IH].
    apply IH.
    + apply Forall_app. split; [exact Hall|]. repeat constructor.
    + rewrite !length_app. cbn [length]. lia.
Qed.

Lemma find_app {A} (f : A -> bool) (l l' : list A) :
  List.find f (l ++ l')
  = match List.find f l with Some x => Some x | None => List.find f l' end.
Proof.
  induction l as [|x l IH]; cbn [app List.find]; [reflexivity|].
  destruct (f x); [reflexivity | exact IH].
Qed.

Lemma total_qty_fresh_rows (pid pid' b : Z) (added : list Inventory) :
  Forall (fun row => inv_player_id row = pid /\ quantity row = 1) added ->
  0 <= total_qty pid' b added.
Proof.
  unfold total_qty. induction 1 as [|row rest (_ & Hq) _ IH]; cbn [foldr]; [lia|].
  destruct (row_of pid' b row); lia.
Qed.

(** Property X24.  [process_battle_rewards] never adds a drop to the quantity of a
    row: the row that [filter_by(...).first()] finds for an item the
    player already owns stays the same row, an item not owned before
    is found with a quantity of at most 1 however often it dropped, no
    total quantity shrinks, and the inventory grows by one row per
    name in [dropped_items]. *)
Theorem dropped_items_do_not_stack
    (player player' : Player.t) (monster : Monster) (s s' : Session)
    (r : rewards) (g g' : rng) :
  process_battle_rewards player monster s g = Some (player', s', r, g') ->
  (forall item_id row,
     find_row (Player.id player) item_id (inventory s) = Some row ->
     find_row (Player.id player) item_id (inventory s') = Some row) /\
  (forall item_id,
     find_row (Player.id player) item_id (inventory s) = None ->
     0 <= has_qty (Player.id player) item_id (inventory s') <= 1) /\
  (forall player_id item_id,
     total_qty player_id item_id (inventory s)
     <= total_qty player_id item_id (inventory s')) /\
  length (inventory s')
    = (length (inventory s) + length (dropped_items r))%nat.
Proof.
  unfold process_battle_rewards.
  destruct (randint _ _ g) as [[baton_reward g1]|]; [|discriminate].
  pose proof (add_experience_frame player (experience_reward monster)) as Hfr.
  destruct (Player.add_experience player (experience_reward monster)) as [q lu].
  cbv zeta in Hfr. cbn [fst] in Hfr. destruct Hfr as (Hid & _).
  set (paid := Player.set_batons q (Player.batons q + baton_reward)).
  assert (Hrows :
    let '(added, dropped, _) :=
      match drop_table monster with
      | Some entries => fold_left (drop_step s paid) entries ([], [], g1)
      | None => ([], [], g1)
      end in
    Forall (fun row => inv_player_id row = Player.id player /\ quantity row = 1)
           added /\
    length added = length dropped).
  { destruct (drop_table monster) as [entries|].
    - pose proof (drop_fold_rows s paid entries [] [] g1) as H.
      replace (Player.id paid) with (Player.id player) in H
        by (symmetry; exact Hid).
      apply H; [constructor | reflexivity].
    - split; [constructor | reflexivity]. }
  destruct (match drop_table monster with
            | Some entries => _ | None => _ end) as [[added dropped] g2].
  destruct Hrows as (Hall & Hlen).
  intros [= <- <- <- <-]. cbn [inventory set_inventory dropped_items].
  split; [|split; [|split]].
  - intros item_id row Hrow. unfold find_row in *.
    now rewrite find_app, Hrow.
  - intros item_id Hnone. unfold has_qty, find_row in *.
    rewrite find_app, Hnone.
    destruct (List.find _ added) as [row|] eqn:E; [|lia].
    apply find_some in E as (Hin & _).
    rewrite Forall_forall in Hall.
    destruct (Hall row) as (_ & ->); [now apply list_elem_of_In | lia].
  - intros pid b. rewrite total_qty_app.
    pose proof (total_qty_fresh_rows _ pid b added Hall). lia.
  - rewrite length_app. lia.
Qed.

(** The theorem of X24 at a sample input. *)
Lemma dropped_items_do_not_stack_witness :
  exists player' s' r g',
    process_battle_rewards novice wolf loot_session steady
      = Some (player', s', r, g') /\
    length (inventory s')
      = (length (inventory loot_session) + length (dropped_items r))%nat /\
    dropped_items r = ["fang"; "pelt"].
Proof.
  destruct (process_battle_rewards novice wolf loot_session steady)
    as [[[[player' s'] r] g']|] eqn:E; [|vm_compute in E; discriminate].
  exists player', s', r, g'. split; [reflexivity|]. split.
  - exact (proj2 (proj2 (proj2
      (dropped_items_do_not_stack novice _ wolf loot_session _ _ steady _ E)))).
  - vm_compute in E. now injection E as <- <- <- <-.
Defined.

(** Two fangs won in two fights lie in two rows of one fang each, and a
    recipe that asks for two fangs is not offered. *)
Example two_drops_do_not_make_a_pair :
  let twice := [{| inv_player_id := 1; inv_item_id := 1; quantity := 1 |};
                {| inv_player_id := 1; inv_item_id := 1; quantity := 1 |}] in
  total_qty 1 1 twice = 2 /\ has_qty 1 1 twice = 1 /\
  can_craft 1 [(1, 2)] twice = false.
Proof. repeat split. Qed.

(** ** Quests and messages *)

(** *** Daily quests *)











(** *** Long messages *)

Lemma slices_concat {char : Type} (n : nat) (text : list char) (m : nat) :
  concat ((fun i => take n (drop i text)) <$> ((fun k => k * n)%nat <$> seq 0 m))
  = take (m * n) text.
Proof.
  induction m as [|m IH].
  - now rewrite take_0.
  - rewrite seq_S, !fmap_app, concat_app, IH. cbn [fmap list_fmap concat].
    rewrite app_nil_r, Nat.add_0_l, take_take_drop. f_equal. lia.
Qed.

(** The slices of a text by [n] characters. *)
Lemma slices_spec {char : Type} (n : nat) (text : list char) :
  (0 < n)%nat ->
  let parts := (fun i => take n (drop i text)) <$> py_range_from_0 (length text) n in
  concat parts = text /\
  Forall (fun part => (length part <= n)%nat) parts /\
  Forall (fun part => part <> []) parts /\
  (forall i part, parts !! i = Some part -> (S i < length parts)%nat ->
                  length part = n).
Proof.
  intros Hn. cbv zeta. unfold py_range_from_0.
  set (m := ((length text + n - 1) / n)%nat).
  assert (Hm : (length text <= m * n)%nat /\
               (forall k, (k < m)%nat -> (k * n < length text)%nat)).
  { pose proof (Nat.div_mod_eq (length text + n - 1) n) as E.
    pose proof (Nat.mod_upper_bound (length text + n - 1) n ltac:(lia)) as U.
    fold m in E. split; [nia|]. intros k Hk. nia. }
  destruct Hm as (Hcover & Hin).
  split; [|split; [|split]].
  - rewrite slices_concat. apply take_ge. lia.
  - apply Forall_fmap, Forall_forall. intros i _. cbn.
    rewrite length_take. lia.
  - apply Forall_fmap, Forall_fmap, Forall_forall.
    intros k Hk. apply elem_of_seq in Hk. cbn.
    intros E. apply (f_equal length) in E.
    rewrite length_take, length_drop in E. cbn [length] in E.
    specialize (Hin k ltac:(lia)). lia.
  - intros i part Hi Hlast. rewrite !length_fmap, length_seq in Hlast.
    rewrite !list_lookup_fmap, lookup_seq_lt in Hi by lia.
    cbn in Hi. injection Hi as <-.
    rewrite length_take, length_drop.
    specialize (Hin (S i) Hlast). lia.
Qed.

(** Property X28.  The texts [show_achievements] sends for a [response_text]
    concatenate to the text; none is longer than 4096 characters; none
    is empty unless the text is; and every text but the last has
    exactly 4096 characters. *)
Theorem long_messages_are_cut_without_loss {char : Type} (response_text : list char) :
  concat (answers response_text) = response_text /\
  Forall (fun part => (length part <= 4096)%nat) (answers response_text) /\
  (response_text <> [] -> Forall (fun part => part <> []) (answers response_text)) /\
  (forall i part,
     answers response_text !! i = Some part ->
     (S i < length (answers response_text))%nat -> length part = 4096%nat).
Proof.
  unfold answers.
  assert (Hpos : (0 < 4096)%nat) by lia.
  revert Hpos. generalize 4096%nat. intros n Hn.
  destruct (Nat.ltb_spec n (length response_text)) as [Hlong|Hshort].
  - destruct (slices_spec n response_text Hn) as (H1 & H2 & H3 & H4).
    split; [exact H1|]. split; [exact H2|]. split; [intros _; exact H3 | exact H4].
  - split; [cbn; apply app_nil_r|].
    split; [apply Forall_cons; split; [exact Hshort | constructor]|].
    split; [intros Hne; apply Forall_cons; split; [exact Hne | constructor]|].
    intros i part _ Hlast. cbn [length] in Hlast. lia.
Qed.
